(** * shifty-heal: a selector-healing engine for browser tests

    A shallow embedding of the TypeScript sources

      - [src/core/healer.ts]                        (HealingEngine)
      - [src/core/strategies/data-testid-recovery]  (DataTestIdRecoveryStrategy)
      - [src/core/strategies/text-content-matching] (TextContentMatchingStrategy)
      - [src/core/strategies/css-hierarchy-analysis.ts]
                         (CssHierarchyAnalysisStrategy, AiPoweredAnalysisStrategy)
      - [src/core/strategies/utils.ts]              (checkSelectorExists, validateUrl)
      - [src/playwright/retry-handler.ts]           (RetryHandler)
      - [src/playwright/page-wrapper.ts]            (HealingPage)
      - [src/config/healing-config.ts]              (loadHealingConfig, mergeConfigs)

    Conventions of the embedding.

    - JavaScript strings are [string]s; [toLowerCase], [trim] and the
      character classes of the regular expressions are the ASCII ones.
    - JavaScript numbers that carry a confidence or a score are rationals
      ([Q]); counters, lengths and attempt numbers are [nat] or [Z].
    - The browser driver, the LLM backend and the JavaScript built-ins
      [JSON.parse] and [new URL] are oracles collected in the record [World].
      Every call of an oracle is recorded in an event log, and the oracle is
      asked with the number of events recorded so far, so that the page may
      answer differently at different moments of one call.
    - A [Promise] that rejects, or a call that throws, is an [outcome] with
      constructor [Throw]. *)

From Stdlib Require Import String Ascii List ZArith QArith Lia Lqa Permutation.
From stdpp Require Import gmap strings list fin_maps.

Close Scope Q_scope.
Local Open Scope string_scope.
Local Open Scope list_scope.
Local Open Scope nat_scope.

(** ** JavaScript string primitives *)

Module JsString.

Definition is_upper (c : ascii) : bool :=
  (65 <=? nat_of_ascii c) && (nat_of_ascii c <=? 90).

Definition is_lower (c : ascii) : bool :=
  (97 <=? nat_of_ascii c) && (nat_of_ascii c <=? 122).

Definition is_digit (c : ascii) : bool :=
  (48 <=? nat_of_ascii c) && (nat_of_ascii c <=? 57).

Definition is_alpha (c : ascii) : bool := is_upper c || is_lower c.

(** [\s] *)
Definition is_space (c : ascii) : bool := Ascii.is_space c.

Definition lower_char (c : ascii) : ascii :=
  if is_upper c then ascii_of_nat (nat_of_ascii c + 32) else c.

(** [s.toLowerCase()], on ASCII letters.  In JavaScript the lower-cased
    string may differ in length from the original (outside ASCII), so the
    statements below take lengths of the lower-cased strings themselves. *)
Fixpoint toLowerCase (s : string) : string :=
  match s with
  | EmptyString => EmptyString
  | String c s' => String (lower_char c) (toLowerCase s')
  end.

Fixpoint trimStart (s : string) : string :=
  match s with
  | String c s' => if is_space c then trimStart s' else s
  | EmptyString => EmptyString
  end.

(** [s.trim()] *)
Definition trim (s : string) : string :=
  String.rev (trimStart (String.rev (trimStart s))).

(** [s.startsWith(p)] *)
Fixpoint startsWith (p s : string) : bool :=
  match p, s with
  | EmptyString, _ => true
  | String a p', String b s' => if Ascii.eqb a b then startsWith p' s' else false
  | String _ _, EmptyString => false
  end.

(** [s.includes(sub)] *)
Fixpoint includes (s sub : string) : bool :=
  startsWith sub s ||
  match s with
  | EmptyString => false
  | String _ s' => includes s' sub
  end.

(** [s.endsWith(suffix)] *)
Definition endsWith (s suffix : string) : bool :=
  startsWith (String.rev suffix) (String.rev s).

(** [xs.join(sep)] *)
Fixpoint join (sep : string) (xs : list string) : string :=
  match xs with
  | [] => ""
  | [x] => x
  | x :: rest => x +:+ sep +:+ join sep rest
  end.

(** [s.charAt(i)], as an option: [None] past the end. *)
Definition charAt (s : string) (i : nat) : option ascii := String.get i s.

(** [s.substring(0, n)] *)
Definition take (n : nat) (s : string) : string := String.substring 0 n s.

Definition nonempty (s : string) : bool :=
  match s with EmptyString => false | _ => true end.

End JsString.

(** ** Regular expressions

    The patterns of the sources only repeat character classes, so the
    abstract syntax has [Star] on a class.  Matching is the backtracking,
    leftmost, greedy matching of JavaScript; [Grp] is the capture group
    whose text the caller reads (group 1 of the sources). *)

Module Regex.

Inductive regex : Type :=
| Eps
| Bol                              (* ^ *)
| Chr (p : ascii -> bool)          (* one character of a class *)
| Star (p : ascii -> bool)         (* [..]*, greedy *)
| Cat (r1 r2 : regex)
| Alt (r1 r2 : regex)
| Grp (r : regex).

Definition Plus (p : ascii -> bool) : regex := Cat (Chr p) (Star p).

(** The result of a match: its length, and the text of the group. *)
Definition found : Type := nat * option string.

(** A continuation receives: are we still at index 0, the rest of the
    input, the number of characters consumed, the group. *)
Definition cont : Type := bool -> string -> nat -> option string -> option found.

Fixpoint star (p : ascii -> bool) (s : string) (n : nat)
         (cap : option string) (bol : bool) (k : cont) : option found :=
  match s with
  | String c s' =>
      if p c then
        match star p s' (S n) cap false k with
        | Some r => Some r
        | None => k bol s n cap
        end
      else k bol s n cap
  | EmptyString => k bol s n cap
  end.

Fixpoint run (r : regex) (bol : bool) (s : string) (n : nat)
         (cap : option string) (k : cont) : option found :=
  match r with
  | Eps => k bol s n cap
  | Bol => if bol then k bol s n cap else None
  | Chr p =>
      match s with
      | String c s' => if p c then k false s' (S n) cap else None
      | EmptyString => None
      end
  | Star p => star p s n cap bol k
  | Cat r1 r2 => run r1 bol s n cap (fun b' s' n' cap' => run r2 b' s' n' cap' k)
  | Alt r1 r2 =>
      match run r1 bol s n cap k with
      | Some x => Some x
      | None => run r2 bol s n cap k
      end
  | Grp r1 =>
      run r1 bol s n cap
          (fun b' s' n' _ => k b' s' n' (Some (String.substring 0 (n' - n) s)))
  end.

(** A match that starts exactly at the head of [s]. *)
Definition match_here (r : regex) (bol : bool) (s : string) : option found :=
  run r bol s 0 None (fun _ _ n cap => Some (n, cap)).

(** [s.match(r)] without the [g] flag: the leftmost match, as the pair of
    [match[0]] and the group. *)
Fixpoint search_from (r : regex) (bol : bool) (s : string)
  : option (string * option string) :=
  match match_here r bol s with
  | Some (n, cap) => Some (String.substring 0 n s, cap)
  | None =>
      match s with
      | String _ s' => search_from r false s'
      | EmptyString => None
      end
  end.

Definition search (r : regex) (s : string) : option (string * option string) :=
  search_from r true s.

(** [r.test(s)] *)
Definition test (r : regex) (s : string) : bool :=
  match search r s with Some _ => true | None => false end.

(** [s.match(r)] with the [g] flag, [s.matchAll(r)] and the [exec] loop:
    all matches from left to right, none overlapping.  [skip] counts the
    characters of the previous match still to be passed. *)
Fixpoint all_from (r : regex) (bol : bool) (s : string) (skip : nat)
  : list (string * option string) :=
  match skip with
  | S k =>
      match s with
      | String _ s' => all_from r false s' k
      | EmptyString => []
      end
  | O =>
      match match_here r bol s with
      | Some (n, cap) =>
          (String.substring 0 n s, cap) ::
          match s with
          | String _ s' => all_from r false s' (n - 1)
          | EmptyString => []
          end
      | None =>
          match s with
          | String _ s' => all_from r false s' 0
          | EmptyString => []
          end
      end
  end.

Definition all (r : regex) (s : string) : list (string * option string) :=
  all_from r true s 0.

(** [s.replace(r, rep)] with the [g] flag, for a replacement text [rep]
    without [$] patterns. *)
Fixpoint replace_from (r : regex) (rep : string) (bol : bool) (s : string)
         (skip : nat) : string :=
  match s with
  | EmptyString => EmptyString
  | String c s' =>
      match skip with
      | S k => replace_from r rep false s' k
      | O =>
          match match_here r bol s with
          | Some (S n, _) => rep +:+ replace_from r rep false s' n
          | _ => String c (replace_from r rep false s' 0)
          end
      end
  end.

Definition replace_all (r : regex) (rep : string) (s : string) : string :=
  replace_from r rep true s 0.

Definition remove_all (r : regex) (s : string) : string :=
  replace_all r EmptyString s.

(** [s.split(r)] for a pattern that matches no empty string; [cur] is the
    piece being read, reversed. *)
Fixpoint split_from (r : regex) (bol : bool) (s : string) (skip : nat)
         (cur : string) : list string :=
  match s with
  | EmptyString => [String.rev cur]
  | String c s' =>
      match skip with
      | S k => split_from r false s' k cur
      | O =>
          match match_here r bol s with
          | Some (S n, _) => String.rev cur :: split_from r false s' n EmptyString
          | _ => split_from r false s' 0 (String c cur)
          end
      end
  end.

Definition split (r : regex) (s : string) : list string :=
  split_from r true s 0 EmptyString.

(** Pattern builders. *)
Definition one (c : ascii) : regex := Chr (Ascii.eqb c).

(** A character under the [i] flag. *)
Definition one_ci (c : ascii) : regex :=
  Chr (fun d => Ascii.eqb (JsString.lower_char c) (JsString.lower_char d)).

Fixpoint cats (rs : list regex) : regex :=
  match rs with
  | [] => Eps
  | [r] => r
  | r :: rest => Cat r (cats rest)
  end.

Fixpoint lit (s : string) : regex :=
  match s with
  | EmptyString => Eps
  | String c EmptyString => one c
  | String c s' => Cat (one c) (lit s')
  end.

Fixpoint lit_ci (s : string) : regex :=
  match s with
  | EmptyString => Eps
  | String c EmptyString => one_ci c
  | String c s' => Cat (one_ci c) (lit_ci s')
  end.

Definition any_of (cs : string) (c : ascii) : bool :=
  existsb (Ascii.eqb c) (list_ascii_of_string cs).

Definition none_of (cs : string) (c : ascii) : bool := negb (any_of cs c).

(** [[a-zA-Z0-9_-]] *)
Definition ident_char (c : ascii) : bool :=
  JsString.is_alpha c || JsString.is_digit c || any_of "_-" c.

(** [[\s\S]] *)
Definition any_char (c : ascii) : bool := true.

End Regex.

(** ** Numbers *)

Definition Qlt_bool (a b : Q) : bool := negb (Qle_bool b a).

Definition Qnat (n : nat) : Q := inject_Z (Z.of_nat n).

(** [Math.min(a, b)] *)
Definition Math_min (a b : Q) : Q := if Qle_bool a b then a else b.

(** [xs.sort((a, b) => key(b) - key(a))]: the stable sort by descending
    key.  [insert_desc] places an element before the first one whose key
    is not greater, so elements with equal keys keep their order. *)
Section Sort.
Context {A : Type} (key : A -> Q).

Fixpoint insert_desc (x : A) (l : list A) : list A :=
  match l with
  | [] => [x]
  | y :: l' => if Qlt_bool (key x) (key y) then y :: insert_desc x l' else x :: l
  end.

Fixpoint sort_desc (l : list A) : list A :=
  match l with
  | [] => []
  | x :: l' => insert_desc x (sort_desc l')
  end.
End Sort.

(** [xs.filter(x => { if (seen.has(k(x))) return false; seen.add(k(x)); return true })] *)
Fixpoint dedupe_by {A : Type} (k : A -> string) (seen : list string) (l : list A) : list A :=
  match l with
  | [] => []
  | x :: l' =>
      if bool_decide (k x ∈ seen) then dedupe_by k seen l'
      else x :: dedupe_by k (k x :: seen) l'
  end.

(** ** Core types ([types.ts]) *)

Inductive outcome (A : Type) : Type :=
| Ok (a : A)
| Throw (msg : string).
Arguments Ok {A} a.
Arguments Throw {A} msg.

Inductive HealingStrategy : Type :=
| data_testid_recovery
| text_content_matching
| css_hierarchy_analysis
| ai_powered_analysis.

#[global] Instance HealingStrategy_eq_dec : EqDecision HealingStrategy.
Proof. solve_decision. Defined.

(** The shapes of [metadata] that the sources build. *)
Inductive Metadata : Type :=
| MdCached (useCount : nat)
| MdNoHealingNeeded
| MdTestId (originalTestId foundTestId matchType : string)
| MdText (originalText foundText : string) (similarity : Q)
| MdCss (originalSelector transformationType : string)
| MdAiHealed (aiReasoning : option string) (totalSuggestions : nat)
| MdAiResponse (aiResponse : string) (suggestions : option nat).

Record HealingResult : Type := {
  success : bool;
  selector : string;
  confidence : Q;
  strategy : HealingStrategy;
  alternatives : list string;
  error : option string;
  metadata : option Metadata
}.

(** [metadata.cached === true] *)
Definition metadata_cached (r : HealingResult) : bool :=
  match metadata r with Some (MdCached _) => true | _ => false end.

(** [metadata.noHealingNeeded === true] *)
Definition metadata_noHealingNeeded (r : HealingResult) : bool :=
  match metadata r with Some MdNoHealingNeeded => true | _ => false end.

Record ElementInfo : Type := {
  el_tag : string;
  el_id : option string;
  el_classes : list string;
  el_text : option string;
  el_testId : option string;
  el_role : option string;
  el_ariaLabel : option string;
  el_type : option string;
  el_name : option string;
  el_parent : option (string * list string)
}.

Record HealingStrategyOptions : Type := {
  expectedType : option string;
  maxElements : option nat
}.

Definition no_options : HealingStrategyOptions :=
  {| expectedType := None; maxElements := None |}.

(** [x || d] on an optional string: the empty string is falsy. *)
Definition str_or (x : option string) (d : string) : string :=
  match x with
  | Some s => if JsString.nonempty s then s else d
  | None => d
  end.

(** [x || d] on an optional count: 0 is falsy. *)
Definition nat_or (x : option nat) (d : nat) : nat :=
  match x with
  | Some (S n) => S n
  | _ => d
  end.

(** ** The driver, the LLM backend and the event log *)

(** The element summaries that [extractPageContext] sends to the LLM. *)
Record ContextElement : Type := {
  ce_tag : string;
  ce_id : option string;
  ce_classes : list string;
  ce_text : option string;
  ce_testId : option string;
  ce_role : option string;
  ce_type : option string;
  ce_visible : bool
}.

Record PageContext : Type := {
  pc_url : string;
  pc_title : string;
  pc_elements : list ContextElement
}.

(** What [buildPrompt] interpolates into its template. *)
Record Prompt : Type := {
  prompt_brokenSelector : string;
  prompt_pageContext : PageContext;
  prompt_expectedType : option string
}.

(** One entry of [parsed.suggestions] that is not [null], read through the
    three fields the parser looks at (an entry that is a number, a string, a
    boolean or an array has none of them).  [item_selector] is [None] when
    the field is missing or not a string; [item_confidence] is a JSON
    number, or [None] when the field is missing or [null]: replies whose
    [confidence] is of another type are outside the embedding. *)
Record AiItem : Type := {
  item_selector : option string;
  item_confidence : option Q;
  item_reasoning : option string
}.

(** [JSON.parse(text)], read through [parsed.suggestions]: the call throws,
    or yields an object whose [suggestions] is an array ([Some]) or anything
    else ([None]).  An entry of the array is [null] ([None]) or an item. *)
Inductive Parsed : Type :=
| ParseError
| ParsedObject (suggestions : option (list (option AiItem))).

(** [new URL(url)], read through [hostname] and [port]. *)
Record URL : Type := {
  hostname : string;
  port : string
}.

Record World : Type := {
  (** [page.locator(selector).count()] *)
  locator_count : nat -> string -> outcome nat;
  (** [page.evaluate] of [getAllTestIdElements] *)
  evaluate_testIdElements : nat -> outcome (list ElementInfo);
  (** [page.evaluate] of [getAllTextElements], with its [max] argument *)
  evaluate_textElements : nat -> nat -> outcome (list ElementInfo);
  (** [page.url()], [page.title()] and [page.evaluate] of [extractPageContext] *)
  evaluate_pageContext : nat -> nat -> outcome PageContext;
  (** [fetch(url + "/api/tags")]: [response.ok], or a rejection *)
  fetch_tags : nat -> string -> outcome bool;
  (** [callOllama]: the text of [data.response || ""], or the error thrown *)
  fetch_generate : nat -> string -> string -> Z -> Prompt -> outcome string;
  JSON_parse : string -> Parsed;
  new_URL : string -> option URL
}.

Inductive Event : Type :=
| EvProbe (sel : string) (present : bool)
| EvEvaluate
| EvFetch (url : string)
| EvDelay (ms : Z)
| EvStrategy (name : HealingStrategy).

(** The log holds the newest event first; its length is the clock that
    the oracles of [World] are asked with. *)
Definition Log : Type := list Event.

(** A computation that talks to the world: a state monad on [S]. *)
Definition M (S A : Type) : Type := S -> A * S.

Definition ret {S A : Type} (a : A) : M S A := fun s => (a, s).

Definition bind {S A B : Type} (m : M S A) (f : A -> M S B) : M S B :=
  fun s => let (a, s') := m s in f a s'.

Notation "'let*' x := m 'in' k" := (bind m (fun x => k))
  (at level 10, x name, m at level 100, k at level 200).

Definition clock {A : Type} (f : nat -> A) (ev : A -> Event) : M Log A :=
  fun log => let a := f (length log) in (a, ev a :: log).

Section Driver.
Variable w : World.

(** [count > 0], with [false] when the driver throws, at time [t]. *)
Definition resolves_at (t : nat) (sel : string) : bool :=
  match locator_count w t sel with
  | Ok count => 0 <? count
  | Throw _ => false
  end.

(** [checkSelectorExists] of [utils.ts], and the private method of the
    same name in [healer.ts]. *)
Definition checkSelectorExists (sel : string) : M Log bool :=
  clock (fun t => resolves_at t sel) (EvProbe sel).
End Driver.

(** The two quote characters, and a string in double quotes. *)
Definition dquote : ascii := "034"%char.
Definition squote : ascii := "039"%char.
Definition is_quote (c : ascii) : bool := Ascii.eqb c dquote || Ascii.eqb c squote.
Definition quoted (s : string) : string :=
  String dquote s +:+ String dquote EmptyString.

(** The first of a list of patterns that matches, with its group. *)
Fixpoint first_group (patterns : list Regex.regex) (s : string) : option string :=
  match patterns with
  | [] => None
  | p :: rest =>
      match Regex.search p s with
      | Some (_, Some g) => Some g
      | _ => first_group rest s
      end
  end.

(** The candidate loop shared by the strategies:
    [for (const c of candidates) { if (await checkSelectorExists(page, sel(c))) return c }]. *)
Section Validate.
Variable w : World.
Context {C : Type} (sel : C -> string).

Fixpoint first_existing (candidates : list C) : M Log (option C) :=
  match candidates with
  | [] => ret None
  | c :: rest =>
      let* exists_ := checkSelectorExists w (sel c) in
      if exists_ then ret (Some c) else first_existing rest
  end.
End Validate.

(** ** Strategy: data-testid recovery *)

Module DataTestIdRecoveryStrategy.
Import Regex.

Definition name : HealingStrategy := data_testid_recovery.

Definition TEST_ID_ATTRIBUTES : list string :=
  ["data-testid"; "data-test-id"; "data-cy"; "data-test"; "testid"].

Record candidate : Type := {
  cand_selector : string;
  cand_testId : string;
  cand_confidence : Q;
  cand_matchType : string
}.

(** The two patterns of [extractTestId] for one attribute, both with the
    [i] flag: the bracketed form, then the bare form. *)
Definition value_pattern : regex :=
  cats [Chr (any_of "=~"); Chr is_quote; Grp (Plus (fun c => negb (is_quote c)));
        Chr is_quote].

Definition patterns (attr : string) : list regex :=
  [ cats [one "["; lit_ci attr; value_pattern; one "]"];
    cats [lit_ci attr; value_pattern] ].

Fixpoint extractTestId_from (attrs : list string) (selector : string) : option string :=
  match attrs with
  | [] => None
  | attr :: rest =>
      match first_group (patterns attr) selector with
      | Some id => Some id
      | None => extractTestId_from rest selector
      end
  end.

Definition extractTestId (selector : string) : option string :=
  extractTestId_from TEST_ID_ATTRIBUTES selector.

(** [name.toLowerCase().replace(/[-_\s]/g, '').replace(..., '$1$2').toLowerCase()];
    the second replacement writes back what it matched. *)
Definition normalizeName (name : string) : string :=
  JsString.toLowerCase
    (remove_all (Chr (fun c => any_of "-_" c || JsString.is_space c))
                (JsString.toLowerCase name)).

(** One row of the Levenshtein matrix: [prev] is [matrix[i-1]] from
    column [j-1] on, [left] is [matrix[i][j-1]], [c2] is [s2.charAt(i-1)]
    and [s1] is read from [charAt(j-1)] on. *)
Fixpoint matrix_row (c2 : ascii) (s1 : string) (prev : list nat) (left : nat) : list nat :=
  match s1, prev with
  | String c1 s1', diag :: ((up :: _) as prev') =>
      let v := if Ascii.eqb c2 c1 then diag
               else Nat.min (diag + 1) (Nat.min (left + 1) (up + 1)) in
      v :: matrix_row c2 s1' prev' v
  | _, _ => []
  end.

(** The rows [matrix[i]], ..., [matrix[len2]] for the rest [s2] of the
    second string; the result is the last row. *)
Fixpoint matrix_rows (s1 s2 : string) (i : nat) (prev : list nat) : list nat :=
  match s2 with
  | EmptyString => prev
  | String c2 s2' => matrix_rows s1 s2' (S i) (i :: matrix_row c2 s1 prev i)
  end.

Definition distance (s1 s2 : string) : nat :=
  List.last (matrix_rows s1 s2 1 (seq 0 (S (String.length s1)))) 0.

Definition calculateSimilarity (str1 str2 : string) : Q :=
  let s1 := JsString.toLowerCase str1 in
  let s2 := JsString.toLowerCase str2 in
  if String.eqb s1 s2 then 1%Q
  else
    let len1 := String.length s1 in
    let len2 := String.length s2 in
    if len1 =? 0 then 0%Q
    else if len2 =? 0 then 0%Q
    else
      let maxLen := Nat.max len1 len2 in
      (1 - Qnat (distance s1 s2) / Qnat maxLen)%Q.

(** The pair [(confidence, matchType)] chosen by the [if]/[else if] chain. *)
Definition classify (originalTestId testId : string) (similarity : Q) : Q * string :=
  if String.eqb (JsString.toLowerCase originalTestId) (JsString.toLowerCase testId)
  then ((95 # 100)%Q, "exact")
  else if String.eqb (normalizeName originalTestId) (normalizeName testId)
  then ((9 # 10)%Q, "normalized")
  else if JsString.includes (JsString.toLowerCase testId) (JsString.toLowerCase originalTestId)
  then ((8 # 10)%Q, "contains")
  else if JsString.includes (JsString.toLowerCase originalTestId) (JsString.toLowerCase testId)
  then ((75 # 100)%Q, "contained-by")
  else (similarity, "partial").

(** [expectedType && element.tag === expectedType.toLowerCase()] *)
Definition type_matches (expectedType : option string) (tag : string) : bool :=
  match expectedType with
  | Some t => JsString.nonempty t && String.eqb tag (JsString.toLowerCase t)
  | None => false
  end.

(** The candidates pushed for one element of the page. *)
Definition element_candidates (originalTestId : string) (expectedType : option string)
           (element : ElementInfo) : list candidate :=
  match el_testId element with
  | None => []
  | Some testId =>
      if negb (JsString.nonempty testId) then []
      else
        let similarity := calculateSimilarity originalTestId testId in
        if Qlt_bool (1 # 2) similarity then
          let (confidence0, matchType) := classify originalTestId testId similarity in
          let confidence :=
            if type_matches expectedType (el_tag element)
            then Math_min (confidence0 + (1 # 10))%Q 1%Q
            else confidence0 in
          map (fun attr =>
                 {| cand_selector := "[" +:+ attr +:+ "=" +:+ quoted testId +:+ "]";
                    cand_testId := testId;
                    cand_confidence := confidence;
                    cand_matchType := matchType |})
              TEST_ID_ATTRIBUTES
        else []
  end.

Definition findCandidates (originalTestId : string) (elements : list ElementInfo)
           (expectedType : option string) : list candidate :=
  sort_desc cand_confidence
            (concat (map (element_candidates originalTestId expectedType) elements)).

Definition failure (brokenSelector : string) (alts : list string) (msg : string)
  : HealingResult :=
  {| success := false; selector := brokenSelector; confidence := 0%Q;
     strategy := name; alternatives := alts; error := Some msg; metadata := None |}.

Section Heal.
Variable w : World.

Definition getAllTestIdElements : M Log (outcome (list ElementInfo)) :=
  clock (evaluate_testIdElements w) (fun _ => EvEvaluate).

Definition heal (brokenSelector : string) (options : HealingStrategyOptions)
  : M Log HealingResult :=
  match extractTestId brokenSelector with
  | None => ret (failure brokenSelector [] "No test ID pattern found in selector")
  | Some extractedTestId =>
      let* elements := getAllTestIdElements in
      match elements with
      | Throw msg => ret (failure brokenSelector [] msg)
      | Ok elements =>
          let candidates :=
            findCandidates extractedTestId elements (expectedType options) in
          let* hit := first_existing w cand_selector candidates in
          match hit with
          | Some candidate =>
              ret {| success := true;
                     selector := cand_selector candidate;
                     confidence := cand_confidence candidate;
                     strategy := name;
                     alternatives :=
                       map cand_selector
                           (filter (fun c => cand_selector c ≠ cand_selector candidate)
                                   candidates);
                     error := None;
                     metadata := Some (MdTestId extractedTestId
                                                (cand_testId candidate)
                                                (cand_matchType candidate)) |}
          | None =>
              ret (failure brokenSelector (map cand_selector candidates)
                           "No matching test ID elements found on page")
          end
      end
  end.
End Heal.

End DataTestIdRecoveryStrategy.

(** ** Strategy: text content matching *)

Module TextContentMatchingStrategy.
Import Regex.

Definition name : HealingStrategy := text_content_matching.

Definition SIMILARITY_THRESHOLD : Q := (8 # 10)%Q.
Definition MAX_ELEMENTS : nat := 500.

Record candidate : Type := {
  cand_selector : string;
  cand_text : string;
  cand_confidence : Q
}.

Definition quoted_group : regex :=
  cats [Chr is_quote; Grp (Plus (fun c => negb (is_quote c))); Chr is_quote].

(** The five patterns of [extractTextContent], all with the [i] flag. *)
Definition patterns : list regex :=
  [ cats [lit_ci "text"; Chr (any_of "=~*"); quoted_group];
    cats [lit_ci ":has-text("; quoted_group; one ")"];
    cats [lit_ci "getByText("; quoted_group; one ")"];
    cats [lit_ci "contains("; Plus (none_of ","); one ","; Star JsString.is_space;
          quoted_group; one ")"];
    cats [Alt (lit_ci "innerText") (lit_ci "textContent"); Chr (any_of "=~");
          quoted_group] ].

Definition extractTextContent (selector : string) : option string :=
  option_map JsString.trim (first_group patterns selector).

Definition escapeSelector (text : string) : string :=
  let backslash := "\" in
  JsString.trim
    (replace_all (Plus JsString.is_space) " "
    (replace_all (one "009") " "
    (replace_all (one "013") " "
    (replace_all (one "010") " "
    (replace_all (one dquote) (backslash +:+ String dquote EmptyString)
    (replace_all (one "\") (backslash +:+ backslash) text)))))).

Definition generateTextSelectors (element : ElementInfo) (originalText : string)
  : list string :=
  let escapedText := escapeSelector (default EmptyString (el_text element)) in
  let escapedOriginal := escapeSelector originalText in
  [ "text=" +:+ quoted escapedText ]
  ++ (if String.eqb escapedText escapedOriginal then []
      else [ "text=" +:+ quoted escapedOriginal ])
  ++ [ ":has-text(" +:+ quoted escapedText +:+ ")" ]
  ++ (if String.eqb (el_tag element) "button" then
        [ "button:has-text(" +:+ quoted escapedText +:+ ")";
          "button >> text=" +:+ quoted escapedText ]
      else if String.eqb (el_tag element) "a" then
        [ "a:has-text(" +:+ quoted escapedText +:+ ")" ]
      else if String.eqb (el_tag element) "input"
              || String.eqb (el_tag element) "textarea" then
        match el_ariaLabel element with
        | Some label =>
            if JsString.nonempty label
            then [ "[aria-label=" +:+ quoted (escapeSelector label) +:+ "]" ]
            else []
        | None => []
        end
      else [])
  ++ match el_role element with
     | Some role =>
         if JsString.nonempty role
         then [ "[role=" +:+ quoted role +:+ "]:has-text(" +:+ quoted escapedText +:+ ")" ]
         else []
     | None => []
     end
  ++ [ "[title=" +:+ quoted escapedText +:+ "]" ]
  ++ [ "[aria-label=" +:+ quoted escapedText +:+ "]" ]
  ++ (if 20 <? String.length escapedText
      then [ "text*=" +:+ quoted (JsString.take 15 escapedText) ]
      else []).

(** One row of the matrix of [levenshteinSimilarity]: [c2] is
    [str2[j-1]], [prev] is [matrix[j-1]] from column [i-1] on and [left]
    is [matrix[j][i-1]]. *)
Fixpoint matrix_row (c2 : ascii) (s1 : string) (prev : list nat) (left : nat) : list nat :=
  match s1, prev with
  | String c1 s1', diag :: ((up :: _) as prev') =>
      let cost := if Ascii.eqb c1 c2 then 0 else 1 in
      let v := Nat.min (left + 1) (Nat.min (up + 1) (diag + cost)) in
      v :: matrix_row c2 s1' prev' v
  | _, _ => []
  end.

Fixpoint matrix_rows (s1 s2 : string) (j : nat) (prev : list nat) : list nat :=
  match s2 with
  | EmptyString => prev
  | String c2 s2' => matrix_rows s1 s2' (S j) (j :: matrix_row c2 s1 prev j)
  end.

Definition levenshteinSimilarity (str1 str2 : string) : Q :=
  let len1 := String.length str1 in
  let len2 := String.length str2 in
  if (len1 =? 0) || (len2 =? 0) then 0%Q
  else
    let distance := List.last (matrix_rows str1 str2 1 (seq 0 (S len1))) 0 in
    (1 - Qnat distance / Qnat (Nat.max len1 len2))%Q.

Definition words (text : string) : list string :=
  filter (fun w => 2 < String.length w) (split (Plus JsString.is_space) text).

Definition wordOverlapSimilarity (text1 text2 : string) : Q :=
  let words1 := words text1 in
  let words2 := words text2 in
  if (length words1 =? 0) || (length words2 =? 0) then 0%Q
  else
    let overlap := length (filter (fun w => w ∈ words2) (remove_dups words1)) in
    (Qnat overlap / Qnat (Nat.max (length words1) (length words2)))%Q.

Definition calculateTextSimilarity (text1 text2 : string) : Q :=
  let s1 := JsString.trim (JsString.toLowerCase text1) in
  let s2 := JsString.trim (JsString.toLowerCase text2) in
  if String.eqb s1 s2 then 1%Q
  else
    let (shorter, longer) :=
      if String.length s1 <? String.length s2 then (s1, s2) else (s2, s1) in
    if JsString.includes longer shorter then
      ((85 # 100) + (Qnat (String.length shorter) / Qnat (String.length longer)) * (15 # 100))%Q
    else if (String.length s1 - String.length s2 <? 10)
            && (String.length s2 - String.length s1 <? 10)
    then levenshteinSimilarity s1 s2
    else wordOverlapSimilarity s1 s2.

Definition element_candidates (originalText : string) (expectedType : option string)
           (element : ElementInfo) : list candidate :=
  match el_text element with
  | None => []
  | Some text =>
      if negb (JsString.nonempty text) then []
      else
        let similarity := calculateTextSimilarity originalText text in
        if Qle_bool SIMILARITY_THRESHOLD similarity then
          let confidence0 :=
            if String.eqb (JsString.toLowerCase text) (JsString.toLowerCase originalText)
            then (95 # 100)%Q
            else if String.eqb (JsString.toLowerCase (JsString.trim text))
                               (JsString.toLowerCase (JsString.trim originalText))
            then (92 # 100)%Q
            else similarity in
          let confidence :=
            if DataTestIdRecoveryStrategy.type_matches expectedType (el_tag element)
            then Math_min (confidence0 + (5 # 100))%Q 1%Q
            else confidence0 in
          map (fun selector =>
                 {| cand_selector := selector; cand_text := text;
                    cand_confidence := confidence |})
              (generateTextSelectors element originalText)
        else []
  end.

Definition findCandidates (originalText : string) (elements : list ElementInfo)
           (expectedType : option string) : list candidate :=
  firstn 10
    (sort_desc cand_confidence
               (concat (map (element_candidates originalText expectedType) elements))).

Definition failure (brokenSelector : string) (alts : list string) (msg : string)
  : HealingResult :=
  {| success := false; selector := brokenSelector; confidence := 0%Q;
     strategy := name; alternatives := alts; error := Some msg; metadata := None |}.

Section Heal.
Variable w : World.

Definition getAllTextElements (maxElements : nat) : M Log (outcome (list ElementInfo)) :=
  clock (fun t => evaluate_textElements w t maxElements) (fun _ => EvEvaluate).

Definition heal (brokenSelector : string) (options : HealingStrategyOptions)
  : M Log HealingResult :=
  match extractTextContent brokenSelector with
  | None => ret (failure brokenSelector [] "No text pattern found in selector")
  | Some extractedText =>
      if negb (JsString.nonempty extractedText)
      then ret (failure brokenSelector [] "No text pattern found in selector")
      else
        let* elements := getAllTextElements (nat_or (maxElements options) MAX_ELEMENTS) in
        match elements with
        | Throw msg => ret (failure brokenSelector [] msg)
        | Ok elements =>
            let candidates :=
              findCandidates extractedText elements (expectedType options) in
            let* hit := first_existing w cand_selector candidates in
            match hit with
            | Some candidate =>
                ret {| success := true;
                       selector := cand_selector candidate;
                       confidence := cand_confidence candidate;
                       strategy := name;
                       alternatives :=
                         map cand_selector
                             (filter (fun c => cand_selector c ≠ cand_selector candidate)
                                     candidates);
                       error := None;
                       metadata := Some (MdText extractedText (cand_text candidate)
                                                (cand_confidence candidate)) |}
            | None =>
                ret (failure brokenSelector (map cand_selector candidates)
                             "No matching text elements found on page")
            end
        end
  end.
End Heal.

End TextContentMatchingStrategy.

(** ** Strategy: CSS hierarchy analysis *)

Module CssHierarchyAnalysisStrategy.
Import Regex.

Definition name : HealingStrategy := css_hierarchy_analysis.

Record analysis : Type := {
  hasId : bool;
  ids : list string;
  hasClass : bool;
  classes : list string;
  hasElement : bool;
  elements : list string;
  hasAttribute : bool;
  attributes : list string;
  hasNthChild : bool;
  nthChildren : list string;
  parts : list string;
  depth : nat
}.

Record candidate : Type := {
  cand_selector : string;
  cand_confidence : Q;
  cand_reason : string
}.

(** [str.substring(1)] *)
Definition tail (s : string) : string :=
  match s with
  | EmptyString => EmptyString
  | String _ s' => s'
  end.

Definition id_pattern : regex := cats [one "#"; Plus ident_char].
Definition class_pattern : regex := cats [one "."; Plus ident_char].
(** [/^([a-z]+)|(?:\s)([a-z]+)/gi] *)
Definition element_pattern : regex :=
  Alt (cats [Bol; Plus JsString.is_alpha])
      (cats [Chr JsString.is_space; Plus JsString.is_alpha]).
Definition attribute_pattern : regex := cats [one "["; Plus (none_of "]"); one "]"].
Definition nth_child_pattern : regex :=
  cats [lit ":nth-child("; Plus JsString.is_digit; one ")"].

Definition analyzeSelector (selector : string) : analysis :=
  {| hasId := JsString.includes selector "#";
     ids := map (fun m => tail (fst m)) (all id_pattern selector);
     hasClass := JsString.includes selector ".";
     classes := map (fun m => tail (fst m)) (all class_pattern selector);
     hasElement := test (cats [Bol; Chr JsString.is_alpha]) selector;
     elements :=
       map (fun m => JsString.toLowerCase (JsString.trim (fst m)))
           (all element_pattern selector);
     hasAttribute := JsString.includes selector "[";
     attributes := map fst (all attribute_pattern selector);
     hasNthChild := JsString.includes selector ":nth-child";
     nthChildren := map fst (all nth_child_pattern selector);
     parts := split (Plus JsString.is_space) selector;
     depth := length (split (Plus JsString.is_space) selector) |}.

Definition alt (selector : string) (confidence : Q) (reason : string) : candidate :=
  {| cand_selector := selector; cand_confidence := confidence; cand_reason := reason |}.

Definition nonempty_parts (ps : list string) : list string :=
  filter (fun part => 0 < String.length part) ps.

(** [classes.map((cls) => `.${cls}`).join('')] *)
Definition classOnly (a : analysis) : string :=
  JsString.join EmptyString (map (fun cls => "." +:+ cls) (classes a)).

(** The alternatives in the order in which they are pushed. *)
Definition pushed (a : analysis) : list candidate :=
  (* Strategy 1: remove IDs *)
  (if hasId a && (1 <? length (parts a)) then
     let withoutIds :=
       JsString.join " "
         (nonempty_parts
            (map (fun part => JsString.trim (remove_all id_pattern part)) (parts a))) in
     if JsString.nonempty withoutIds then [alt withoutIds (7 # 10) "removed-ids"] else []
   else [])
  (* Strategy 2: remove nth-child *)
  ++ (if hasNthChild a then
        let withoutNth :=
          JsString.join " "
            (nonempty_parts (map (remove_all nth_child_pattern) (parts a))) in
        if JsString.nonempty withoutNth
        then [alt withoutNth (75 # 100) "removed-nth-child"] else []
      else [])
  (* Strategy 3: last two parts *)
  ++ (if 2 <? depth a then
        [alt (JsString.join " " (skipn (length (parts a) - 2) (parts a)))
             (65 # 100) "simplified-hierarchy"]
      else [])
  (* Strategy 4: classes only, then each class *)
  ++ (if hasClass a && (0 <? length (classes a)) then
        alt (classOnly a) (6 # 10) "class-only"
        :: map (fun cls => alt ("." +:+ cls) (55 # 100) "single-class") (classes a)
      else [])
  (* Strategy 5: last element with the classes *)
  ++ (if hasElement a && hasClass a && (0 <? length (elements a)) then
        [alt (List.last (elements a) EmptyString +:+ classOnly a)
             (68 # 100) "element-with-classes"]
      else [])
  (* Strategy 6: direct child *)
  ++ (if 1 <? length (parts a) then
        [alt (JsString.join " > " (parts a)) (58 # 100) "direct-child"]
      else [])
  (* Strategy 7: attributes only *)
  ++ (if hasAttribute a && (0 <? length (attributes a)) then
        map (fun attr => alt attr (72 # 100) "attribute-only") (attributes a)
      else [])
  (* Strategy 8: first element with first class *)
  ++ (match elements a, classes a with
      | element :: _, cls :: _ =>
          [alt (element +:+ "." +:+ cls) (62 # 100) "first-element-first-class"]
      | _, _ => []
      end)
  (* Strategy 9: last element only *)
  ++ (if 0 <? length (elements a) then
        [alt (List.last (elements a) EmptyString) (5 # 10) "last-element-only"]
      else [])
  (* Strategy 10: drop the last part *)
  ++ (if 1 <? length (parts a) then
        [alt (JsString.join " " (firstn (length (parts a) - 1) (parts a)))
             (45 # 100) "parent-element"]
      else []).

Definition generateAlternatives (a : analysis) : list candidate :=
  sort_desc cand_confidence (dedupe_by cand_selector [] (pushed a)).

Definition succeeded (brokenSelector : string) (best : candidate) (alts : list string)
  : HealingResult :=
  {| success := true;
     selector := cand_selector best;
     confidence := cand_confidence best;
     strategy := name;
     alternatives := alts;
     error := None;
     metadata := Some (MdCss brokenSelector (cand_reason best)) |}.

Section Heal.
Variable w : World.

(** The loop over the candidates: it returns from [heal] ([inl]) as soon
    as [validCandidates] has length 1, and otherwise ends with the
    [validCandidates] collected ([inr]). *)
Fixpoint test_candidates (rest validCandidates : list candidate)
  : M Log (candidate + list candidate) :=
  match rest with
  | [] => ret (inr validCandidates)
  | candidate :: rest' =>
      let* exists_ := checkSelectorExists w (cand_selector candidate) in
      if exists_ then
        let validCandidates' := validCandidates ++ [candidate] in
        if length validCandidates' =? 1 then ret (inl candidate)
        else test_candidates rest' validCandidates'
      else test_candidates rest' validCandidates
  end.

Definition heal (brokenSelector : string) : M Log HealingResult :=
  let candidates := generateAlternatives (analyzeSelector brokenSelector) in
  let* tested := test_candidates candidates [] in
  match tested with
  | inl candidate =>
      ret (succeeded brokenSelector candidate
             (map cand_selector
                  (filter (fun c => cand_selector c ≠ cand_selector candidate)
                          candidates)))
  | inr (best :: others) =>
      ret (succeeded brokenSelector best
             (map cand_selector others
              ++ map cand_selector
                   (filter (fun c => cand_selector c ∉
                                     map cand_selector (best :: others))
                           candidates)))
  | inr [] =>
      ret {| success := false; selector := brokenSelector; confidence := 0%Q;
             strategy := name; alternatives := map cand_selector candidates;
             error := Some "No CSS hierarchy alternatives found";
             metadata := None |}
  end.
End Heal.

End CssHierarchyAnalysisStrategy.

(** ** [validateUrl] ([utils.ts]) *)

Definition DEFAULT_ALLOWED_HOSTS : list string := ["localhost"; "127.0.0.1"].
Definition ALLOWED_PORTS : list string := ["80"; "443"; "8080"; "11434"].

(** [hostname === host || hostname.endsWith(`.${host}`)] *)
Definition host_allowed (hostname host : string) : bool :=
  String.eqb hostname host || JsString.endsWith hostname ("." +:+ host).

Definition validateUrl (w : World) (url : string) (allowedHosts : list string) : bool :=
  match new_URL w url with
  | None => false
  | Some urlObj =>
      let hostname := JsString.toLowerCase (hostname urlObj) in
      let isAllowed := existsb (host_allowed hostname) allowedHosts in
      if negb isAllowed then false
      else
        let port := port urlObj in
        if JsString.nonempty port && negb (bool_decide (port ∈ ALLOWED_PORTS)) then false
        else true
  end.

(** ** Strategy: AI-powered analysis *)

Module AiPoweredAnalysisStrategy.
Import Regex.

Definition name : HealingStrategy := ai_powered_analysis.

(** The private fields of the class. *)
Record t : Type := {
  ollamaUrl : string;
  model : string;
  timeout : Z
}.

(** The [options] of the constructor. *)
Record ctor_options : Type := {
  opt_ollamaUrl : option string;
  opt_model : option string;
  opt_timeout : option Z
}.

Definition constructor (w : World) (options : ctor_options) : outcome t :=
  let url := str_or (opt_ollamaUrl options) "http://localhost:11434" in
  if negb (validateUrl w url DEFAULT_ALLOWED_HOSTS) then
    Throw "Invalid Ollama URL. Only localhost and 127.0.0.1 are allowed for security."
  else
    Ok {| ollamaUrl := url;
          model := str_or (opt_model options) "qwen2.5-coder:3b";
          timeout := match opt_timeout options with
                     | Some 0%Z | None => 30000%Z
                     | Some ms => ms
                     end |}.

Record suggestion : Type := {
  sug_selector : string;
  sug_confidence : Q;
  sug_reasoning : option string
}.

Definition json_pattern : regex :=
  cats [one "{"; Star any_char; lit (quoted "suggestions"); Star any_char; one "}"].

Definition selectorPattern : regex :=
  cats [lit (quoted "selector"); Star JsString.is_space; one ":";
        Star JsString.is_space; one dquote;
        Grp (Plus (fun c => negb (Ascii.eqb c dquote))); one dquote].

Definition quoted_value : regex :=
  cats [Chr is_quote; Plus (fun c => negb (is_quote c)); Chr is_quote].

Definition shape_patterns : list regex :=
  [ cats [lit "[data-testid="; quoted_value; one "]"];
    cats [lit "[role="; quoted_value; one "]"];
    cats [lit "text="; quoted_value];
    cats [lit "button:has-text("; quoted_value; one ")"] ].

(** The items of [parsed.suggestions] that are pushed. *)
Definition from_item (item : AiItem) : list suggestion :=
  match item_selector item with
  | Some sel =>
      if JsString.nonempty sel then
        [ {| sug_selector := JsString.trim sel;
             sug_confidence :=
               match item_confidence item with
               | Some c => if Qeq_bool c 0 then (7 # 10)%Q else c
               | None => (7 # 10)%Q
               end;
             sug_reasoning := item_reasoning item |} ]
      else []
  | None => []
  end.

(** The loop [for (const item of parsed.suggestions)]: reading
    [item.selector] of a [null] entry throws, with the entries before it
    pushed.  The result is [suggestions] and whether the loop threw. *)
Fixpoint push_items (items : list (option AiItem)) (suggestions : list suggestion)
  : list suggestion * bool :=
  match items with
  | [] => (suggestions, false)
  | None :: _ => (suggestions, true)
  | Some item :: rest => push_items rest (suggestions ++ from_item item)
  end.

(** The [try] block with its empty [catch]: [suggestions] as they are when
    the block ends, or when [JSON.parse] or the loop throws, which skips the
    two fallbacks. *)
Definition collect (w : World) (response : string) : list suggestion :=
  let from_json :=
    match search json_pattern response with
    | Some (text, _) =>
        match JSON_parse w text with
        | ParseError => ([], true)
        | ParsedObject (Some items) => push_items items []
        | ParsedObject None => ([], false)
        end
    | None => ([], false)
    end in
  let (suggestions, thrown) := from_json in
  if thrown then suggestions
  else
    let suggestions :=
      if length suggestions =? 0 then
        map (fun m => {| sug_selector := JsString.trim (default EmptyString (snd m));
                         sug_confidence := (7 # 10)%Q;
                         sug_reasoning := None |})
            (all selectorPattern response)
      else suggestions in
    let suggestions :=
      if length suggestions =? 0 then
        concat (map (fun pattern =>
                       map (fun m => {| sug_selector := fst m;
                                        sug_confidence := (6 # 10)%Q;
                                        sug_reasoning := None |})
                           (all pattern response))
                    shape_patterns)
      else suggestions in
    suggestions.

Definition parseAiSuggestions (w : World) (response : string) : list suggestion :=
  firstn 5
    (sort_desc sug_confidence
       (dedupe_by sug_selector [] (collect w response))).

Definition failure (brokenSelector : string) (alts : list string) (msg : string)
           (md : option Metadata) : HealingResult :=
  {| success := false; selector := brokenSelector; confidence := 0%Q;
     strategy := name; alternatives := alts; error := Some msg; metadata := md |}.

Section Heal.
Variable w : World.
Variable self : t.

Definition checkOllamaAvailability : M Log bool :=
  clock (fun t => match fetch_tags w t (ollamaUrl self) with
                  | Ok ok => ok
                  | Throw _ => false
                  end)
        (fun _ => EvFetch (ollamaUrl self +:+ "/api/tags")).

Definition extractPageContext (maxElements : nat) : M Log (outcome PageContext) :=
  clock (fun t => evaluate_pageContext w t maxElements) (fun _ => EvEvaluate).

Definition buildPrompt (brokenSelector : string) (pageContext : PageContext)
           (expectedType : option string) : Prompt :=
  {| prompt_brokenSelector := brokenSelector;
     prompt_pageContext := pageContext;
     prompt_expectedType := expectedType |}.

Definition callOllama (prompt : Prompt) : M Log (outcome string) :=
  clock (fun t => fetch_generate w t (ollamaUrl self) (model self) (timeout self) prompt)
        (fun _ => EvFetch (ollamaUrl self +:+ "/api/generate")).

Definition heal (brokenSelector : string) (options : HealingStrategyOptions)
  : M Log HealingResult :=
  let* isAvailable := checkOllamaAvailability in
  if negb isAvailable then
    ret (failure brokenSelector []
                 "Ollama is not available. Please ensure Ollama is running." None)
  else
    let* pageContext := extractPageContext (nat_or (maxElements options) 50) in
    match pageContext with
    | Throw msg => ret (failure brokenSelector [] ("AI analysis failed: " +:+ msg) None)
    | Ok pageContext =>
        let prompt := buildPrompt brokenSelector pageContext (expectedType options) in
        let* aiResponse := callOllama prompt in
        match aiResponse with
        | Throw msg =>
            ret (failure brokenSelector [] ("AI analysis failed: " +:+ msg) None)
        | Ok aiResponse =>
            let suggestions := parseAiSuggestions w aiResponse in
            if length suggestions =? 0 then
              ret (failure brokenSelector [] "AI did not suggest any alternatives"
                           (Some (MdAiResponse aiResponse None)))
            else
              let* hit := first_existing w sug_selector suggestions in
              match hit with
              | Some suggestion =>
                  ret {| success := true;
                         selector := sug_selector suggestion;
                         confidence := sug_confidence suggestion;
                         strategy := name;
                         alternatives :=
                           map sug_selector
                               (filter (fun s => sug_selector s ≠ sug_selector suggestion)
                                       suggestions);
                         error := None;
                         metadata := Some (MdAiHealed (sug_reasoning suggestion)
                                                      (length suggestions)) |}
              | None =>
                  ret (failure brokenSelector (map sug_selector suggestions)
                         "None of the AI suggestions matched elements on the page"
                         (Some (MdAiResponse aiResponse (Some (length suggestions)))))
              end
        end
    end.
End Heal.

End AiPoweredAnalysisStrategy.

(** ** Configuration ([HealingConfig] and [mergeWithDefaults]) *)

Record OllamaConfig : Type := {
  url : option string;
  model : option string;
  timeout : option Z
}.

Record RetryConfig : Type := {
  onTimeout : option bool;
  onFlakiness : option bool;
  maxRetries : option Z;
  initialBackoff : option Z
}.

Inductive LogLevel : Type := debug | info | warn | error_level.

Record TelemetryConfig : Type := {
  telemetry_enabled : option bool;
  logLevel : option LogLevel
}.

(** [HealingConfig]: every field is optional. *)
Record HealingConfig : Type := {
  enabled : option bool;
  strategies : option (list HealingStrategy);
  maxAttempts : option nat;
  cacheHealing : option bool;
  ollama : option OllamaConfig;
  retry : option RetryConfig;
  telemetry : option TelemetryConfig
}.

Definition empty_config : HealingConfig :=
  {| enabled := None; strategies := None; maxAttempts := None; cacheHealing := None;
     ollama := None; retry := None; telemetry := None |}.

(** [Required<HealingConfig>], as [mergeWithDefaults] builds it. *)
Record Config : Type := {
  cfg_enabled : bool;
  cfg_strategies : list HealingStrategy;
  cfg_maxAttempts : nat;
  cfg_cacheHealing : bool;
  cfg_ollama_url : string;
  cfg_ollama_model : string;
  cfg_ollama_timeout : Z;
  cfg_retry_onTimeout : bool;
  cfg_retry_onFlakiness : bool;
  cfg_retry_maxRetries : Z;
  cfg_retry_initialBackoff : Z;
  cfg_telemetry_enabled : bool;
  cfg_telemetry_logLevel : LogLevel
}.

(** [config.a?.b ?? d] *)
Definition chain {A B : Type} (a : option A) (f : A -> option B) (d : B) : B :=
  default d (a ≫= f).

Definition mergeWithDefaults (config : HealingConfig) : Config :=
  {| cfg_enabled := default true (enabled config);
     cfg_strategies :=
       default [data_testid_recovery; text_content_matching;
                css_hierarchy_analysis; ai_powered_analysis]
               (strategies config);
     cfg_maxAttempts := default 3 (maxAttempts config);
     cfg_cacheHealing := default true (cacheHealing config);
     cfg_ollama_url := chain (ollama config) url "http://localhost:11434";
     cfg_ollama_model := chain (ollama config) model "qwen2.5-coder:3b";
     cfg_ollama_timeout := chain (ollama config) timeout 30000%Z;
     cfg_retry_onTimeout := chain (retry config) onTimeout true;
     cfg_retry_onFlakiness := chain (retry config) onFlakiness true;
     cfg_retry_maxRetries := chain (retry config) maxRetries 2%Z;
     cfg_retry_initialBackoff := chain (retry config) initialBackoff 1000%Z;
     cfg_telemetry_enabled := chain (telemetry config) telemetry_enabled true;
     cfg_telemetry_logLevel := chain (telemetry config) logLevel info |}.

(** ** The healing engine ([healer.ts]) *)

Record HealingCacheEntry : Type := {
  entry_original : string;
  entry_healed : string;
  entry_confidence : Q;
  entry_strategy : HealingStrategy;
  (** [new Date()], as the clock of the event log *)
  entry_timestamp : nat;
  entry_useCount : nat
}.

Record FlakinessCounters : Type := {
  successes : nat;
  failures : nat
}.

(** The strategy objects held in [this.strategies]. *)
Inductive Strategy : Type :=
| TestIdStrategy
| TextStrategy
| CssStrategy
| AiStrategy (self : AiPoweredAnalysisStrategy.t).

(** The fields of the class; [registry] is [this.strategies].  The [Map]s
    of strategies and of flakiness counters keep their insertion order (the
    second is read in that order by [getFlakinessStats]); the cache is only
    read by key. *)
Record HealingEngine : Type := {
  config : Config;
  registry : list (HealingStrategy * Strategy);
  cache : gmap string HealingCacheEntry;
  flakinessTracker : list (string * FlakinessCounters)
}.

(** [map.get(key)] and [map.set(key, value)] on an insertion-ordered [Map]. *)
Fixpoint assoc_get {K V : Type} `{EqDecision K} (key : K) (m : list (K * V)) : option V :=
  match m with
  | [] => None
  | (k, v) :: rest => if decide (k = key) then Some v else assoc_get key rest
  end.

Fixpoint assoc_set {K V : Type} `{EqDecision K} (key : K) (value : V) (m : list (K * V))
  : list (K * V) :=
  match m with
  | [] => [(key, value)]
  | (k, v) :: rest =>
      if decide (k = key) then (k, value) :: rest else (k, v) :: assoc_set key value rest
  end.

(** [initializeStrategies]: the AI strategy is constructed last and its
    constructor may throw. *)
Definition initializeStrategies (w : World) (c : Config)
  : outcome (list (HealingStrategy * Strategy)) :=
  let registry :=
    assoc_set css_hierarchy_analysis CssStrategy
      (assoc_set text_content_matching TextStrategy
         (assoc_set data_testid_recovery TestIdStrategy [])) in
  match AiPoweredAnalysisStrategy.constructor w
          {| AiPoweredAnalysisStrategy.opt_ollamaUrl := Some (cfg_ollama_url c);
             AiPoweredAnalysisStrategy.opt_model := Some (cfg_ollama_model c);
             AiPoweredAnalysisStrategy.opt_timeout := Some (cfg_ollama_timeout c) |} with
  | Throw msg => Throw msg
  | Ok ai => Ok (assoc_set ai_powered_analysis (AiStrategy ai) registry)
  end.

(** [new HealingEngine(config)] *)
Definition new_HealingEngine (w : World) (config : HealingConfig) : outcome HealingEngine :=
  let c := mergeWithDefaults config in
  match initializeStrategies w c with
  | Throw msg => Throw msg
  | Ok registry =>
      Ok {| config := c; registry := registry; cache := ∅; flakinessTracker := [] |}
  end.

Definition State : Type := HealingEngine * Log.

Definition with_log {A : Type} (m : M Log A) : M State A :=
  fun st => let (a, log') := m (snd st) in (a, (fst st, log')).

Definition get_engine : M State HealingEngine := fun st => (fst st, st).

Definition now : M State nat := fun st => (length (snd st), st).

Definition update_engine (f : HealingEngine -> HealingEngine) : M State unit :=
  fun st => (tt, (f (fst st), snd st)).

Definition set_cache (f : gmap string HealingCacheEntry -> gmap string HealingCacheEntry)
  : M State unit :=
  update_engine (fun e => {| config := config e; registry := registry e;
                             cache := f (cache e);
                             flakinessTracker := flakinessTracker e |}).

Definition set_tracker (f : list (string * FlakinessCounters) -> list (string * FlakinessCounters))
  : M State unit :=
  update_engine (fun e => {| config := config e; registry := registry e;
                             cache := cache e;
                             flakinessTracker := f (flakinessTracker e) |}).

Definition trackSuccess (selector : string) : M State unit :=
  set_tracker (fun tracker =>
    let stats := default {| successes := 0; failures := 0 |} (assoc_get selector tracker) in
    assoc_set selector {| successes := S (successes stats); failures := failures stats |}
              tracker).

Definition trackFailure (selector : string) : M State unit :=
  set_tracker (fun tracker =>
    let stats := default {| successes := 0; failures := 0 |} (assoc_get selector tracker) in
    assoc_set selector {| successes := successes stats; failures := S (failures stats) |}
              tracker).

Definition delay (ms : Z) : M State unit :=
  with_log (fun log => (tt, EvDelay ms :: log)).

(** [strategy.heal(page, brokenSelector, options)].  Each of the four
    classes catches what its body throws and returns a failure result, so
    the call itself does not throw. *)
Definition strategy_heal (w : World) (s : Strategy) (brokenSelector : string)
           (options : HealingStrategyOptions) : M Log HealingResult :=
  match s with
  | TestIdStrategy => DataTestIdRecoveryStrategy.heal w brokenSelector options
  | TextStrategy => TextContentMatchingStrategy.heal w brokenSelector options
  | CssStrategy => CssHierarchyAnalysisStrategy.heal w brokenSelector
  | AiStrategy self => AiPoweredAnalysisStrategy.heal w self brokenSelector options
  end.

Section Engine.
Variable w : World.

Definition disabled_result (brokenSelector : string) : HealingResult :=
  {| success := false; selector := brokenSelector; confidence := 0%Q;
     strategy := data_testid_recovery; alternatives := [];
     error := Some "Healing is disabled"; metadata := None |}.

Definition cached_result (cached : HealingCacheEntry) : HealingResult :=
  {| success := true; selector := entry_healed cached;
     confidence := entry_confidence cached; strategy := entry_strategy cached;
     alternatives := []; error := None;
     metadata := Some (MdCached (entry_useCount cached)) |}.

Definition no_healing_needed (brokenSelector : string) : HealingResult :=
  {| success := true; selector := brokenSelector; confidence := 1%Q;
     strategy := data_testid_recovery; alternatives := [];
     error := None; metadata := Some MdNoHealingNeeded |}.

Definition all_failed (brokenSelector : string) : HealingResult :=
  {| success := false; selector := brokenSelector; confidence := 0%Q;
     strategy := data_testid_recovery; alternatives := [];
     error := Some "All healing strategies failed"; metadata := None |}.

(** [cached.useCount++] *)
Definition used (cached : HealingCacheEntry) : HealingCacheEntry :=
  {| entry_original := entry_original cached; entry_healed := entry_healed cached;
     entry_confidence := entry_confidence cached;
     entry_strategy := entry_strategy cached;
     entry_timestamp := entry_timestamp cached;
     entry_useCount := S (entry_useCount cached) |}.

(** The cache check at the head of [heal]: [Some] is the result returned
    from there, [None] means that [heal] goes on. *)
Definition check_cache (brokenSelector : string) : M State (option HealingResult) :=
  let* e := get_engine in
  if cfg_cacheHealing (config e) then
    match cache e !! brokenSelector with
    | Some cached =>
        let cached := used cached in
        let* _ := set_cache (fun c => <[brokenSelector := cached]> c) in
        let* exists_ := with_log (checkSelectorExists w (entry_healed cached)) in
        if exists_ then ret (Some (cached_result cached))
        else
          let* _ := set_cache (fun c => delete brokenSelector c) in
          ret None
    | None => ret None
    end
  else ret None.

(** What [heal] does with a successful [result] of strategy [strategyName]. *)
Definition commit (brokenSelector : string) (strategyName : HealingStrategy)
           (result : HealingResult) : M State unit :=
  let* e := get_engine in
  let* t := now in
  let* _ :=
    if cfg_cacheHealing (config e) then
      set_cache (fun c =>
        <[brokenSelector :=
            {| entry_original := brokenSelector;
               entry_healed := selector result;
               entry_confidence := confidence result;
               entry_strategy := strategyName;
               entry_timestamp := t;
               entry_useCount := 1 |}]> c)
    else ret tt in
  trackSuccess (selector result).

(** The inner loop [for (const strategyName of strategies)]: [inl] is the
    result returned from [heal], [inr] is [lastResult] after the loop. *)
Fixpoint try_strategies (brokenSelector : string) (options : HealingStrategyOptions)
         (names : list HealingStrategy) (lastResult : option HealingResult)
  : M State (HealingResult + option HealingResult) :=
  match names with
  | [] => ret (inr lastResult)
  | strategyName :: rest =>
      let* e := get_engine in
      match assoc_get strategyName (registry e) with
      | None => try_strategies brokenSelector options rest lastResult
      | Some strategy =>
          let* _ := with_log (fun log => (tt, EvStrategy strategyName :: log)) in
          let* result := with_log (strategy_heal w strategy brokenSelector options) in
          if success result then
            let* _ := commit brokenSelector strategyName result in
            ret (inl result)
          else try_strategies brokenSelector options rest (Some result)
      end
  end.

(** The outer loop, at iteration [attempt] with [remaining] iterations left. *)
Fixpoint attempts (brokenSelector : string) (options : HealingStrategyOptions)
         (remaining attempt : nat) (lastResult : option HealingResult)
  : M State (HealingResult + option HealingResult) :=
  match remaining with
  | O => ret (inr lastResult)
  | S remaining' =>
      let* e := get_engine in
      let* tried :=
        try_strategies brokenSelector options (cfg_strategies (config e)) lastResult in
      match tried with
      | inl result => ret (inl result)
      | inr lastResult' =>
          let* _ :=
            if attempt + 1 <? cfg_maxAttempts (config e)
            then delay (1000 * (Z.of_nat attempt + 1))
            else ret tt in
          attempts brokenSelector options remaining' (S attempt) lastResult'
      end
  end.

Definition heal (brokenSelector : string) (options : HealingStrategyOptions)
  : M State HealingResult :=
  let* e := get_engine in
  if negb (cfg_enabled (config e)) then ret (disabled_result brokenSelector)
  else
    let* from_cache := check_cache brokenSelector in
    match from_cache with
    | Some result => ret result
    | None =>
        let* exists_ := with_log (checkSelectorExists w brokenSelector) in
        if exists_ then
          let* _ := trackSuccess brokenSelector in
          ret (no_healing_needed brokenSelector)
        else
          let* healed :=
            attempts brokenSelector options (cfg_maxAttempts (config e)) 0 None in
          match healed with
          | inl result => ret result
          | inr lastResult =>
              let* _ := trackFailure brokenSelector in
              ret (default (all_failed brokenSelector) lastResult)
          end
    end.

(** [healthCheck] *)
Inductive Status : Type := healthy | degraded | offline.

Record Health : Type := {
  status : Status;
  strategyHealth : list (HealingStrategy * bool);
  cache_size : nat;
  cache_entries : nat
}.

Definition healthCheck : M State Health :=
  let* e := get_engine in
  let* strategyHealth :=
    match assoc_get ai_powered_analysis (registry e) with
    | Some _ =>
        let base := str_or (Some (cfg_ollama_url (config e))) "http://localhost:11434" in
        let* ok := with_log (clock (fun t => match fetch_tags w t base with
                                             | Ok ok => ok
                                             | Throw _ => false
                                             end)
                                   (fun _ => EvFetch (base +:+ "/api/tags"))) in
        ret (assoc_set ai_powered_analysis ok [])
    | None => ret []
    end in
  let strategyHealth :=
    assoc_set css_hierarchy_analysis true
      (assoc_set text_content_matching true
         (assoc_set data_testid_recovery true strategyHealth)) in
  let allHealthy := forallb snd strategyHealth in
  let someHealthy := existsb snd strategyHealth in
  ret {| status := if allHealthy then healthy
                   else if someHealthy then degraded else offline;
         strategyHealth := strategyHealth;
         cache_size := size (cache e);
         cache_entries :=
           map_fold (fun _ entry sum => sum + entry_useCount entry) 0 (cache e) |}.

(** [getFlakinessStats] *)
Record FlakinessStat : Type := {
  stat_selector : string;
  stat_successes : nat;
  stat_failures : nat;
  flakinessScore : Q
}.

Definition stat_of (entry : string * FlakinessCounters) : list FlakinessStat :=
  let (selector, data) := entry in
  let total := successes data + failures data in
  let flakinessScore :=
    if 0 <? total then (Qnat (failures data) / Qnat total)%Q else 0%Q in
  if Qlt_bool 0 flakinessScore then
    [ {| stat_selector := selector; stat_successes := successes data;
         stat_failures := failures data; flakinessScore := flakinessScore |} ]
  else [].

Definition getFlakinessStats (e : HealingEngine) : list FlakinessStat :=
  sort_desc flakinessScore (concat (map stat_of (flakinessTracker e))).

(** [clearCache] *)
Definition clearCache : M State unit := set_cache (fun _ => ∅).

End Engine.

(** ** The retry handler ([retry-handler.ts]) *)

Module RetryHandler.

Record RetryOptions : Type := {
  opt_maxRetries : option Z;
  opt_initialBackoff : option Z;
  opt_maxBackoff : option Z
}.

Definition no_retry_options : RetryOptions :=
  {| opt_maxRetries := None; opt_initialBackoff := None; opt_maxBackoff := None |}.

(** What a run of [withRetry] does, in order: calls of [action] (with the
    value of [attempt]), calls of the [onRetry] callback, and sleeps. *)
Inductive RetryEvent : Type :=
| Called (attempt : nat)
| OnRetry (attempt : nat) (message : string)
| Slept (ms : Z).

Definition timeoutPatterns : list string :=
  ["timeout"; "timed out"; "waiting for selector"; "waiting for element";
   "exceeded timeout"].

Definition networkPatterns : list string :=
  ["net::err"; "network error"; "connection refused"; "econnrefused"; "socket hang up"].

Definition flakyPatterns : list string :=
  ["element is not visible"; "element is not attached"; "element is not stable";
   "intercepts pointer events"; "not actionable"].

Definition locatorPatterns : list string :=
  ["locator"; "selector"; "element not found"; "no element matches"; "could not find"].

(** [patterns.some((pattern) => errorMessage.includes(pattern))] *)
Definition some_included (patterns : list string) (errorMessage : string) : bool :=
  existsb (JsString.includes errorMessage) patterns.

Section Handler.
Variable config : Config.

(** [shouldRetry(error, attempt, maxRetries)], on the message of the error. *)
Definition shouldRetry (message : string) (attempt : nat) (maxRetries : Z) : bool :=
  if (maxRetries <=? Z.of_nat attempt)%Z then false
  else
    let errorMessage := JsString.toLowerCase message in
    if cfg_retry_onTimeout config && some_included timeoutPatterns errorMessage then true
    else if some_included networkPatterns errorMessage then true
    else if cfg_retry_onFlakiness config && some_included flakyPatterns errorMessage
    then true
    else false.

Definition isLocatorError (message : string) : bool :=
  some_included locatorPatterns (JsString.toLowerCase message).

Section WithRetry.
Context {T : Type}.
(** The outcome of the call of [action] made at each value of [attempt]. *)
Variable action : nat -> outcome T.
Variable maxRetries : Z.
Variable maxBackoff : Z.

(** The loop [for (attempt = 0; attempt <= maxRetries; attempt++)] with
    [iterations] iterations left to run. *)
Fixpoint retry_loop (iterations attempt : nat) (backoff : Z) (lastError : option string)
  : outcome T * list RetryEvent :=
  match iterations with
  | O => (Throw (default "Max retries exceeded" lastError), [])
  | S iterations' =>
      match action attempt with
      | Ok value => (Ok value, [Called attempt])
      | Throw message =>
          if negb (shouldRetry message attempt maxRetries)
          then (Throw message, [Called attempt])
          else
            let sleeps := (Z.of_nat attempt <? maxRetries)%Z in
            let backoff' := if sleeps then Z.min (backoff * 2) maxBackoff else backoff in
            let (result, events) :=
              retry_loop iterations' (S attempt) backoff' (Some message) in
            (result,
             Called attempt :: OnRetry (attempt + 1) message
               :: (if sleeps then [Slept backoff] else []) ++ events)
      end
  end.
End WithRetry.

Definition withRetry {T : Type} (action : nat -> outcome T) (options : RetryOptions)
  : outcome T * list RetryEvent :=
  let maxRetries := default (cfg_retry_maxRetries config) (opt_maxRetries options) in
  let initialBackoff :=
    default (cfg_retry_initialBackoff config) (opt_initialBackoff options) in
  let maxBackoff := default 10000%Z (opt_maxBackoff options) in
  retry_loop action maxRetries maxBackoff (Z.to_nat (maxRetries + 1)) 0 initialBackoff None.

End Handler.

End RetryHandler.

(** ** Vocabulary of the properties *)

Definition is_Ok {A : Type} (o : outcome A) : Prop :=
  match o with Ok _ => True | Throw _ => False end.

(** The condition that [validateUrl] tests on the parsed URL: the
    lower-cased [hostname] is an allowed host or ends with a dot and an
    allowed host, and the [port] that the URL reports is the empty string
    or allowed. *)
Definition url_accepted (u : URL) (allowedHosts : list string) : Prop :=
  (exists host, In host allowedHosts /\
     (JsString.toLowerCase (hostname u) = host \/
      exists sub, JsString.toLowerCase (hostname u) = sub +:+ "." +:+ host)) /\
  (port u = EmptyString \/ In (port u) ALLOWED_PORTS).

(** The outcome of the availability probe made at the start of [healthCheck]. *)
Definition llm_probe_ok (w : World) (e : HealingEngine) (log : Log) : bool :=
  match fetch_tags w (length log)
          (str_or (Some (cfg_ollama_url (config e))) "http://localhost:11434") with
  | Ok ok => ok
  | Throw _ => false
  end.

(** The candidate that a [contains] match emits for one attribute: its
    confidence is 0.80, or 0.90 with the bonus for the expected type. *)
Definition contains_candidate (expectedType : option string) (element : ElementInfo)
           (testId attr : string) : DataTestIdRecoveryStrategy.candidate :=
  {| DataTestIdRecoveryStrategy.cand_selector :=
       "[" +:+ attr +:+ "=" +:+ quoted testId +:+ "]";
     DataTestIdRecoveryStrategy.cand_testId := testId;
     DataTestIdRecoveryStrategy.cand_confidence :=
       if DataTestIdRecoveryStrategy.type_matches expectedType (el_tag element)
       then (90 # 100)%Q else (8 # 10)%Q;
     DataTestIdRecoveryStrategy.cand_matchType := "contains" |}.

(** A confidence within the unit interval. *)
Definition in_unit (q : Q) : Prop := (0 <= q <= 1)%Q.

(** [log'] continues [log]. *)
Definition extends (log log' : Log) : Prop := exists evs, log' = evs ++ log.

(** Between [log] and [log'] the driver was asked for [sel] and reported a
    count of at least 1: the event recorded at some time [t] not before
    [log] is a successful probe of [sel], and the count of the page at that
    time was positive. *)
Definition probed (w : World) (log log' : Log) (sel : string) : Prop :=
  exists t n,
    length log <= t /\
    rev log' !! t = Some (EvProbe sel true) /\
    locator_count w t sel = Ok n /\ 0 < n.

(** The contract of [strategy.heal]: the log is continued, the metadata is
    not that of the engine, and a success names a selector that was probed
    with success during the call. *)
Definition strategy_post (w : World) (log : Log) (r : HealingResult) (log' : Log) : Prop :=
  extends log log' /\
  metadata_cached r = false /\
  (success r = true -> probed w log log' (selector r)).

(** The entry that [heal] writes for a successful [result]. *)
Definition fresh_entry (brokenSelector : string) (strategyName : HealingStrategy)
           (result : HealingResult) (t : nat) : HealingCacheEntry :=
  {| entry_original := brokenSelector;
     entry_healed := selector result;
     entry_confidence := confidence result;
     entry_strategy := strategyName;
     entry_timestamp := t;
     entry_useCount := 1 |}.

(** A [lastResult] is a failure that no cache produced. *)
Definition failed_result (last : option HealingResult) : Prop :=
  forall r, last = Some r -> success r = false /\ metadata_cached r = false.

(** What the two loops of [heal] leave behind: either a returned success,
    validated during the loop and committed to the cache when caching is on,
    or an untouched cache and tracker and a failed [lastResult]. *)
Definition loop_post (w : World) (sel : string) (e : HealingEngine) (log : Log)
           (res : HealingResult + option HealingResult) (e' : HealingEngine) (log' : Log)
  : Prop :=
  extends log log' /\ config e' = config e /\ registry e' = registry e /\
  match res with
  | inl r =>
      success r = true /\ metadata_cached r = false /\
      probed w log log' (selector r) /\
      exists strategyName t,
        cache e' = (if cfg_cacheHealing (config e)
                    then <[sel := fresh_entry sel strategyName r t]> (cache e)
                    else cache e)
  | inr last =>
      cache e' = cache e /\ flakinessTracker e' = flakinessTracker e /\
      failed_result last
  end.

(** The paths through [heal]. *)
Inductive heal_path (w : World) (sel : string) (e : HealingEngine) (log : Log)
          (r : HealingResult) (e' : HealingEngine) (log' : Log) : Prop :=
| path_disabled :
    cfg_enabled (config e) = false -> r = disabled_result sel -> e' = e -> log' = log ->
    heal_path w sel e log r e' log'
| path_cached (cached : HealingCacheEntry) :
    cfg_enabled (config e) = true -> cfg_cacheHealing (config e) = true ->
    cache e !! sel = Some cached ->
    r = cached_result (used cached) ->
    cache e' = <[sel := used cached]> (cache e) ->
    log' = EvProbe (entry_healed cached) true :: log ->
    fst (checkSelectorExists w (entry_healed cached) log) = true ->
    probed w log log' (selector r) ->
    heal_path w sel e log r e' log'
| path_resolves (e1 : HealingEngine) (log1 : Log) :
    cfg_enabled (config e) = true ->
    check_cache w sel (e, log) = (None, (e1, log1)) ->
    r = no_healing_needed sel ->
    cache e' = cache e1 ->
    log' = EvProbe sel true :: log1 ->
    probed w log log' sel ->
    heal_path w sel e log r e' log'
| path_healed (e1 : HealingEngine) (log1 : Log) (strategyName : HealingStrategy) (t : nat) :
    cfg_enabled (config e) = true ->
    check_cache w sel (e, log) = (None, (e1, log1)) ->
    success r = true -> metadata_cached r = false ->
    probed w log log' (selector r) ->
    cache e' = (if cfg_cacheHealing (config e)
                then <[sel := fresh_entry sel strategyName r t]> (cache e1)
                else cache e1) ->
    heal_path w sel e log r e' log'
| path_failed (e1 : HealingEngine) (log1 : Log) :
    cfg_enabled (config e) = true ->
    check_cache w sel (e, log) = (None, (e1, log1)) ->
    success r = false -> metadata_cached r = false ->
    cache e' = cache e1 ->
    heal_path w sel e log r e' log'.

(** ** Scenarios: concrete pages and backends *)

Module Scenario.

(** [new URL(url)] on the endpoints of the scenarios. *)
Definition parse_url (url : string) : option URL :=
  if String.eqb url "http://localhost:11434"
  then Some {| hostname := "localhost"; port := "11434" |}
  else if String.eqb url "http://foo.localhost:11434"
  then Some {| hostname := "foo.localhost"; port := "11434" |}
  else if String.eqb url "http://example.com:11434"
  then Some {| hostname := "example.com"; port := "11434" |}
  else None.

(** A page given by the selectors that resolve on it, with no test-ID or
    text elements, and an LLM backend that answers [reply] when it is given. *)
Definition static_world (present : list string) (reply : option string)
           (parse : string -> Parsed) : World :=
  {| locator_count := fun _ sel => Ok (if bool_decide (sel ∈ present) then 1 else 0);
     evaluate_testIdElements := fun _ => Ok [];
     evaluate_textElements := fun _ _ => Ok [];
     evaluate_pageContext :=
       fun _ _ => Ok {| pc_url := "http://localhost:3000/"; pc_title := "Demo";
                        pc_elements := [] |};
     fetch_tags := fun _ _ => match reply with
                              | Some _ => Ok true
                              | None => Throw "fetch failed"
                              end;
     fetch_generate := fun _ _ _ _ _ => match reply with
                                        | Some text => Ok text
                                        | None => Throw "fetch failed"
                                        end;
     JSON_parse := parse;
     new_URL := parse_url |}.

(** Nothing resolves and the backend is down. *)
Definition blank_world : World := static_world [] None (fun _ => ParseError).

Definition with_endpoint (endpoint : string) : HealingConfig :=
  {| enabled := None; strategies := None; maxAttempts := None; cacheHealing := None;
     ollama := Some {| url := Some endpoint; model := None; timeout := None |};
     retry := None; telemetry := None |}.

(** The engine built from a configuration; when construction throws there
    is no engine, and this is one without strategies. *)
Definition engine (w : World) (c : HealingConfig) : HealingEngine :=
  match new_HealingEngine w c with
  | Ok e => e
  | Throw _ =>
      {| config := mergeWithDefaults c; registry := []; cache := ∅;
         flakinessTracker := [] |}
  end.

Definition element_with_testId (tag testId : string) : ElementInfo :=
  {| el_tag := tag; el_id := None; el_classes := []; el_text := None;
     el_testId := Some testId; el_role := None; el_ariaLabel := None;
     el_type := None; el_name := None; el_parent := None |}.

(** The broken selector of the CSS scenario, and a page whose only element
    is a button of class [submit-btn]. *)
Definition css_broken : string :=
  "div#app > main.content > section:nth-child(3) > button#submit".

Definition button_page : World :=
  static_world ["button"; ".submit-btn"; "button.submit-btn"] None (fun _ => ParseError).

(** A first call heals [css_broken] on [button_page]; then the page is
    replaced by a blank one and the same selector is healed again. *)
Definition first_heal : HealingResult * State :=
  heal button_page css_broken no_options (engine button_page empty_config, []).

Definition heal_after_drift : HealingResult * State :=
  heal blank_world css_broken no_options (snd first_heal).

(** A call that fails: nothing resolves on the blank page. *)
Definition failed_heal : HealingResult * State :=
  heal blank_world "#missing" no_options (engine blank_world empty_config, []).

(** An LLM that answers with a confidence of 5 for a selector that resolves. *)
Definition llm_reply : string :=
  "{" +:+ quoted "suggestions" +:+ ":[{" +:+ quoted "selector" +:+ ":"
  +:+ quoted "#new" +:+ "," +:+ quoted "confidence" +:+ ":5}]}".

Definition llm_parse (text : string) : Parsed :=
  if String.eqb text llm_reply
  then ParsedObject (Some [ Some {| item_selector := Some "#new";
                                    item_confidence := Some 5%Q;
                                    item_reasoning := None |} ])
  else ParseError.

Definition llm_world : World := static_world ["#new"] (Some llm_reply) llm_parse.

Definition llm_heal : HealingResult * State :=
  heal llm_world "#old" no_options (engine llm_world empty_config, []).

(** A page with one button that carries [data-cy], for a broken selector
    that asks for the same ID under [data-testid]. *)
Definition testid_broken : string := "[data-testid=" +:+ quoted "submit-btn-old" +:+ "]".

Definition testid_page : World :=
  {| locator_count :=
       fun _ sel => Ok (if String.eqb sel ("[data-cy=" +:+ quoted "submit-btn-old" +:+ "]")
                        then 1 else 0);
     evaluate_testIdElements := fun _ => Ok [element_with_testId "button" "submit-btn-old"];
     evaluate_textElements := fun _ _ => Ok [];
     evaluate_pageContext := fun _ _ => Throw "not used";
     fetch_tags := fun _ _ => Throw "fetch failed";
     fetch_generate := fun _ _ _ _ _ => Throw "fetch failed";
     JSON_parse := fun _ => ParseError;
     new_URL := parse_url |}.

End Scenario.

(** * Further operations and vocabulary *)

From Stdlib Require Import Sorted.

(** [l] is in descending order of [key]: every element has a key at least
    as large as that of every later element. *)
Definition descending {A : Type} (key : A -> Q) (l : list A) : Prop :=
  StronglySorted (fun a b => (key b <= key a)%Q) l.

(** The elements of [l] whose key equals [q], in the order of [l]. *)
Definition with_key {A : Type} (key : A -> Q) (q : Q) (l : list A) : list A :=
  List.filter (fun x => Qeq_bool (key x) q) l.

(** The probes of a run of candidates that do not resolve, newest first. *)
Definition absent_probes {C : Type} (sel : C -> string) (candidates : list C) : Log :=
  rev (map (fun c => EvProbe (sel c) false) candidates).

(** The counters after one more success, or one more failure, of a selector. *)
Definition count_success (selector : string) (tracker : list (string * FlakinessCounters))
  : list (string * FlakinessCounters) :=
  let stats := default {| successes := 0; failures := 0 |} (assoc_get selector tracker) in
  assoc_set selector {| successes := S (successes stats); failures := failures stats |}
            tracker.

Definition count_failure (selector : string) (tracker : list (string * FlakinessCounters))
  : list (string * FlakinessCounters) :=
  let stats := default {| successes := 0; failures := 0 |} (assoc_get selector tracker) in
  assoc_set selector {| successes := successes stats; failures := S (failures stats) |}
            tracker.

Definition with_tracker (e : HealingEngine) (tracker : list (string * FlakinessCounters))
  : HealingEngine :=
  {| config := config e; registry := registry e; cache := cache e;
     flakinessTracker := tracker |}.

Definition with_cache (e : HealingEngine) (c : gmap string HealingCacheEntry)
  : HealingEngine :=
  {| config := config e; registry := registry e; cache := c;
     flakinessTracker := flakinessTracker e |}.

(** The events by which the engine dispatches: invocations of strategies
    and the delays between rounds.  [dispatch_events] lists those of a piece
    of log in the order in which they happened. *)
Definition is_dispatch (ev : Event) : bool :=
  match ev with
  | EvStrategy _ | EvDelay _ => true
  | _ => false
  end.

Definition dispatch_events (evs : Log) : list Event := List.filter is_dispatch (rev evs).

(** The strategies of a list of names that the engine has registered. *)
Definition registered (e : HealingEngine) (names : list HealingStrategy)
  : list HealingStrategy :=
  List.filter (fun name => match assoc_get name (registry e) with
                          | Some _ => true
                          | None => false
                          end) names.

(** The dispatch of [remaining] rounds that all fail, from round [attempt]
    on: every strategy in turn, and a delay of [1000 * (attempt + 1)] ms
    after every round but the last of [maxAttempts]. *)
Fixpoint failed_rounds (names : list HealingStrategy) (maxAttempts attempt remaining : nat)
  : list Event :=
  match remaining with
  | O => []
  | S remaining' =>
      map EvStrategy names
      ++ (if attempt + 1 <? maxAttempts
          then [EvDelay (1000 * (Z.of_nat attempt + 1))] else [])
      ++ failed_rounds names maxAttempts (S attempt) remaining'
  end.

(** A computation on the log that records no dispatch event. *)
Definition quiet {A : Type} (m : M Log A) : Prop :=
  forall log, exists evs, snd (m log) = evs ++ log /\ dispatch_events evs = [].

(** A result that reports a failure on [sel]. *)
Definition failure_of (sel : string) (r : HealingResult) : Prop :=
  success r = false /\ selector r = sel /\ confidence r = 0%Q /\
  metadata_cached r = false.

(** What a call of [heal] did, path by path: the result, the engine and
    the events it leaves.  [names] are the configured strategies that are
    registered and [k] is the number of rounds that failed before the
    strategy [name] healed. *)
Inductive heal_trace (w : World) (sel : string) (e : HealingEngine) (log : Log)
          (r : HealingResult) (e' : HealingEngine) (log' : Log) : Prop :=
| trace_disabled :
    cfg_enabled (config e) = false ->
    r = disabled_result sel -> e' = e -> log' = log ->
    heal_trace w sel e log r e' log'
| trace_cached (cached : HealingCacheEntry) :
    cfg_enabled (config e) = true -> cfg_cacheHealing (config e) = true ->
    cache e !! sel = Some cached ->
    resolves_at w (length log) (entry_healed cached) = true ->
    r = cached_result (used cached) ->
    e' = with_cache e (<[sel := used cached]> (cache e)) ->
    log' = EvProbe (entry_healed cached) true :: log ->
    heal_trace w sel e log r e' log'
| trace_resolves (e1 : HealingEngine) (log1 : Log) :
    cfg_enabled (config e) = true ->
    check_cache w sel (e, log) = (None, (e1, log1)) ->
    resolves_at w (length log1) sel = true ->
    r = no_healing_needed sel ->
    e' = with_tracker e1 (count_success sel (flakinessTracker e1)) ->
    log' = EvProbe sel true :: log1 ->
    heal_trace w sel e log r e' log'
| trace_healed (e1 : HealingEngine) (log1 evs : Log) (k : nat)
               (pre : list HealingStrategy) (name : HealingStrategy)
               (post : list HealingStrategy) (t : nat) :
    cfg_enabled (config e) = true ->
    check_cache w sel (e, log) = (None, (e1, log1)) ->
    resolves_at w (length log1) sel = false ->
    success r = true -> metadata_cached r = false ->
    log' = evs ++ EvProbe sel false :: log1 ->
    k < cfg_maxAttempts (config e) ->
    registered e (cfg_strategies (config e)) = pre ++ name :: post ->
    dispatch_events evs
    = failed_rounds (registered e (cfg_strategies (config e)))
                    (cfg_maxAttempts (config e)) 0 k
      ++ map EvStrategy (pre ++ [name]) ->
    e' = with_tracker
           (with_cache e1 (if cfg_cacheHealing (config e)
                           then <[sel := fresh_entry sel name r t]> (cache e1)
                           else cache e1))
           (count_success (selector r) (flakinessTracker e1)) ->
    heal_trace w sel e log r e' log'
| trace_failed (e1 : HealingEngine) (log1 evs : Log) :
    cfg_enabled (config e) = true ->
    check_cache w sel (e, log) = (None, (e1, log1)) ->
    resolves_at w (length log1) sel = false ->
    failure_of sel r ->
    log' = evs ++ EvProbe sel false :: log1 ->
    dispatch_events evs
    = failed_rounds (registered e (cfg_strategies (config e)))
                    (cfg_maxAttempts (config e)) 0 (cfg_maxAttempts (config e)) ->
    e' = with_tracker e1 (count_failure sel (flakinessTracker e1)) ->
    heal_trace w sel e log r e' log'.

(** The counters of a selector, as [trackSuccess] and [trackFailure] read
    them: zero when the selector has none. *)
Definition counters (tracker : list (string * FlakinessCounters)) (sel : string)
  : FlakinessCounters :=
  default {| successes := 0; failures := 0 |} (assoc_get sel tracker).

(** [after] is [before] with [ds] more successes and [df] more failures of
    [sel], and with the counters of every other selector as they were. *)
Definition counted (before after : list (string * FlakinessCounters)) (sel : string)
           (ds df : nat) : Prop :=
  assoc_get sel after
  = Some {| successes := successes (counters before sel) + ds;
            failures := failures (counters before sel) + df |} /\
  forall other, other <> sel -> assoc_get other after = assoc_get other before.

(** The strategies invoked and the delays waited, in order, among a list
    of events. *)
Definition invocations_of (evs : list Event) : list HealingStrategy :=
  flat_map (fun ev => match ev with EvStrategy name => [name] | _ => [] end) evs.

Definition delays_of (evs : list Event) : list Z :=
  flat_map (fun ev => match ev with EvDelay ms => [ms] | _ => [] end) evs.

(** ** Vocabulary for [withRetry] *)

(** The message of the error that a call threw. *)
Definition thrown {T : Type} (o : outcome T) : string :=
  match o with
  | Throw message => message
  | Ok _ => EmptyString
  end.

(** What [n] failed calls that are retried leave behind, from the call at
    [attempt] on, when the next sleep takes [backoff] ms: the call, the
    callback and the sleep, with the sleep doubled up to [maxBackoff] from
    one retry to the next. *)
Fixpoint retries {T : Type} (action : nat -> outcome T) (maxBackoff : Z)
         (attempt : nat) (backoff : Z) (n : nat) : list RetryHandler.RetryEvent :=
  match n with
  | O => []
  | S n' =>
      RetryHandler.Called attempt
        :: RetryHandler.OnRetry (attempt + 1) (thrown (action attempt))
        :: RetryHandler.Slept backoff
        :: retries action maxBackoff (S attempt) (Z.min (backoff * 2) maxBackoff) n'
  end.

Definition sleeps_of (events : list RetryHandler.RetryEvent) : list Z :=
  flat_map (fun ev => match ev with RetryHandler.Slept ms => [ms] | _ => [] end) events.

Definition calls_of (events : list RetryHandler.RetryEvent) : list nat :=
  flat_map (fun ev => match ev with RetryHandler.Called k => [k] | _ => [] end) events.

(** ** [updateConfig] ([healer.ts]) *)

(** A [Partial<HealingConfig>] as the object spread reads it: a property
    is absent ([None]) or present, with a value that may be [undefined]
    ([Some None]). *)
Record ConfigUpdate : Type := {
  upd_enabled : option (option bool);
  upd_strategies : option (option (list HealingStrategy));
  upd_maxAttempts : option (option nat);
  upd_cacheHealing : option (option bool);
  upd_ollama : option (option OllamaConfig);
  upd_retry : option (option RetryConfig);
  upd_telemetry : option (option TelemetryConfig)
}.

Definition no_update : ConfigUpdate :=
  {| upd_enabled := None; upd_strategies := None; upd_maxAttempts := None;
     upd_cacheHealing := None; upd_ollama := None; upd_retry := None;
     upd_telemetry := None |}.

(** [{ ...this.config, ...config }]: a property of [config] that is present
    replaces that of [this.config], whole. *)
Definition spread (c : Config) (u : ConfigUpdate) : HealingConfig :=
  {| enabled := default (Some (cfg_enabled c)) (upd_enabled u);
     strategies := default (Some (cfg_strategies c)) (upd_strategies u);
     maxAttempts := default (Some (cfg_maxAttempts c)) (upd_maxAttempts u);
     cacheHealing := default (Some (cfg_cacheHealing c)) (upd_cacheHealing u);
     ollama :=
       default (Some {| url := Some (cfg_ollama_url c);
                        model := Some (cfg_ollama_model c);
                        timeout := Some (cfg_ollama_timeout c) |})
               (upd_ollama u);
     retry :=
       default (Some {| onTimeout := Some (cfg_retry_onTimeout c);
                        onFlakiness := Some (cfg_retry_onFlakiness c);
                        maxRetries := Some (cfg_retry_maxRetries c);
                        initialBackoff := Some (cfg_retry_initialBackoff c) |})
               (upd_retry u);
     telemetry :=
       default (Some {| telemetry_enabled := Some (cfg_telemetry_enabled c);
                        logLevel := Some (cfg_telemetry_logLevel c) |})
               (upd_telemetry u) |}.

(** The three strategies that [initializeStrategies] sets before it
    constructs the AI strategy. *)
Definition local_strategies : list (HealingStrategy * Strategy) :=
  assoc_set css_hierarchy_analysis CssStrategy
    (assoc_set text_content_matching TextStrategy
       (assoc_set data_testid_recovery TestIdStrategy [])).

(** [updateConfig(config)]: the configuration is replaced, then
    [initializeStrategies] clears the strategies and sets them again; when
    the constructor of the AI strategy throws, the error leaves
    [updateConfig] with the engine as it is at that point. *)
Definition updateConfig (w : World) (u : ConfigUpdate) (e : HealingEngine)
  : outcome unit * HealingEngine :=
  let c := mergeWithDefaults (spread (config e) u) in
  match AiPoweredAnalysisStrategy.constructor w
          {| AiPoweredAnalysisStrategy.opt_ollamaUrl := Some (cfg_ollama_url c);
             AiPoweredAnalysisStrategy.opt_model := Some (cfg_ollama_model c);
             AiPoweredAnalysisStrategy.opt_timeout := Some (cfg_ollama_timeout c) |} with
  | Throw msg =>
      (Throw msg,
       {| config := c; registry := local_strategies; cache := cache e;
          flakinessTracker := flakinessTracker e |})
  | Ok ai =>
      (Ok tt,
       {| config := c;
          registry := assoc_set ai_powered_analysis (AiStrategy ai) local_strategies;
          cache := cache e; flakinessTracker := flakinessTracker e |})
  end.

(** ** [executeWithHealing] ([retry-handler.ts]) *)

Section ExecuteWithHealing.
Variable w : World.
Variable config : Config.
Context {T : Type}.
(** [action(page.locator(sel))]: its outcome for a selector at a time. *)
Variable act : nat -> string -> outcome T.

(** The handler's engine and its log, with the selectors that the action
    was run on, newest first.  The time of a call of the action is the
    number of events and of calls before it. *)
Definition ActState : Type := State * list string.

Definition act_time (st : ActState) : nat := length (snd (fst st)) + length (snd st).

(** The closure that [executeWithHealing] hands to [withRetry]. *)
Definition healing_action (sel : string) (st : ActState) : outcome T * ActState :=
  match act (act_time st) sel with
  | Ok value => (Ok value, (fst st, sel :: snd st))
  | Throw message =>
      if RetryHandler.isLocatorError message then
        let (healingResult, engine') := heal w sel no_options (fst st) in
        if success healingResult then
          let st' := (engine', sel :: snd st) in
          (act (act_time st') (selector healingResult),
           (engine', selector healingResult :: sel :: snd st))
        else (Throw message, (engine', sel :: snd st))
      else (Throw message, (fst st, sel :: snd st))
  end.

(** The state in which the call of attempt [k] is made: the one that the
    calls before it have left. *)
Fixpoint state_at (sel : string) (k : nat) (st : ActState) : ActState :=
  match k with
  | O => st
  | S k' => snd (healing_action sel (state_at sel k' st))
  end.

Definition executeWithHealing (sel : string) (options : RetryHandler.RetryOptions)
           (st : ActState) : (outcome T * list RetryHandler.RetryEvent) * ActState :=
  let run :=
    RetryHandler.withRetry config
      (fun attempt => fst (healing_action sel (state_at sel attempt st)))
      options in
  (run, state_at sel (length (calls_of (snd run))) st).
End ExecuteWithHealing.

(** ** Vocabulary for the Levenshtein matrix *)

(** The cells of a row of the matrix, row [i] from column [j] on, lie
    within the bounds of an edit distance between a prefix of length [i] and
    one of length [j]: at most the longer length, at least the difference. *)
Fixpoint within (i j : nat) (row : list nat) : Prop :=
  match row with
  | [] => True
  | x :: row' => (x <= Nat.max i j /\ i <= x + j /\ j <= x + i) /\ within i (S j) row'
  end.

(** ** The page wrapper ([page-wrapper.ts]) *)

(** The fields of [HealingPage]: the engine with its log, the map
    [healingAttempts] in insertion order, and the selectors that the wrapper
    has waited for, newest first.  The time of a wait is the number of events
    and of waits before it. *)
Record HealingPage : Type := {
  page_engine : State;
  healingAttempts : list (string * nat);
  waited : list string
}.

Definition page_time (p : HealingPage) : nat :=
  length (snd (page_engine p)) + length (waited p).

(** [trackHealing(original, healed)] *)
Definition trackHealing (original healed : string) (attempts : list (string * nat))
  : list (string * nat) :=
  let key := original +:+ " -> " +:+ healed in
  let count := default 0 (assoc_get key attempts) in
  assoc_set key (count + 1) attempts.

Section PageWrapper.
Variable w : World.
(** [locator.first().waitFor({ state: 'attached', timeout })] and
    [page.waitForSelector(selector, options)], at a time: the element turned
    up, or the error that the driver throws. *)
Variable waitFor : nat -> string -> Z -> outcome unit.
Context {H : Type}.
Variable page_waitForSelector : nat -> string -> outcome H.

(** [options?.timeout || 5000] *)
Definition timeout_or (timeout : option Z) : Z :=
  match timeout with
  | Some 0%Z | None => 5000%Z
  | Some ms => ms
  end.

(** [HealingPage.locator(selector, options)]; the locator it returns is
    given by the selector that it is bound to. *)
Definition locator (sel : string) (timeout : option Z) (p : HealingPage)
  : outcome string * HealingPage :=
  match waitFor (page_time p) sel (timeout_or timeout) with
  | Ok _ =>
      (Ok sel, {| page_engine := page_engine p; healingAttempts := healingAttempts p;
                  waited := sel :: waited p |})
  | Throw error =>
      let (healingResult, engine') := heal w sel no_options (page_engine p) in
      if success healingResult then
        (Ok (selector healingResult),
         {| page_engine := engine';
            healingAttempts :=
              trackHealing sel (selector healingResult) (healingAttempts p);
            waited := sel :: waited p |})
      else
        (Throw error,
         {| page_engine := engine'; healingAttempts := healingAttempts p;
            waited := sel :: waited p |})
  end.

(** [HealingPage.waitForSelector(selector, options)] *)
Definition waitForSelector (sel : string) (p : HealingPage) : outcome H * HealingPage :=
  match page_waitForSelector (page_time p) sel with
  | Ok handle =>
      (Ok handle, {| page_engine := page_engine p; healingAttempts := healingAttempts p;
                     waited := sel :: waited p |})
  | Throw error =>
      let (healingResult, engine') := heal w sel no_options (page_engine p) in
      if success healingResult then
        let p' := {| page_engine := engine';
                     healingAttempts :=
                       trackHealing sel (selector healingResult) (healingAttempts p);
                     waited := sel :: waited p |} in
        (page_waitForSelector (page_time p') (selector healingResult),
         {| page_engine := engine'; healingAttempts := healingAttempts p';
            waited := selector healingResult :: waited p' |})
      else
        (Throw error,
         {| page_engine := engine'; healingAttempts := healingAttempts p;
            waited := sel :: waited p |})
  end.

(** [getHealingStats()] *)
Definition getHealingStats (p : HealingPage) : list (string * nat) * list FlakinessStat :=
  (healingAttempts p, getFlakinessStats (fst (page_engine p))).

(** [clearHealingCache()] *)
Definition clearHealingCache (p : HealingPage) : HealingPage :=
  {| page_engine := snd (clearCache (page_engine p)); healingAttempts := [];
     waited := waited p |}.
End PageWrapper.

(** The URLs fetched, in order, among a list of events. *)
Definition fetches_of (evs : list Event) : list string :=
  flat_map (fun ev => match ev with EvFetch url => [url] | _ => [] end) evs.

(** Every entry of the cache is filed under the selector it was made for
    and has been used at least once. *)
Definition cache_well_formed (e : HealingEngine) : Prop :=
  forall key entry,
    cache e !! key = Some entry ->
    entry_original entry = key /\ 1 <= entry_useCount entry.

(** ** Configuration loading ([healing-config.ts]) *)

Definition getDefaultConfig : HealingConfig :=
  {| enabled := Some true;
     strategies := Some [data_testid_recovery; text_content_matching;
                         css_hierarchy_analysis; ai_powered_analysis];
     maxAttempts := Some 3;
     cacheHealing := Some true;
     ollama := Some {| url := Some "http://localhost:11434";
                       model := Some "qwen2.5-coder:3b";
                       timeout := Some 30000%Z |};
     retry := Some {| onTimeout := Some true; onFlakiness := Some true;
                      maxRetries := Some 2%Z; initialBackoff := Some 1000%Z |};
     telemetry := Some {| telemetry_enabled := Some true; logLevel := Some info |} |}.

(** [override ?? base ?? d] *)
Definition or_else {A : Type} (override base : option A) (d : A) : A :=
  default (default d base) override.

(** [mergeConfigs(base, override)] *)
Definition mergeConfigs (base override : HealingConfig) : HealingConfig :=
  {| enabled := Some (or_else (enabled override) (enabled base) true);
     strategies := Some (or_else (strategies override) (strategies base) []);
     maxAttempts := Some (or_else (maxAttempts override) (maxAttempts base) 3);
     cacheHealing := Some (or_else (cacheHealing override) (cacheHealing base) true);
     ollama :=
       Some {| url := Some (or_else (ollama override ≫= url) (ollama base ≫= url)
                                    "http://localhost:11434");
               model := Some (or_else (ollama override ≫= model) (ollama base ≫= model)
                                      "qwen2.5-coder:3b");
               timeout := Some (or_else (ollama override ≫= timeout)
                                        (ollama base ≫= timeout) 30000%Z) |};
     retry :=
       Some {| onTimeout := Some (or_else (retry override ≫= onTimeout)
                                          (retry base ≫= onTimeout) true);
               onFlakiness := Some (or_else (retry override ≫= onFlakiness)
                                            (retry base ≫= onFlakiness) true);
               maxRetries := Some (or_else (retry override ≫= maxRetries)
                                           (retry base ≫= maxRetries) 2%Z);
               initialBackoff := Some (or_else (retry override ≫= initialBackoff)
                                               (retry base ≫= initialBackoff) 1000%Z) |};
     telemetry :=
       Some {| telemetry_enabled :=
                 Some (or_else (telemetry override ≫= telemetry_enabled)
                               (telemetry base ≫= telemetry_enabled) true);
               logLevel := Some (or_else (telemetry override ≫= logLevel)
                                         (telemetry base ≫= logLevel) info) |} |}.

(** [loadHealingConfig(overrides)], given what [loadConfigFile()] and
    [loadFromEnvironment()] return. *)
Definition loadHealingConfig (fileConfig : option HealingConfig)
           (envConfig overrides : HealingConfig) : HealingConfig :=
  let config := getDefaultConfig in
  let config := match fileConfig with
                | Some fileConfig => mergeConfigs config fileConfig
                | None => config
                end in
  let config := mergeConfigs config envConfig in
  mergeConfigs config overrides.

(** The first value that is defined in a list of layers, or the default. *)
Fixpoint first_of {A : Type} (layers : list (option A)) (d : A) : A :=
  match layers with
  | [] => d
  | Some x :: _ => x
  | None :: rest => first_of rest d
  end.

(** ** A backend addressed with another scheme *)

(** [new URL(url)] on two more endpoints: [URL.port] is the empty string
    for the default port of the scheme, and the port otherwise. *)
Definition parse_url_with_port (url : string) : option URL :=
  if String.eqb url "ftp://localhost:21"
  then Some {| hostname := "localhost"; port := EmptyString |}
  else if String.eqb url "http://localhost:9999"
  then Some {| hostname := "localhost"; port := "9999" |}
  else Scenario.parse_url url.

Definition scheme_world : World :=
  {| locator_count := locator_count Scenario.blank_world;
     evaluate_testIdElements := evaluate_testIdElements Scenario.blank_world;
     evaluate_textElements := evaluate_textElements Scenario.blank_world;
     evaluate_pageContext := evaluate_pageContext Scenario.blank_world;
     fetch_tags := fetch_tags Scenario.blank_world;
     fetch_generate := fetch_generate Scenario.blank_world;
     JSON_parse := JSON_parse Scenario.blank_world;
     new_URL := parse_url_with_port |}.

(** ** A reply with a [null] suggestion *)

(** A backend whose reply lists [#a], then [null], then [#b]. *)
Definition null_item_reply : string :=
  "{" +:+ quoted "suggestions" +:+ ":[{" +:+ quoted "selector" +:+ ":"
  +:+ quoted "#a" +:+ "},null,{" +:+ quoted "selector" +:+ ":" +:+ quoted "#b" +:+ "}]}".

Definition null_item_parse (text : string) : Parsed :=
  if String.eqb text null_item_reply
  then ParsedObject
         (Some [ Some {| item_selector := Some "#a"; item_confidence := None;
                         item_reasoning := None |};
                 None;
                 Some {| item_selector := Some "#b"; item_confidence := None;
                         item_reasoning := None |} ])
  else ParseError.

Definition null_item_world : World :=
  Scenario.static_world ["#a"; "#b"] (Some null_item_reply) null_item_parse.

(** * Properties *)

(** ** The primitives on small inputs *)

Example regex_search_first :
  Regex.search (Regex.Cat (Regex.lit "a") (Regex.Grp (Regex.Plus JsString.is_digit))) "xa12a3"
  = Some ("a12", Some "12").
Proof. reflexivity. Qed.

Example regex_split_ws :
  Regex.split (Regex.Plus JsString.is_space) " a  b " = [""; "a"; "b"; ""].
Proof. reflexivity. Qed.

Example regex_split_empty : Regex.split (Regex.Plus JsString.is_space) "" = [""].
Proof. reflexivity. Qed.

Example testid_extract :
  DataTestIdRecoveryStrategy.extractTestId ("[data-testid=" +:+ quoted "submit-btn-old" +:+ "]")
  = Some "submit-btn-old".
Proof. reflexivity. Qed.

Example testid_similarity_kitten :
  DataTestIdRecoveryStrategy.distance "kitten" "sitting" = 3.
Proof. reflexivity. Qed.

Example text_extract :
  TextContentMatchingStrategy.extractTextContent ("text=" +:+ quoted "Submit Form")
  = Some "Submit Form".
Proof. reflexivity. Qed.

Example text_escape :
  TextContentMatchingStrategy.escapeSelector "  a   b\c " = "a b\\c".
Proof. reflexivity. Qed.

Example css_parts :
  CssHierarchyAnalysisStrategy.parts
    (CssHierarchyAnalysisStrategy.analyzeSelector "div#app > main.content")
  = ["div#app"; ">"; "main.content"].
Proof. reflexivity. Qed.

Example css_elements :
  CssHierarchyAnalysisStrategy.elements
    (CssHierarchyAnalysisStrategy.analyzeSelector "div#app > main.content Ul")
  = ["div"; "main"; "ul"].
Proof. reflexivity. Qed.

(** ** The string primitives *)

Lemma startsWith_spec (p s : string) :
  JsString.startsWith p s = true <-> exists r, s = p +:+ r.
Proof.
  revert s. induction p as [|a p IH]; intros s.
  - split; [intros _; now exists s|reflexivity].
  - destruct s as [|b s]; cbn [JsString.startsWith].
    + split; [discriminate|intros (r & H); discriminate].
    + destruct (Ascii.eqb_spec a b) as [->|Hne].
      * rewrite IH. split; intros (r & H); exists r.
        -- now rewrite H.
        -- now injection H.
      * split; [discriminate|]. intros (r & H). injection H as H _. congruence.
Qed.

(** [includes] is the substring relation. *)
Lemma includes_spec (s sub : string) :
  JsString.includes s sub = true <-> exists a b, s = a +:+ sub +:+ b.
Proof.
  induction s as [|c s IH]; cbn [JsString.includes]; rewrite orb_true_iff, startsWith_spec.
  - split.
    + intros [(r & H)|H]; [|discriminate]. now exists EmptyString, r.
    + intros (a & b & H). left. destruct a; [now exists b|discriminate].
  - rewrite IH. split.
    + intros [(r & H)|(a & b & H)].
      * now exists EmptyString, r.
      * exists (String c a), b. now rewrite H.
    + intros (a & b & H). destruct a as [|c' a].
      * left. now exists b.
      * right. exists a, b. now injection H.
Qed.

Lemma append_cons (x : ascii) (a b : string) : String x a +:+ b = String x (a +:+ b).
Proof. reflexivity. Qed.

Lemma append_assoc (a b c : string) : (a +:+ b) +:+ c = a +:+ (b +:+ c).
Proof.
  induction a as [|x a IH]; [reflexivity|]. rewrite !append_cons. now rewrite IH.
Qed.

Lemma append_nil_r (a : string) : a +:+ EmptyString = a.
Proof.
  induction a as [|x a IH]; [reflexivity|]. rewrite append_cons. now rewrite IH.
Qed.

Lemma rev_app_spec (a b : string) : String.rev_app a b = String.rev a +:+ b.
Proof.
  unfold String.rev. revert b. induction a as [|x a IH]; intros b; [reflexivity|].
  cbn [String.rev_app]. rewrite IH, (IH (String x EmptyString)).
  now rewrite append_assoc.
Qed.

Lemma rev_cons (x : ascii) (a : string) :
  String.rev (String x a) = String.rev a +:+ String x EmptyString.
Proof. unfold String.rev at 1. cbn [String.rev_app]. apply rev_app_spec. Qed.

Lemma rev_append (a b : string) : String.rev (a +:+ b) = String.rev b +:+ String.rev a.
Proof.
  induction a as [|x a IH].
  - now rewrite append_nil_r.
  - rewrite append_cons, !rev_cons, IH. apply append_assoc.
Qed.

Lemma rev_involutive (a : string) : String.rev (String.rev a) = a.
Proof.
  induction a as [|x a IH]; [reflexivity|].
  rewrite rev_cons, rev_append, IH. reflexivity.
Qed.

(** [endsWith] is the suffix relation. *)
Lemma endsWith_spec (s suffix : string) :
  JsString.endsWith s suffix = true <-> exists p, s = p +:+ suffix.
Proof.
  unfold JsString.endsWith. rewrite startsWith_spec. split.
  - intros (r & H). exists (String.rev r).
    rewrite <- (rev_involutive s), H, rev_append. now rewrite rev_involutive.
  - intros (p & ->). exists (String.rev p). apply rev_append.
Qed.

(** ** Sorting and de-duplication keep the elements *)

Section SortFacts.
Context {A : Type} (key : A -> Q).

Lemma insert_desc_perm (x : A) (l : list A) :
  Permutation (insert_desc key x l) (x :: l).
Proof.
  induction l as [|y l IH]; simpl.
  - reflexivity.
  - destruct (Qlt_bool (key x) (key y)).
    + rewrite IH. apply perm_swap.
    + reflexivity.
Qed.

Lemma sort_desc_perm (l : list A) : Permutation (sort_desc key l) l.
Proof.
  induction l as [|x l IH]; simpl.
  - reflexivity.
  - rewrite insert_desc_perm. now rewrite IH.
Qed.

Lemma sort_desc_In (x : A) (l : list A) : In x (sort_desc key l) <-> In x l.
Proof.
  split; apply Permutation_in; [apply sort_desc_perm|].
  symmetry. apply sort_desc_perm.
Qed.

Lemma sort_desc_Forall (P : A -> Prop) (l : list A) :
  Forall P l -> Forall P (sort_desc key l).
Proof.
  intros H. rewrite List.Forall_forall in *.
  intros x Hx. apply H. now apply sort_desc_In.
Qed.
End SortFacts.

Lemma dedupe_by_In {A : Type} (k : A -> string) (seen : list string) (l : list A) (x : A) :
  In x (dedupe_by k seen l) -> In x l.
Proof.
  revert seen. induction l as [|y l IH]; simpl; intros seen H.
  - exact H.
  - destruct (bool_decide (k y ∈ seen)).
    + right. eapply IH, H.
    + destruct H as [H|H]; [now left|right; eapply IH, H].
Qed.

Lemma firstn_In {A : Type} (n : nat) (l : list A) (x : A) : In x (firstn n l) -> In x l.
Proof.
  revert n. induction l as [|y l IH]; intros [|n]; simpl; try tauto.
  intros [H|H]; [now left|right; eauto].
Qed.

(** ** Construction: the endpoint check (claim C9) *)

Lemma nonempty_false (s : string) : JsString.nonempty s = false <-> s = EmptyString.
Proof. destruct s; simpl; split; congruence. Qed.

Lemma host_allowed_spec (hostname_ host : string) :
  host_allowed hostname_ host = true <->
  hostname_ = host \/ exists sub, hostname_ = sub +:+ "." +:+ host.
Proof.
  unfold host_allowed. now rewrite orb_true_iff, String.eqb_eq, endsWith_spec.
Qed.

Lemma validateUrl_spec (w : World) (url_ : string) (allowedHosts : list string) :
  validateUrl w url_ allowedHosts = true <->
  exists u, new_URL w url_ = Some u /\ url_accepted u allowedHosts.
Proof.
  unfold validateUrl, url_accepted.
  destruct (new_URL w url_) as [u|]; [|split; [discriminate|intros (u & H & _); discriminate]].
  destruct (existsb _ allowedHosts) eqn:Hhost; simpl.
  - apply existsb_exists in Hhost as (host & Hin & Hok).
    apply host_allowed_spec in Hok.
    destruct (JsString.nonempty (port u)) eqn:Hport; simpl.
    + destruct (bool_decide (port u ∈ ALLOWED_PORTS)) eqn:Hp; simpl.
      * apply bool_decide_eq_true in Hp. apply list_elem_of_In in Hp.
        split; [intros _|reflexivity]. exists u. split; [reflexivity|]. eauto 6.
      * apply bool_decide_eq_false in Hp. rewrite list_elem_of_In in Hp.
        split; [discriminate|]. intros (u' & Hu & _ & [He|Hi]).
        -- injection Hu as <-. apply nonempty_false in He. congruence.
        -- injection Hu as <-. contradiction.
    + apply nonempty_false in Hport.
      split; [intros _|reflexivity]. exists u. split; [reflexivity|]. eauto 6.
  - split; [discriminate|]. intros (u' & Hu & (host & Hin & Hok) & _).
    injection Hu as <-.
    assert (existsb (host_allowed (JsString.toLowerCase (hostname u))) allowedHosts = true)
      as Hex; [|congruence].
    apply existsb_exists. exists host. split; [exact Hin|].
    now apply host_allowed_spec.
Qed.

(** C9, as amended: the strategy is constructed if and only if the
    endpoint in effect (the configured one, or [http://localhost:11434]
    when the configured one is absent or the empty string) parses as a URL,
    the lower-cased [hostname] of the parsed URL is an allow-listed host or
    a subdomain of one (it ends with a dot and the host), and the [port]
    that the parsed URL reports is the empty string or allow-listed;
    otherwise the constructor throws.  [URL.port] is the empty string when
    the URL names no port and when it names the default port of its scheme.
    The engine is constructed exactly when the strategy for its configured
    endpoint is, so under the same condition on that endpoint. *)
Theorem construction_iff_endpoint_accepted (w : World) :
  (forall options : AiPoweredAnalysisStrategy.ctor_options,
     is_Ok (AiPoweredAnalysisStrategy.constructor w options) <->
     exists u,
       new_URL w (str_or (AiPoweredAnalysisStrategy.opt_ollamaUrl options)
                         "http://localhost:11434") = Some u /\
       url_accepted u DEFAULT_ALLOWED_HOSTS) /\
  (forall c : HealingConfig,
     is_Ok (new_HealingEngine w c) <->
     is_Ok (AiPoweredAnalysisStrategy.constructor w
              {| AiPoweredAnalysisStrategy.opt_ollamaUrl :=
                   Some (cfg_ollama_url (mergeWithDefaults c));
                 AiPoweredAnalysisStrategy.opt_model :=
                   Some (cfg_ollama_model (mergeWithDefaults c));
                 AiPoweredAnalysisStrategy.opt_timeout :=
                   Some (cfg_ollama_timeout (mergeWithDefaults c)) |})) /\
  (forall c : HealingConfig,
     is_Ok (new_HealingEngine w c) <->
     exists u,
       new_URL w (str_or (Some (chain (ollama c) url "http://localhost:11434"))
                         "http://localhost:11434") = Some u /\
       url_accepted u DEFAULT_ALLOWED_HOSTS).
Proof.
  assert (forall options : AiPoweredAnalysisStrategy.ctor_options,
     is_Ok (AiPoweredAnalysisStrategy.constructor w options) <->
     exists u,
       new_URL w (str_or (AiPoweredAnalysisStrategy.opt_ollamaUrl options)
                         "http://localhost:11434") = Some u /\
       url_accepted u DEFAULT_ALLOWED_HOSTS) as Hctor.
  { intros options. unfold AiPoweredAnalysisStrategy.constructor.
    rewrite <- validateUrl_spec.
    destruct (validateUrl w _ DEFAULT_ALLOWED_HOSTS); simpl; intuition congruence. }
  assert (forall c : HealingConfig,
     is_Ok (new_HealingEngine w c) <->
     is_Ok (AiPoweredAnalysisStrategy.constructor w
              {| AiPoweredAnalysisStrategy.opt_ollamaUrl :=
                   Some (cfg_ollama_url (mergeWithDefaults c));
                 AiPoweredAnalysisStrategy.opt_model :=
                   Some (cfg_ollama_model (mergeWithDefaults c));
                 AiPoweredAnalysisStrategy.opt_timeout :=
                   Some (cfg_ollama_timeout (mergeWithDefaults c)) |})) as Hengine.
  { intros c. unfold new_HealingEngine, initializeStrategies.
    destruct (AiPoweredAnalysisStrategy.constructor w _); simpl; tauto. }
  split; [exact Hctor|]. split; [exact Hengine|].
  intros c. rewrite Hengine, Hctor. reflexivity.
Qed.

(** C9, as stated, fails: the host [foo.localhost] is not in the allow-list,
    yet the strategy and the engine are constructed. *)
Lemma subdomain_endpoint_constructs :
  let endpoint := "http://foo.localhost:11434" in
  new_URL Scenario.blank_world endpoint
    = Some {| hostname := "foo.localhost"; port := "11434" |} /\
  ~ In "foo.localhost" DEFAULT_ALLOWED_HOSTS /\
  is_Ok (AiPoweredAnalysisStrategy.constructor Scenario.blank_world
           {| AiPoweredAnalysisStrategy.opt_ollamaUrl := Some endpoint;
              AiPoweredAnalysisStrategy.opt_model := None;
              AiPoweredAnalysisStrategy.opt_timeout := None |}) /\
  is_Ok (new_HealingEngine Scenario.blank_world (Scenario.with_endpoint endpoint)).
Proof.
  cbv zeta. split; [reflexivity|]. split.
  - simpl. intros [H|[H|[]]]; discriminate.
  - split; vm_compute; exact I.
Qed.

(** A host that is neither allow-listed nor a subdomain is refused. *)
Example foreign_endpoint_throws :
  new_HealingEngine Scenario.blank_world (Scenario.with_endpoint "http://example.com:11434")
  = Throw "Invalid Ollama URL. Only localhost and 127.0.0.1 are allowed for security.".
Proof. reflexivity. Qed.

(** An empty endpoint is replaced by the default one before it is
    validated, so construction succeeds. *)
Example empty_endpoint_constructs :
  cfg_ollama_url (mergeWithDefaults (Scenario.with_endpoint "")) = EmptyString /\
  is_Ok (new_HealingEngine Scenario.blank_world (Scenario.with_endpoint "")).
Proof. split; [reflexivity|]. vm_compute. exact I. Qed.

(** The port check reads [URL.port]: for [ftp://localhost:21] that is the
    empty string, 21 being the default port of the scheme, and the engine
    is constructed although 21 is not an allow-listed port; the scheme is
    not looked at.  A port that the parsed URL does report, as in
    [http://localhost:9999], is refused. *)
Example default_port_endpoint_constructs :
  new_URL scheme_world "ftp://localhost:21"
  = Some {| hostname := "localhost"; port := EmptyString |} /\
  ~ In "21" ALLOWED_PORTS /\
  is_Ok (new_HealingEngine scheme_world (Scenario.with_endpoint "ftp://localhost:21")) /\
  new_HealingEngine scheme_world (Scenario.with_endpoint "http://localhost:9999")
  = Throw "Invalid Ollama URL. Only localhost and 127.0.0.1 are allowed for security.".
Proof.
  split; [reflexivity|]. split.
  - simpl. intros [H|[H|[H|[H|[]]]]]; discriminate.
  - split; [vm_compute; exact I|reflexivity].
Qed.

(** ** [healthCheck] (claim C10) *)

(** C10: [healthCheck] never answers [offline]; the three strategies without
    LLM are reported available whatever happens; with the AI strategy
    registered, the status is [healthy] when the probe succeeds and
    [degraded] when it fails. *)
Theorem healthCheck_never_offline (w : World) (e : HealingEngine) (log : Log) :
  let h := fst (healthCheck w (e, log)) in
  status h <> offline /\
  assoc_get data_testid_recovery (strategyHealth h) = Some true /\
  assoc_get text_content_matching (strategyHealth h) = Some true /\
  assoc_get css_hierarchy_analysis (strategyHealth h) = Some true /\
  status h =
    match assoc_get ai_powered_analysis (registry e) with
    | Some _ => if llm_probe_ok w e log then healthy else degraded
    | None => healthy
    end.
Proof.
  unfold healthCheck, llm_probe_ok, bind, get_engine, with_log, clock, ret. simpl.
  destruct (assoc_get ai_powered_analysis (registry e)); simpl.
  - destruct (fetch_tags w (length log) _) as [[|]|]; simpl;
      repeat split; discriminate.
  - repeat split; discriminate.
Qed.

(** Every engine that was constructed has the four strategies registered. *)
Lemma new_HealingEngine_registry (w : World) (c : HealingConfig) (e : HealingEngine) :
  new_HealingEngine w c = Ok e ->
  exists ai, registry e =
    [(data_testid_recovery, TestIdStrategy); (text_content_matching, TextStrategy);
     (css_hierarchy_analysis, CssStrategy); (ai_powered_analysis, AiStrategy ai)] /\
    config e = mergeWithDefaults c /\ cache e = ∅ /\ flakinessTracker e = [].
Proof.
  unfold new_HealingEngine, initializeStrategies.
  destruct (AiPoweredAnalysisStrategy.constructor w _) as [ai|]; [|discriminate].
  intros [= <-]. exists ai. simpl. auto.
Qed.

(** So a constructed engine is [healthy] exactly when the probe succeeds. *)
Lemma healthCheck_of_new_engine (w : World) (c : HealingConfig) (e : HealingEngine)
      (log : Log) :
  new_HealingEngine w c = Ok e ->
  status (fst (healthCheck w (e, log)))
  = if llm_probe_ok w e log then healthy else degraded.
Proof.
  intros Hnew. apply new_HealingEngine_registry in Hnew as (ai & Hregistry & _).
  unfold healthCheck, llm_probe_ok, bind, get_engine, with_log, clock, ret. simpl.
  rewrite Hregistry. simpl.
  now destruct (fetch_tags w (length log) _) as [[|]|].
Qed.

(** ** The retry handler (claim C7) *)

Section RetryFacts.
Import RetryHandler.
Variable config : Config.
Context {T : Type}.
Variable action : nat -> outcome T.
Variables maxRetries maxBackoff : Z.

Abbreviation loop := (retry_loop config action maxRetries maxBackoff).

Lemma retry_loop_step (iterations attempt : nat) (backoff : Z) (lastError : option string) :
  loop (S iterations) attempt backoff lastError =
  match action attempt with
  | Ok value => (Ok value, [Called attempt])
  | Throw message =>
      if negb (shouldRetry config message attempt maxRetries)
      then (Throw message, [Called attempt])
      else
        let sleeps := (Z.of_nat attempt <? maxRetries)%Z in
        let backoff' := if sleeps then Z.min (backoff * 2) maxBackoff else backoff in
        let (result, events) :=
          loop iterations (S attempt) backoff' (Some message) in
        (result,
         Called attempt :: OnRetry (attempt + 1) message
           :: (if sleeps then [Slept backoff] else []) ++ events)
  end.
Proof. reflexivity. Qed.

(** The loop calls [action] with values of [attempt] that only grow. *)
Lemma retry_loop_calls_from (iterations attempt : nat) (backoff : Z)
      (lastError : option string) (k : nat) :
  In (Called k) (snd (loop iterations attempt backoff lastError)) -> attempt <= k.
Proof.
  revert attempt backoff lastError.
  induction iterations as [|n IH]; intros attempt backoff lastError; simpl.
  - intros [].
  - destruct (action attempt) as [v|message]; simpl.
    + intros [[= <-]|[]]. lia.
    + destruct (shouldRetry config message attempt maxRetries); simpl.
      * specialize (IH (S attempt)
                       (if (Z.of_nat attempt <? maxRetries)%Z
                        then Z.min (backoff * 2) maxBackoff else backoff)
                       (Some message)).
        destruct (loop n (S attempt) _ (Some message)) as [result events]. simpl in *.
        intros [[= <-]|[H|H]]; [lia|discriminate|].
        apply in_app_or in H as [H|H].
        -- destruct (Z.of_nat attempt <? maxRetries)%Z; simpl in H;
             [destruct H as [H|[]]; discriminate|destruct H].
        -- apply IH in H. lia.
      * intros [[= <-]|[]]. lia.
Qed.

(** With an iteration left, the loop calls [action] at [attempt]. *)
Lemma retry_loop_calls_first (iterations attempt : nat) (backoff : Z)
      (lastError : option string) :
  In (Called attempt) (snd (loop (S iterations) attempt backoff lastError)).
Proof.
  simpl. destruct (action attempt) as [v|message]; simpl; [now left|].
  destruct (shouldRetry config message attempt maxRetries); simpl; [|now left].
  destruct (loop iterations (S attempt) _ (Some message)). now left.
Qed.

(** The error classes of [shouldRetry], for a message in none of the
    timeout and network classes. *)
Lemma shouldRetry_flaky (message : string) (attempt : nat) :
  some_included flakyPatterns (JsString.toLowerCase message) = true ->
  some_included timeoutPatterns (JsString.toLowerCase message) = false ->
  some_included networkPatterns (JsString.toLowerCase message) = false ->
  shouldRetry config message attempt maxRetries
  = cfg_retry_onFlakiness config && (Z.of_nat attempt <? maxRetries)%Z.
Proof.
  intros Hflaky Htimeout Hnetwork. unfold shouldRetry.
  rewrite Hflaky, Htimeout, Hnetwork, andb_false_r, andb_true_r.
  rewrite (Z.ltb_antisym maxRetries (Z.of_nat attempt)).
  destruct (maxRetries <=? Z.of_nat attempt)%Z; simpl;
    [now rewrite andb_false_r|].
  destruct (cfg_retry_onFlakiness config); reflexivity.
Qed.

(** C7, as amended: an error whose message contains (in any letter case)
    one of [element is not visible], [element is not attached],
    [element is not stable], [intercepts pointer events], [not actionable],
    and none of the timeout and network substrings, is retried (the action
    is called once more) if and only if [retry.onFlakiness] is set and
    retries remain. *)
Theorem flaky_error_retried_iff (message : string) (attempt : nat) (backoff : Z)
        (lastError : option string) :
  some_included flakyPatterns (JsString.toLowerCase message) = true ->
  some_included timeoutPatterns (JsString.toLowerCase message) = false ->
  some_included networkPatterns (JsString.toLowerCase message) = false ->
  action attempt = Throw message ->
  (In (Called (S attempt))
      (snd (loop (Z.to_nat (maxRetries + 1 - Z.of_nat attempt)) attempt backoff lastError))
   <-> cfg_retry_onFlakiness config = true /\ (Z.of_nat attempt < maxRetries)%Z).
Proof.
  intros Hflaky Htimeout Hnetwork Hthrow.
  pose proof (shouldRetry_flaky message attempt Hflaky Htimeout Hnetwork) as Hshould.
  destruct (Z.ltb_spec (Z.of_nat attempt) maxRetries) as [Hlt|Hge].
  - replace (Z.to_nat (maxRetries + 1 - Z.of_nat attempt))
      with (S (S (Z.to_nat (maxRetries - 1 - Z.of_nat attempt)))) by lia.
    rewrite retry_loop_step, Hthrow, Hshould.
    assert ((Z.of_nat attempt <? maxRetries)%Z = true) as -> by lia.
    destruct (cfg_retry_onFlakiness config); cbn [andb negb].
    + pose proof (retry_loop_calls_first
                    (Z.to_nat (maxRetries - 1 - Z.of_nat attempt)) (S attempt)
                    (Z.min (backoff * 2) maxBackoff) (Some message)) as Hcall.
      cbv zeta.
      destruct (retry_loop _ _ _ _ (S _) (S attempt) _ (Some message))
        as [result events].
      cbn [snd] in *. split; [intros _; split; [reflexivity|exact Hlt]|].
      intros _. right. right. apply in_or_app. now right.
    + cbn [snd]. split; [intros [[= H]|[]]; lia|intros [H _]; discriminate].
  - split; [|intros [_ H]; lia].
    intros Hin. exfalso.
    destruct (Z.to_nat (maxRetries + 1 - Z.of_nat attempt)) as [|[|n]] eqn:Hn;
      [destruct Hin| |lia].
    rewrite retry_loop_step, Hthrow, Hshould in Hin.
    assert ((Z.of_nat attempt <? maxRetries)%Z = false) as Hb by lia.
    rewrite Hb, andb_false_r in Hin. cbn [negb snd] in Hin.
    destruct Hin as [[= H]|[]]. lia.
Qed.
End RetryFacts.

(** The theorem at the first call of a failing click, with the default
    configuration. *)
Lemma flaky_error_retried_iff_witness :
  In (RetryHandler.Called 1)
     (snd (RetryHandler.retry_loop (mergeWithDefaults empty_config)
             (fun _ => @Throw unit "Element is not visible") 2 10000
             (Z.to_nat (2 + 1 - Z.of_nat 0)) 0 1000 None))
  <-> cfg_retry_onFlakiness (mergeWithDefaults empty_config) = true /\ (Z.of_nat 0 < 2)%Z.
Proof.
  apply (flaky_error_retried_iff (mergeWithDefaults empty_config)
           (fun _ => @Throw unit "Element is not visible") 2 10000
           "Element is not visible" 0 1000 None); reflexivity.
Defined.

(** C7, as stated, fails: the message contains [not visible], flakiness
    retries are on and two retries remain, yet the error is rethrown after
    one call. *)
Lemma not_visible_is_not_retried :
  let message := "Button not visible" in
  let config := mergeWithDefaults empty_config in
  JsString.includes (JsString.toLowerCase message) "not visible" = true /\
  cfg_retry_onFlakiness config = true /\
  cfg_retry_maxRetries config = 2%Z /\
  RetryHandler.shouldRetry config message 0 2 = false /\
  RetryHandler.withRetry config (fun _ => @Throw unit message)
                         RetryHandler.no_retry_options
  = (Throw message, [RetryHandler.Called 0]).
Proof. cbv zeta. repeat split; reflexivity. Qed.

(** The other direction fails as well: with flakiness retries off, a
    message of the timeout class that also says [not visible] is retried. *)
Example timeout_class_is_retried_without_onFlakiness :
  let message := "Timeout 30000ms exceeded: element is not visible" in
  let config :=
    mergeWithDefaults
      {| enabled := None; strategies := None; maxAttempts := None; cacheHealing := None;
         ollama := None;
         retry := Some {| onTimeout := None; onFlakiness := Some false;
                          maxRetries := None; initialBackoff := None |};
         telemetry := None |} in
  cfg_retry_onFlakiness config = false /\
  RetryHandler.shouldRetry config message 0 2 = true.
Proof. cbv zeta. split; reflexivity. Qed.

(** ** Test-ID scoring (claim C5) *)

Section TestIdFacts.
Import DataTestIdRecoveryStrategy.

(** A candidate pushed for an element of the page is a candidate of the
    strategy. *)
Lemma element_candidates_found (originalTestId : string) (elements : list ElementInfo)
      (expectedType : option string) (element : ElementInfo) (c : candidate) :
  In element elements ->
  In c (element_candidates originalTestId expectedType element) ->
  In c (findCandidates originalTestId elements expectedType).
Proof.
  intros Hel Hc. unfold findCandidates. apply sort_desc_In.
  apply in_concat. exists (element_candidates originalTestId expectedType element).
  split; [|exact Hc]. apply in_map. exact Hel.
Qed.

(** C5, as amended: the similarity threshold comes first.  For a page ID that
    contains the extracted ID (and is neither equal nor normalization-equal
    to it), the strategy emits the [contains] candidates with confidence
    0.80 (0.90 with the expected-type bonus) when the Levenshtein similarity
    of the pair exceeds 0.5, and emits nothing for the element when it does
    not. *)
Theorem contains_match_behind_similarity_threshold
        (originalTestId testId : string) (expectedType : option string)
        (element : ElementInfo) :
  el_testId element = Some testId ->
  JsString.nonempty testId = true ->
  JsString.toLowerCase originalTestId <> JsString.toLowerCase testId ->
  normalizeName originalTestId <> normalizeName testId ->
  JsString.includes (JsString.toLowerCase testId) (JsString.toLowerCase originalTestId)
  = true ->
  ((1 # 2 < calculateSimilarity originalTestId testId)%Q ->
   forall (elements : list ElementInfo) (attr : string),
     In element elements -> In attr TEST_ID_ATTRIBUTES ->
     In (contains_candidate expectedType element testId attr)
        (findCandidates originalTestId elements expectedType)) /\
  ((calculateSimilarity originalTestId testId <= 1 # 2)%Q ->
   element_candidates originalTestId expectedType element = [] /\
   findCandidates originalTestId [element] expectedType = []).
Proof.
  intros Hid Hne Hlower Hnorm Hcontains.
  assert (element_candidates originalTestId expectedType element =
          if Qlt_bool (1 # 2) (calculateSimilarity originalTestId testId)
          then map (contains_candidate expectedType element testId) TEST_ID_ATTRIBUTES
          else []) as Hcands.
  { unfold element_candidates, classify. rewrite Hid, Hne. cbn [negb].
    destruct (Qlt_bool _ _); [|reflexivity].
    apply String.eqb_neq in Hlower, Hnorm. rewrite Hlower, Hnorm, Hcontains.
    unfold contains_candidate.
    destruct (type_matches expectedType (el_tag element)); reflexivity. }
  split.
  - intros Hsim elements attr Hel Hattr.
    apply (element_candidates_found _ _ _ element); [exact Hel|].
    rewrite Hcands.
    assert (Qlt_bool (1 # 2) (calculateSimilarity originalTestId testId) = true) as ->.
    { unfold Qlt_bool. apply negb_true_iff.
      destruct (Qle_bool _ _) eqn:Hle; [|reflexivity].
      apply Qle_bool_iff in Hle. exfalso. eapply Qlt_not_le; eauto. }
    apply in_map. exact Hattr.
  - intros Hsim.
    assert (Qlt_bool (1 # 2) (calculateSimilarity originalTestId testId) = false) as Hb.
    { unfold Qlt_bool. apply negb_false_iff. apply Qle_bool_iff. exact Hsim. }
    unfold findCandidates. cbn [map concat]. rewrite Hcands, Hb. split; reflexivity.
Qed.
End TestIdFacts.

(** The theorem on the pair [submit] and [submit-btn], whose similarity is
    0.6. *)
Lemma contains_match_behind_similarity_threshold_witness :
  ((1 # 2 < DataTestIdRecoveryStrategy.calculateSimilarity "submit" "submit-btn")%Q ->
   forall (elements : list ElementInfo) (attr : string),
     In (Scenario.element_with_testId "button" "submit-btn") elements ->
     In attr DataTestIdRecoveryStrategy.TEST_ID_ATTRIBUTES ->
     In (contains_candidate None (Scenario.element_with_testId "button" "submit-btn") "submit-btn" attr)
        (DataTestIdRecoveryStrategy.findCandidates "submit" elements None)) /\
  ((DataTestIdRecoveryStrategy.calculateSimilarity "submit" "submit-btn" <= 1 # 2)%Q ->
   DataTestIdRecoveryStrategy.element_candidates
     "submit" None (Scenario.element_with_testId "button" "submit-btn") = [] /\
   DataTestIdRecoveryStrategy.findCandidates
     "submit" [Scenario.element_with_testId "button" "submit-btn"] None = []).
Proof.
  apply (contains_match_behind_similarity_threshold
           "submit" "submit-btn" None (Scenario.element_with_testId "button" "submit-btn"));
    try reflexivity; vm_compute; discriminate.
Defined.

Example contains_match_sample :
  map DataTestIdRecoveryStrategy.cand_selector
      (DataTestIdRecoveryStrategy.findCandidates
         "submit" [Scenario.element_with_testId "button" "submit-btn"] None)
  = map (fun attr => "[" +:+ attr +:+ "=" +:+ quoted "submit-btn" +:+ "]")
        DataTestIdRecoveryStrategy.TEST_ID_ATTRIBUTES.
Proof. vm_compute. reflexivity. Qed.

(** C5, as stated, fails: [ab] is a substring of [abcdefgh], the two are
    neither equal nor normalization-equal, and no candidate is emitted,
    because the similarity of the pair is 0.25. *)
Lemma contained_id_is_discarded :
  let originalTestId := "ab" in
  let testId := "abcdefgh" in
  JsString.includes (JsString.toLowerCase testId) (JsString.toLowerCase originalTestId)
  = true /\
  JsString.toLowerCase originalTestId <> JsString.toLowerCase testId /\
  DataTestIdRecoveryStrategy.normalizeName originalTestId
  <> DataTestIdRecoveryStrategy.normalizeName testId /\
  (DataTestIdRecoveryStrategy.calculateSimilarity originalTestId testId == 1 # 4)%Q /\
  DataTestIdRecoveryStrategy.findCandidates
    originalTestId [Scenario.element_with_testId "button" testId] None = [].
Proof.
  cbv zeta. split; [reflexivity|]. split; [vm_compute; discriminate|].
  split; [vm_compute; discriminate|]. split; reflexivity.
Qed.

(** ** The event log *)

Lemma extends_refl (log : Log) : extends log log.
Proof. now exists []. Qed.

Lemma extends_trans (l1 l2 l3 : Log) : extends l1 l2 -> extends l2 l3 -> extends l1 l3.
Proof. intros [e1 ->] [e2 ->]. exists (e2 ++ e1). now rewrite app_assoc. Qed.

Lemma extends_cons (ev : Event) (log : Log) : extends log (ev :: log).
Proof. now exists [ev]. Qed.

Lemma extends_length (l1 l2 : Log) : extends l1 l2 -> length l1 <= length l2.
Proof. intros [e ->]. rewrite length_app. lia. Qed.

Lemma probed_from_earlier (w : World) (l0 l1 l2 : Log) (sel : string) :
  extends l0 l1 -> probed w l1 l2 sel -> probed w l0 l2 sel.
Proof.
  intros Hext (t & n & Ht & Hev & Hcount & Hn).
  exists t, n. apply extends_length in Hext. repeat split; auto. lia.
Qed.

Lemma probed_until_later (w : World) (l1 l2 l3 : Log) (sel : string) :
  probed w l1 l2 sel -> extends l2 l3 -> probed w l1 l3 sel.
Proof.
  intros (t & n & Ht & Hev & Hcount & Hn) [evs ->].
  exists t, n. repeat split; auto.
  rewrite rev_app_distr. now apply lookup_app_l_Some.
Qed.

(** ** Reading a computation backwards *)

Lemma bind_inv {S A B : Type} (m : M S A) (f : A -> M S B) (s : S) (b : B) (s2 : S) :
  bind m f s = (b, s2) -> exists a s1, m s = (a, s1) /\ f a s1 = (b, s2).
Proof. unfold bind. destruct (m s) as [a s1]. eauto. Qed.

Lemma bind_eq {S A B : Type} (m : M S A) (f : A -> M S B) (s : S) (a : A) (s1 : S) :
  m s = (a, s1) -> bind m f s = f a s1.
Proof. unfold bind. now intros ->. Qed.

Lemma ret_inv {S A : Type} (a b : A) (s s' : S) : ret a s = (b, s') -> a = b /\ s = s'.
Proof. unfold ret. now intros [= -> ->]. Qed.

Lemma clock_inv {A : Type} (f : nat -> A) (ev : A -> Event) (log log' : Log) (a : A) :
  clock f ev log = (a, log') -> a = f (length log) /\ log' = ev a :: log.
Proof. unfold clock. now intros [= <- <-]. Qed.

Lemma checkSelectorExists_inv (w : World) (sel : string) (log log' : Log) (b : bool) :
  checkSelectorExists w sel log = (b, log') ->
  log' = EvProbe sel b :: log /\ (b = true -> probed w log log' sel).
Proof.
  unfold checkSelectorExists. intros H. apply clock_inv in H as [Hb ->].
  split; [reflexivity|]. intros ->. unfold resolves_at in Hb.
  destruct (locator_count w (length log) sel) as [count|] eqn:Hcount; [|discriminate].
  exists (length log), count. repeat split; auto.
  - cbn [rev]. apply list_lookup_middle. now rewrite length_rev.
  - symmetry in Hb. now apply Nat.ltb_lt in Hb.
Qed.

(** The candidate loop stops at a candidate of the list that was probed
    with success. *)
Lemma first_existing_inv (w : World) {C : Type} (sel : C -> string)
      (candidates : list C) (log log' : Log) (hit : option C) :
  first_existing w sel candidates log = (hit, log') ->
  extends log log' /\
  (forall c, hit = Some c -> In c candidates /\ probed w log log' (sel c)).
Proof.
  revert log. induction candidates as [|c rest IH]; intros log; cbn [first_existing].
  - intros H. apply ret_inv in H as [<- <-]. split; [apply extends_refl|discriminate].
  - intros H. apply bind_inv in H as (b & log1 & Hcheck & H).
    apply checkSelectorExists_inv in Hcheck as [-> Hprobed].
    destruct b.
    + apply ret_inv in H as [<- <-]. split; [apply extends_cons|].
      intros c' [= <-]. split; [now left|auto].
    + apply IH in H as [Hext Hhit]. split.
      * eapply extends_trans; [apply extends_cons|exact Hext].
      * intros c' Hc. destruct (Hhit c' Hc) as [Hin Hp]. split; [now right|].
        eapply probed_from_earlier; [apply extends_cons|exact Hp].
Qed.

(** ** What a strategy returns *)

Ltac failure_post :=
  split; [eauto using extends_refl, extends_cons, extends_trans
         |split; [reflexivity|discriminate]].

Lemma DataTestIdRecovery_heal_post (w : World) (sel : string)
      (options : HealingStrategyOptions) (log log' : Log) (r : HealingResult) :
  DataTestIdRecoveryStrategy.heal w sel options log = (r, log') ->
  strategy_post w log r log'.
Proof.
  unfold DataTestIdRecoveryStrategy.heal, DataTestIdRecoveryStrategy.getAllTestIdElements.
  destruct (DataTestIdRecoveryStrategy.extractTestId sel) as [extracted|]; intros H.
  2:{ apply ret_inv in H as [<- <-]. failure_post. }
  apply bind_inv in H as (elements & log1 & Heval & H).
  apply clock_inv in Heval as [-> ->].
  destruct (evaluate_testIdElements w (length log)) as [elements|msg].
  2:{ apply ret_inv in H as [<- <-]. failure_post. }
  apply bind_inv in H as (hit & log2 & Hloop & H).
  apply first_existing_inv in Hloop as [Hext Hhit].
  assert (extends log log2) as Hext'
    by (eapply extends_trans; [apply extends_cons|exact Hext]).
  destruct hit as [candidate|]; apply ret_inv in H as [<- <-].
  - split; [exact Hext'|]. split; [reflexivity|]. intros _. cbn [selector].
    destruct (Hhit candidate eq_refl) as [_ Hp].
    eapply probed_from_earlier; [apply extends_cons|exact Hp].
  - failure_post.
Qed.

Lemma TextContentMatching_heal_post (w : World) (sel : string)
      (options : HealingStrategyOptions) (log log' : Log) (r : HealingResult) :
  TextContentMatchingStrategy.heal w sel options log = (r, log') ->
  strategy_post w log r log'.
Proof.
  unfold TextContentMatchingStrategy.heal, TextContentMatchingStrategy.getAllTextElements.
  destruct (TextContentMatchingStrategy.extractTextContent sel) as [extracted|]; intros H.
  2:{ apply ret_inv in H as [<- <-]. failure_post. }
  destruct (negb (JsString.nonempty extracted)).
  { apply ret_inv in H as [<- <-]. failure_post. }
  apply bind_inv in H as (elements & log1 & Heval & H).
  apply clock_inv in Heval as [-> ->].
  destruct (evaluate_textElements w (length log) _) as [elements|msg].
  2:{ apply ret_inv in H as [<- <-]. failure_post. }
  apply bind_inv in H as (hit & log2 & Hloop & H).
  apply first_existing_inv in Hloop as [Hext Hhit].
  assert (extends log log2) as Hext'
    by (eapply extends_trans; [apply extends_cons|exact Hext]).
  destruct hit as [candidate|]; apply ret_inv in H as [<- <-].
  - split; [exact Hext'|]. split; [reflexivity|]. intros _. cbn [selector].
    destruct (Hhit candidate eq_refl) as [_ Hp].
    eapply probed_from_earlier; [apply extends_cons|exact Hp].
  - failure_post.
Qed.

(** The loop of the CSS strategy: what it returns was probed with success,
    and so was everything it has collected. *)
Lemma test_candidates_inv (w : World)
      (rest valid : list CssHierarchyAnalysisStrategy.candidate) (log0 log log' : Log)
      (tested : CssHierarchyAnalysisStrategy.candidate
                + list CssHierarchyAnalysisStrategy.candidate) :
  extends log0 log ->
  Forall (fun c => probed w log0 log (CssHierarchyAnalysisStrategy.cand_selector c)) valid ->
  CssHierarchyAnalysisStrategy.test_candidates w rest valid log = (tested, log') ->
  extends log0 log' /\
  match tested with
  | inl c => probed w log0 log' (CssHierarchyAnalysisStrategy.cand_selector c)
  | inr valid' =>
      Forall (fun c => probed w log0 log' (CssHierarchyAnalysisStrategy.cand_selector c))
             valid'
  end.
Proof.
  revert valid log.
  induction rest as [|c rest IH]; intros valid log Hext Hvalid;
    cbn [CssHierarchyAnalysisStrategy.test_candidates]; intros H.
  - apply ret_inv in H as [<- <-]. auto.
  - apply bind_inv in H as (b & log1 & Hcheck & H).
    apply checkSelectorExists_inv in Hcheck as [-> Hprobed].
    assert (extends log0 (EvProbe (CssHierarchyAnalysisStrategy.cand_selector c) b :: log))
      as Hext1 by (eapply extends_trans; [exact Hext|apply extends_cons]).
    assert (Forall (fun c0 => probed w log0
                      (EvProbe (CssHierarchyAnalysisStrategy.cand_selector c) b :: log)
                      (CssHierarchyAnalysisStrategy.cand_selector c0)) valid) as Hvalid1.
    { eapply List.Forall_impl; [|exact Hvalid]. intros c0 Hp.
      eapply probed_until_later; [exact Hp|apply extends_cons]. }
    destruct b.
    + assert (probed w log0 (EvProbe (CssHierarchyAnalysisStrategy.cand_selector c) true :: log)
                     (CssHierarchyAnalysisStrategy.cand_selector c)) as Hc
        by (eapply probed_from_earlier; [exact Hext|auto]).
      destruct (length (valid ++ [c]) =? 1).
      * apply ret_inv in H as [<- <-]. auto.
      * eapply IH; [exact Hext1| |exact H].
        apply Forall_app. split; [exact Hvalid1|]. constructor; [exact Hc|constructor].
    + eapply IH; [exact Hext1|exact Hvalid1|exact H].
Qed.

Lemma CssHierarchyAnalysis_heal_post (w : World) (sel : string)
      (log log' : Log) (r : HealingResult) :
  CssHierarchyAnalysisStrategy.heal w sel log = (r, log') ->
  strategy_post w log r log'.
Proof.
  unfold CssHierarchyAnalysisStrategy.heal. intros H.
  apply bind_inv in H as (tested & log1 & Hloop & H).
  eapply test_candidates_inv in Hloop as [Hext Htested];
    [|apply extends_refl|constructor].
  destruct tested as [c|[|best others]]; apply ret_inv in H as [<- <-].
  - split; [exact Hext|]. split; [reflexivity|]. intros _. exact Htested.
  - failure_post.
  - split; [exact Hext|]. split; [reflexivity|]. intros _.
    now inversion Htested.
Qed.

Lemma AiPoweredAnalysis_heal_post (w : World) (self : AiPoweredAnalysisStrategy.t)
      (sel : string) (options : HealingStrategyOptions) (log log' : Log)
      (r : HealingResult) :
  AiPoweredAnalysisStrategy.heal w self sel options log = (r, log') ->
  strategy_post w log r log'.
Proof.
  unfold AiPoweredAnalysisStrategy.heal, AiPoweredAnalysisStrategy.checkOllamaAvailability,
    AiPoweredAnalysisStrategy.extractPageContext, AiPoweredAnalysisStrategy.callOllama.
  intros H.
  apply bind_inv in H as (isAvailable & log1 & Htags & H).
  apply clock_inv in Htags as [-> ->].
  destruct (negb _).
  { apply ret_inv in H as [<- <-]. failure_post. }
  apply bind_inv in H as (pageContext & log2 & Hctx & H).
  apply clock_inv in Hctx as [-> ->].
  destruct (evaluate_pageContext w _ _) as [pageContext|msg].
  2:{ apply ret_inv in H as [<- <-]. failure_post. }
  apply bind_inv in H as (aiResponse & log3 & Hgen & H).
  apply clock_inv in Hgen as [-> ->].
  destruct (fetch_generate w _ _ _ _ _) as [aiResponse|msg].
  2:{ apply ret_inv in H as [<- <-]. failure_post. }
  destruct (length _ =? 0).
  { apply ret_inv in H as [<- <-]. failure_post. }
  apply bind_inv in H as (hit & log4 & Hloop & H).
  apply first_existing_inv in Hloop as [Hext Hhit].
  assert (extends log log4) as Hext'.
  { eapply extends_trans; [|exact Hext]. exists [EvFetch (AiPoweredAnalysisStrategy.ollamaUrl self +:+ "/api/generate"); EvEvaluate; EvFetch (AiPoweredAnalysisStrategy.ollamaUrl self +:+ "/api/tags")]. reflexivity. }
  destruct hit as [suggestion|]; apply ret_inv in H as [<- <-].
  - split; [exact Hext'|]. split; [reflexivity|]. intros _. cbn [selector].
    destruct (Hhit suggestion eq_refl) as [_ Hp].
    eapply probed_from_earlier; [|exact Hp].
    exists [EvFetch (AiPoweredAnalysisStrategy.ollamaUrl self +:+ "/api/generate"); EvEvaluate; EvFetch (AiPoweredAnalysisStrategy.ollamaUrl self +:+ "/api/tags")]. reflexivity.
  - failure_post.
Qed.

Lemma strategy_heal_post (w : World) (s : Strategy) (sel : string)
      (options : HealingStrategyOptions) (log log' : Log) (r : HealingResult) :
  strategy_heal w s sel options log = (r, log') -> strategy_post w log r log'.
Proof.
  destruct s; cbn [strategy_heal].
  - apply DataTestIdRecovery_heal_post.
  - apply TextContentMatching_heal_post.
  - apply CssHierarchyAnalysis_heal_post.
  - apply AiPoweredAnalysis_heal_post.
Qed.

(** ** The engine: what one call of [heal] does *)

Lemma with_log_inv {A : Type} (m : M Log A) (e e' : HealingEngine) (log log' : Log) (a : A) :
  with_log m (e, log) = (a, (e', log')) -> e' = e /\ m log = (a, log').
Proof.
  unfold with_log. cbn [fst snd]. destruct (m log) as [a0 log0].
  now intros [= -> -> ->].
Qed.

Lemma commit_inv (sel : string) (strategyName : HealingStrategy) (r : HealingResult)
      (e e' : HealingEngine) (log log' : Log) (u : unit) :
  commit sel strategyName r (e, log) = (u, (e', log')) ->
  log' = log /\ config e' = config e /\ registry e' = registry e /\
  cache e' = (if cfg_cacheHealing (config e)
              then <[sel := fresh_entry sel strategyName r (length log)]> (cache e)
              else cache e).
Proof.
  unfold commit, bind, get_engine, now, trackSuccess, set_tracker, set_cache,
    update_engine, ret. cbn [fst snd].
  destruct (cfg_cacheHealing (config e)); intros [= <- <- <-]; auto.
Qed.

Lemma try_strategies_post (w : World) (sel : string) (options : HealingStrategyOptions)
      (names : list HealingStrategy) (last : option HealingResult)
      (e e' : HealingEngine) (log log' : Log)
      (res : HealingResult + option HealingResult) :
  failed_result last ->
  try_strategies w sel options names last (e, log) = (res, (e', log')) ->
  loop_post w sel e log res e' log'.
Proof.
  revert last log. induction names as [|strategyName rest IH]; intros last log Hlast;
    cbn [try_strategies]; intros H.
  - apply ret_inv in H as [<- [= <- <-]].
    repeat apply conj; auto using extends_refl.
  - unfold bind at 1, get_engine in H. cbn [fst] in H.
    destruct (assoc_get strategyName (registry e)) as [strategy_|]; [|eauto].
    apply bind_inv in H as ([] & [e1 log1] & Hev & H).
    apply with_log_inv in Hev as [-> [= <-]].
    apply bind_inv in H as (result & [e2 log2] & Hheal & H).
    apply with_log_inv in Hheal as [-> Hheal].
    apply strategy_heal_post in Hheal as (Hext & Hmd & Hprobed).
    assert (extends log log2) as Hext'
      by (eapply extends_trans; [apply extends_cons|exact Hext]).
    destruct (success result) eqn:Hsuccess.
    + apply bind_inv in H as ([] & [e3 log3] & Hcommit & H).
      apply ret_inv in H as [<- [= <- <-]].
      apply commit_inv in Hcommit as (-> & Hc & Hr & Hcache).
      repeat apply conj; auto.
      * eapply probed_from_earlier; [apply extends_cons|auto].
      * eauto.
    + apply IH in H.
      * destruct H as (Hext2 & Hc & Hr & Hres).
        repeat apply conj; auto. eapply extends_trans; [exact Hext'|exact Hext2].
        destruct res as [r|last']; [|exact Hres].
        destruct Hres as (Hs & Hm & Hp & Hcache). repeat apply conj; auto.
        eapply probed_from_earlier; [exact Hext'|exact Hp].
      * intros r [= <-]. auto.
Qed.

Lemma delay_inv (ms : Z) (e e' : HealingEngine) (log log' : Log) (u : unit) :
  delay ms (e, log) = (u, (e', log')) -> e' = e /\ log' = EvDelay ms :: log.
Proof. unfold delay, with_log. cbn [fst snd]. now intros [= <- <-]. Qed.

Lemma attempts_post (w : World) (sel : string) (options : HealingStrategyOptions)
      (remaining attempt : nat) (last : option HealingResult)
      (e e' : HealingEngine) (log log' : Log)
      (res : HealingResult + option HealingResult) :
  failed_result last ->
  attempts w sel options remaining attempt last (e, log) = (res, (e', log')) ->
  loop_post w sel e log res e' log'.
Proof.
  revert attempt last e log.
  induction remaining as [|remaining IH]; intros attempt last e log Hlast;
    cbn [attempts]; intros H.
  - apply ret_inv in H as [<- [= <- <-]]. repeat apply conj; auto using extends_refl.
  - unfold bind at 1, get_engine in H. cbn [fst] in H.
    apply bind_inv in H as (tried & [e1 log1] & Htry & H).
    apply try_strategies_post in Htry as (Hext & Hc & Hr & Htried); [|exact Hlast].
    destruct tried as [result|last1].
    + apply ret_inv in H as [<- [= <- <-]]. repeat apply conj; tauto.
    + destruct Htried as (Hcache & Htracker & Hlast1).
      apply bind_inv in H as ([] & [e2 log2] & Hdelay & H).
      assert (e2 = e1 /\ extends log1 log2) as [-> Hext2].
      { destruct (attempt + 1 <? cfg_maxAttempts (config e)).
        - apply delay_inv in Hdelay as [-> ->]. auto using extends_cons.
        - apply ret_inv in Hdelay as [_ [= <- <-]]. auto using extends_refl. }
      apply IH in H; [|exact Hlast1].
      destruct H as (Hext3 & Hc3 & Hr3 & Hres).
      assert (extends log log2) as Hext12 by (eapply extends_trans; eauto).
      repeat apply conj; try congruence.
      * eapply extends_trans; eauto.
      * destruct res as [r|last'].
        -- destruct Hres as (Hs & Hm & Hp & strategyName & t & Hcache').
           repeat apply conj; auto.
           ++ eapply probed_from_earlier; [exact Hext12|exact Hp].
           ++ exists strategyName, t. now rewrite Hcache', Hc, Hcache.
        -- destruct Hres as (Hcache' & Htracker' & Hlast').
           split; [congruence|]. split; [congruence|exact Hlast'].
Qed.

(** The cache check either answers from a revalidated entry, or leaves the
    engine as it was (no entry, or caching off), or evicts the entry whose
    healed selector failed the probe. *)
Lemma check_cache_inv (w : World) (sel : string) (e e' : HealingEngine)
      (log log' : Log) (res : option HealingResult) :
  check_cache w sel (e, log) = (res, (e', log')) ->
  config e' = config e /\ registry e' = registry e /\
  flakinessTracker e' = flakinessTracker e /\
  match res with
  | Some r =>
      exists cached,
        cfg_cacheHealing (config e) = true /\ cache e !! sel = Some cached /\
        r = cached_result (used cached) /\
        cache e' = <[sel := used cached]> (cache e) /\
        log' = EvProbe (entry_healed cached) true :: log /\
        fst (checkSelectorExists w (entry_healed cached) log) = true /\
        probed w log log' (entry_healed cached)
  | None =>
      ((cfg_cacheHealing (config e) = false \/ cache e !! sel = None) /\
       e' = e /\ log' = log) \/
      (exists cached,
         cfg_cacheHealing (config e) = true /\ cache e !! sel = Some cached /\
         cache e' = delete sel (cache e) /\
         fst (checkSelectorExists w (entry_healed cached) log) = false /\
         log' = EvProbe (entry_healed cached) false :: log)
  end.
Proof.
  unfold check_cache. unfold bind at 1, get_engine. cbn [fst].
  destruct (cfg_cacheHealing (config e)) eqn:Hcaching.
  2:{ intros H. apply ret_inv in H as [<- [= <- <-]]. intuition. }
  destruct (cache e !! sel) as [cached|] eqn:Hlookup.
  2:{ intros H. apply ret_inv in H as [<- [= <- <-]]. intuition. }
  intros H. apply bind_inv in H as ([] & [e1 log1] & Hset & H).
  unfold set_cache, update_engine in Hset. cbn [fst snd] in Hset.
  injection Hset as <- <-.
  apply bind_inv in H as (b & [e2 log2] & Hcheck & H).
  apply with_log_inv in Hcheck as [-> Hcheck].
  assert (fst (checkSelectorExists w (entry_healed (used cached)) log) = b) as Hb
    by now rewrite Hcheck.
  apply checkSelectorExists_inv in Hcheck as [-> Hprobed].
  destruct b.
  - apply ret_inv in H as [<- [= <- <-]]. cbn [config registry flakinessTracker cache].
    repeat apply conj; auto. exists cached. auto 8.
  - apply bind_inv in H as ([] & [e3 log3] & Hdel & H).
    apply ret_inv in H as [<- [= <- <-]].
    unfold set_cache, update_engine in Hdel. cbn [fst snd] in Hdel.
    injection Hdel as <- <-. cbn [config registry flakinessTracker cache].
    repeat apply conj; auto. right. exists cached.
    repeat apply conj; auto. apply delete_insert_eq.
Qed.

Lemma heal_paths (w : World) (sel : string) (options : HealingStrategyOptions)
      (e e' : HealingEngine) (log log' : Log) (r : HealingResult) :
  heal w sel options (e, log) = (r, (e', log')) ->
  heal_path w sel e log r e' log'.
Proof.
  unfold heal. unfold bind at 1, get_engine. cbn [fst].
  destruct (cfg_enabled (config e)) eqn:Henabled; cbn [negb].
  2:{ intros H. apply ret_inv in H as [<- [= <- <-]]. now apply path_disabled. }
  intros H. apply bind_inv in H as (from_cache & [e1 log1] & Hcheck & H).
  pose proof (check_cache_inv _ _ _ _ _ _ _ Hcheck) as (Hc1 & Hr1 & Ht1 & Hcases).
  destruct from_cache as [result|].
  { apply ret_inv in H as [<- [= <- <-]].
    destruct Hcases as (cached & Hcaching & Hlookup & -> & Hcache & -> & Hb & Hp).
    eapply path_cached; eauto. }
  assert (extends log log1) as Hext1.
  { destruct Hcases as [(_ & _ & ->)|(cached & _ & _ & _ & _ & ->)];
      auto using extends_refl, extends_cons. }
  apply bind_inv in H as (b & [e2 log2] & Hprobe & H).
  apply with_log_inv in Hprobe as [-> Hprobe].
  apply checkSelectorExists_inv in Hprobe as [-> Hprobed].
  destruct b.
  { apply bind_inv in H as ([] & [e3 log3] & Htrack & H).
    apply ret_inv in H as [<- [= <- <-]].
    unfold trackSuccess, set_tracker, update_engine in Htrack. cbn [fst snd] in Htrack.
    injection Htrack as <- <-.
    eapply path_resolves; eauto.
    eapply probed_from_earlier; [exact Hext1|auto]. }
  apply bind_inv in H as (healed & [e3 log3] & Hloop & H).
  apply attempts_post in Hloop as (Hext3 & Hc3 & Hr3 & Hres); [|intros r0; discriminate].
  destruct healed as [result|last].
  - apply ret_inv in H as [<- [= <- <-]].
    destruct Hres as (Hs & Hm & Hp & strategyName & t & Hcache).
    eapply (path_healed _ _ _ _ _ _ _ e1 log1 strategyName t); eauto.
    + eapply probed_from_earlier; [|exact Hp].
      eapply extends_trans; [exact Hext1|apply extends_cons].
    + now rewrite Hcache, Hc1.
  - apply bind_inv in H as ([] & [e4 log4] & Htrack & H).
    apply ret_inv in H as [<- [= <- <-]].
    unfold trackFailure, set_tracker, update_engine in Htrack. cbn [fst snd] in Htrack.
    injection Htrack as <- <-.
    destruct Hres as (Hcache & _ & Hlast).
    destruct last as [r0|]; cbn [default].
    + destruct (Hlast r0 eq_refl) as [Hs Hm].
      eapply path_failed; eauto.
    + eapply path_failed; eauto.
Qed.

(** ** Success means validated (claim C2) *)

(** C2: when [heal] returns a result with [success = true], the selector it
    returns was probed during that call and the driver reported a count of
    at least 1, whether the result comes from the cache, from the selector
    that already resolves, or from a strategy. *)
Theorem heal_success_validated (w : World) (sel : string)
        (options : HealingStrategyOptions) (e e' : HealingEngine) (log log' : Log)
        (r : HealingResult) :
  heal w sel options (e, log) = (r, (e', log')) ->
  success r = true ->
  probed w log log' (selector r).
Proof.
  intros H Hsuccess. apply heal_paths in H.
  destruct H as [? -> | | ? ? ? ? -> | | ]; try assumption; try discriminate.
  congruence.
Qed.

(** ** Eviction of a stale cache entry (claim C3) *)

(** C3: when [heal] finds a cache entry for the broken selector and the
    healed selector of the entry fails the probe, the entry is deleted
    during the call: the cache check ends with the cache without the key.
    When the call returns, the cache is that cache, or that cache with the
    entry written for a strategy success of this same call. *)
Theorem stale_cache_entry_evicted (w : World) (sel : string)
        (options : HealingStrategyOptions) (e e' : HealingEngine) (log log' : Log)
        (r : HealingResult) (cached : HealingCacheEntry) :
  cfg_enabled (config e) = true ->
  cfg_cacheHealing (config e) = true ->
  cache e !! sel = Some cached ->
  fst (checkSelectorExists w (entry_healed cached) log) = false ->
  heal w sel options (e, log) = (r, (e', log')) ->
  (exists e1 log1,
     check_cache w sel (e, log) = (None, (e1, log1)) /\
     cache e1 = delete sel (cache e) /\ cache e1 !! sel = None) /\
  metadata_cached r = false /\
  (cache e' = delete sel (cache e) \/
   exists strategyName t,
     success r = true /\ probed w log log' (selector r) /\
     cache e' = <[sel := fresh_entry sel strategyName r t]> (delete sel (cache e))).
Proof.
  intros Henabled Hcaching Hlookup Hstale H.
  assert (forall e1 log1,
            check_cache w sel (e, log) = (None, (e1, log1)) ->
            cache e1 = delete sel (cache e)) as Hevict.
  { intros e1 log1 Hcheck.
    apply check_cache_inv in Hcheck as (_ & _ & _ & [([Hc|Hc] & _)|Hc]);
      [congruence|congruence|].
    destruct Hc as (cached' & _ & _ & Hcache & _). exact Hcache. }
  apply heal_paths in H.
  destruct H as [Hd| cached' _ _ Hl _ _ _ Hb _
                | e1 log1 _ Hcheck -> Hcache _ _
                | e1 log1 strategyName t _ Hcheck Hs Hm Hp Hcache
                | e1 log1 _ Hcheck Hs Hm Hcache].
  - congruence.
  - assert (cached' = cached) as -> by congruence. congruence.
  - pose proof (Hevict _ _ Hcheck) as He1.
    split; [exists e1, log1; split; [exact Hcheck|]; split; [exact He1|];
            rewrite He1; apply lookup_delete_eq|].
    split; [reflexivity|]. left. congruence.
  - pose proof (Hevict _ _ Hcheck) as He1.
    split; [exists e1, log1; split; [exact Hcheck|]; split; [exact He1|];
            rewrite He1; apply lookup_delete_eq|].
    split; [exact Hm|]. right. exists strategyName, t.
    rewrite Hcaching, He1 in Hcache. auto.
  - pose proof (Hevict _ _ Hcheck) as He1.
    split; [exists e1, log1; split; [exact Hcheck|]; split; [exact He1|];
            rewrite He1; apply lookup_delete_eq|].
    split; [exact Hm|]. left. congruence.
Qed.

(** ** A selector that already resolves (claim C4) *)

Lemma check_cache_miss (w : World) (sel : string) (e : HealingEngine) (log : Log) :
  cache e !! sel = None -> check_cache w sel (e, log) = (None, (e, log)).
Proof.
  intros Hlookup. unfold check_cache.
  rewrite (bind_eq get_engine _ (e, log) e (e, log)) by reflexivity.
  rewrite Hlookup. now destruct (cfg_cacheHealing (config e)).
Qed.

(** C4, as amended: on an engine with healing enabled, for a selector
    without cache entry that the driver reports present, [heal] returns the
    success result for the original selector with confidence 1 and
    [noHealingNeeded]; the only event of the call is the probe of that
    selector, so no strategy is invoked, and the cache is left as it was. *)
Theorem resolving_selector_needs_no_healing (w : World) (sel : string)
        (options : HealingStrategyOptions) (e : HealingEngine) (log : Log) (n : nat) :
  cfg_enabled (config e) = true ->
  cache e !! sel = None ->
  locator_count w (length log) sel = Ok n ->
  0 < n ->
  exists e',
    heal w sel options (e, log)
    = ({| success := true; selector := sel; confidence := 1%Q;
          strategy := data_testid_recovery; alternatives := [];
          error := None; metadata := Some MdNoHealingNeeded |},
       (e', EvProbe sel true :: log)) /\
    cache e' = cache e /\ config e' = config e /\ registry e' = registry e /\
    (forall name, ~ In (EvStrategy name) [EvProbe sel true]).
Proof.
  intros Henabled Hlookup Hcount Hn.
  pose proof (check_cache_miss w sel e log Hlookup) as Hmiss.
  assert (with_log (checkSelectorExists w sel) (e, log)
          = (true, (e, EvProbe sel true :: log))) as Hprobe.
  { unfold with_log, checkSelectorExists, clock, resolves_at. cbn [fst snd]. rewrite Hcount.
    apply Nat.ltb_lt in Hn. now rewrite Hn. }
  eexists. split.
  - unfold heal. rewrite (bind_eq get_engine _ (e, log) e (e, log)) by reflexivity.
    rewrite Henabled. cbn [negb].
    rewrite (bind_eq _ _ _ _ _ Hmiss), (bind_eq _ _ _ _ _ Hprobe).
    reflexivity.
  - cbn [cache config registry]. repeat apply conj; auto.
    intros name [H|[]]. discriminate.
Qed.

(** ** [clearCache] (claim C8) *)

(** A result marked [cached] needs an entry for the selector. *)
Lemma cached_result_needs_entry (w : World) (sel : string)
      (options : HealingStrategyOptions) (st : State) :
  metadata_cached (fst (heal w sel options st)) = true ->
  is_Some (cache (fst st) !! sel).
Proof.
  destruct st as [e log]. destruct (heal w sel options (e, log)) as [r [e' log']] eqn:H.
  cbn [fst]. intros Hcached. apply heal_paths in H.
  destruct H as [? -> | cached _ _ Hl | ? ? ? ? -> | | ]; try discriminate; try congruence.
  eauto.
Qed.

(** C8, as amended: [clearCache] empties the healing cache and nothing
    else.  After it, no [heal] reports [cached] as long as the cache has no
    entry for the selector; the flakiness counters, and so the list that
    [getFlakinessStats] returns, are the ones from before. *)
Theorem clearCache_clears_the_cache_only (st : State) :
  let st' := snd (clearCache st) in
  cache (fst st') = ∅ /\
  (forall w sel options, metadata_cached (fst (heal w sel options st')) = false) /\
  flakinessTracker (fst st') = flakinessTracker (fst st) /\
  getFlakinessStats (fst st') = getFlakinessStats (fst st) /\
  config (fst st') = config (fst st) /\ registry (fst st') = registry (fst st) /\
  snd st' = snd st.
Proof.
  destruct st as [e log]. cbv zeta.
  unfold clearCache, set_cache, update_engine. cbn [fst snd cache flakinessTracker].
  repeat apply conj; auto.
  intros w sel options.
  destruct (metadata_cached _) eqn:Hcached; [|reflexivity].
  apply cached_result_needs_entry in Hcached. cbn [fst cache] in Hcached.
  rewrite lookup_empty in Hcached. now destruct Hcached.
Qed.

(** ** The scenarios *)

(** The theorem of C2 on the first call of the CSS scenario. *)
Lemma heal_success_validated_witness :
  probed Scenario.button_page [] (snd (snd Scenario.first_heal))
         (selector (fst Scenario.first_heal)).
Proof.
  apply (heal_success_validated Scenario.button_page Scenario.css_broken no_options
           (Scenario.engine Scenario.button_page empty_config)
           (fst (snd Scenario.first_heal)) [] (snd (snd Scenario.first_heal))
           (fst Scenario.first_heal)).
  - vm_compute. reflexivity.
  - vm_compute. reflexivity.
Defined.

(** The entry that the first call of the CSS scenario leaves in the cache. *)
Example first_heal_cache :
  cache (fst (snd Scenario.first_heal)) !! Scenario.css_broken
  = Some {| entry_original := Scenario.css_broken; entry_healed := "button";
            entry_confidence := (5 # 10)%Q; entry_strategy := css_hierarchy_analysis;
            entry_timestamp := 12; entry_useCount := 1 |}.
Proof. vm_compute. reflexivity. Qed.

(** The theorem of C3 on the second call of the CSS scenario, made after
    the page has lost its button. *)
Lemma stale_cache_entry_evicted_witness :
  let e := fst (snd Scenario.first_heal) in
  let log := snd (snd Scenario.first_heal) in
  let r := fst Scenario.heal_after_drift in
  let e' := fst (snd Scenario.heal_after_drift) in
  let log' := snd (snd Scenario.heal_after_drift) in
  (exists e1 log1,
     check_cache Scenario.blank_world Scenario.css_broken (e, log) = (None, (e1, log1)) /\
     cache e1 = delete Scenario.css_broken (cache e) /\
     cache e1 !! Scenario.css_broken = None) /\
  metadata_cached r = false /\
  (cache e' = delete Scenario.css_broken (cache e) \/
   exists strategyName t,
     success r = true /\ probed Scenario.blank_world log log' (selector r) /\
     cache e' = <[Scenario.css_broken :=
                    fresh_entry Scenario.css_broken strategyName r t]>
                  (delete Scenario.css_broken (cache e))).
Proof.
  cbv zeta.
  apply (stale_cache_entry_evicted Scenario.blank_world Scenario.css_broken no_options
           (fst (snd Scenario.first_heal)) (fst (snd Scenario.heal_after_drift))
           (snd (snd Scenario.first_heal)) (snd (snd Scenario.heal_after_drift))
           (fst Scenario.heal_after_drift)
           {| entry_original := Scenario.css_broken; entry_healed := "button";
              entry_confidence := (5 # 10)%Q; entry_strategy := css_hierarchy_analysis;
              entry_timestamp := 12; entry_useCount := 1 |}).
  - reflexivity.
  - reflexivity.
  - vm_compute. reflexivity.
  - reflexivity.
  - vm_compute. reflexivity.
Defined.

Example drifted_cache_is_empty :
  cache (fst (snd Scenario.heal_after_drift)) !! Scenario.css_broken = None /\
  success (fst Scenario.heal_after_drift) = false.
Proof. vm_compute. split; reflexivity. Qed.

(** The first concrete scenario of the specification: the ID is found
    under another attribute, with the confidence of an exact match. *)
Example testid_scenario :
  let r := fst (heal Scenario.testid_page Scenario.testid_broken no_options
                     (Scenario.engine Scenario.testid_page empty_config, [])) in
  success r = true /\
  selector r = "[data-cy=" +:+ quoted "submit-btn-old" +:+ "]" /\
  strategy r = data_testid_recovery /\
  confidence r = (95 # 100)%Q /\
  metadata r = Some (MdTestId "submit-btn-old" "submit-btn-old" "exact").
Proof. vm_compute. repeat split; reflexivity. Qed.

(** The theorem of C4 on the button of the CSS scenario. *)
Lemma resolving_selector_needs_no_healing_witness :
  exists e',
    heal Scenario.button_page "button" no_options
         (Scenario.engine Scenario.button_page empty_config, [])
    = ({| success := true; selector := "button"; confidence := 1%Q;
          strategy := data_testid_recovery; alternatives := [];
          error := None; metadata := Some MdNoHealingNeeded |},
       (e', [EvProbe "button" true])) /\
    cache e' = cache (Scenario.engine Scenario.button_page empty_config) /\
    config e' = config (Scenario.engine Scenario.button_page empty_config) /\
    registry e' = registry (Scenario.engine Scenario.button_page empty_config) /\
    (forall name, ~ In (EvStrategy name) [EvProbe "button" true]).
Proof.
  apply (resolving_selector_needs_no_healing Scenario.button_page "button" no_options
           (Scenario.engine Scenario.button_page empty_config) [] 1).
  - reflexivity.
  - reflexivity.
  - reflexivity.
  - lia.
Defined.

(** C4, as stated, fails: on an engine with healing disabled, [heal]
    answers [Healing is disabled] for a selector that resolves and has no
    cache entry, without probing the page. *)
Lemma disabled_engine_does_not_look_at_the_page :
  let c := {| enabled := Some false; strategies := None; maxAttempts := None;
              cacheHealing := None; ollama := None; retry := None; telemetry := None |} in
  let e := Scenario.engine Scenario.button_page c in
  new_HealingEngine Scenario.button_page c = Ok e /\
  cache e !! "button" = None /\
  locator_count Scenario.button_page 0 "button" = Ok 1 /\
  heal Scenario.button_page "button" no_options (e, [])
  = ({| success := false; selector := "button"; confidence := 0%Q;
        strategy := data_testid_recovery; alternatives := [];
        error := Some "Healing is disabled"; metadata := None |},
     (e, [])) /\
  success (fst (heal Scenario.button_page "button" no_options (e, []))) <> true /\
  metadata_noHealingNeeded (fst (heal Scenario.button_page "button" no_options (e, [])))
  <> true.
Proof.
  cbv zeta. split; [reflexivity|]. split; [reflexivity|]. split; [reflexivity|].
  split; [reflexivity|]. split; vm_compute; discriminate.
Qed.

(** C8, as stated, fails: after a call of [heal] that found nothing,
    [clearCache] leaves the failure counted and [getFlakinessStats] lists it. *)
Lemma flakiness_survives_clearCache :
  let st := snd (clearCache (snd Scenario.failed_heal)) in
  success (fst Scenario.failed_heal) = false /\
  cache (fst st) = ∅ /\
  flakinessTracker (fst st) = [("#missing", {| successes := 0; failures := 1 |})] /\
  map stat_selector (getFlakinessStats (fst st)) = ["#missing"] /\
  getFlakinessStats (fst st) <> [].
Proof.
  cbv zeta. split; [reflexivity|]. split; [reflexivity|]. split; [reflexivity|].
  split; [reflexivity|]. vm_compute. discriminate.
Qed.

(** ** The CSS scenario (claim C6) *)

(** One step of the loops, as equations. *)
Lemma test_candidates_absent (w : World) (c : CssHierarchyAnalysisStrategy.candidate)
      (rest valid : list CssHierarchyAnalysisStrategy.candidate) (log : Log) :
  resolves_at w (length log) (CssHierarchyAnalysisStrategy.cand_selector c) = false ->
  CssHierarchyAnalysisStrategy.test_candidates w (c :: rest) valid log
  = CssHierarchyAnalysisStrategy.test_candidates w rest valid
      (EvProbe (CssHierarchyAnalysisStrategy.cand_selector c) false :: log).
Proof.
  intros H. cbn [CssHierarchyAnalysisStrategy.test_candidates].
  unfold bind, checkSelectorExists, clock. now rewrite H.
Qed.

Lemma test_candidates_present (w : World) (c : CssHierarchyAnalysisStrategy.candidate)
      (rest : list CssHierarchyAnalysisStrategy.candidate) (log : Log) :
  resolves_at w (length log) (CssHierarchyAnalysisStrategy.cand_selector c) = true ->
  CssHierarchyAnalysisStrategy.test_candidates w (c :: rest) [] log
  = (inl c, EvProbe (CssHierarchyAnalysisStrategy.cand_selector c) true :: log).
Proof.
  intros H. cbn [CssHierarchyAnalysisStrategy.test_candidates].
  unfold bind, checkSelectorExists, clock. now rewrite H.
Qed.

Lemma try_strategies_next (w : World) (sel : string) (options : HealingStrategyOptions)
      (strategyName : HealingStrategy) (rest : list HealingStrategy)
      (last : option HealingResult) (e : HealingEngine) (log log' : Log)
      (s : Strategy) (r : HealingResult) :
  assoc_get strategyName (registry e) = Some s ->
  strategy_heal w s sel options (EvStrategy strategyName :: log) = (r, log') ->
  success r = false ->
  try_strategies w sel options (strategyName :: rest) last (e, log)
  = try_strategies w sel options rest (Some r) (e, log').
Proof.
  intros Hget Hheal Hfail. cbn [try_strategies].
  unfold bind at 1, get_engine. cbn [fst]. rewrite Hget.
  unfold bind at 1, with_log at 1. cbn [fst snd].
  unfold bind at 1, with_log at 1. cbn [fst snd].
  now rewrite Hheal, Hfail.
Qed.

Lemma try_strategies_done (w : World) (sel : string) (options : HealingStrategyOptions)
      (strategyName : HealingStrategy) (rest : list HealingStrategy)
      (last : option HealingResult) (e : HealingEngine) (log log' : Log)
      (s : Strategy) (r : HealingResult) :
  assoc_get strategyName (registry e) = Some s ->
  strategy_heal w s sel options (EvStrategy strategyName :: log) = (r, log') ->
  success r = true ->
  fst (try_strategies w sel options (strategyName :: rest) last (e, log)) = inl r.
Proof.
  intros Hget Hheal Hok. cbn [try_strategies].
  unfold bind at 1, get_engine. cbn [fst]. rewrite Hget.
  unfold bind at 1, with_log at 1. cbn [fst snd].
  unfold bind at 1, with_log at 1. cbn [fst snd].
  rewrite Hheal, Hok. unfold bind. now destruct (commit _ _ _ _).
Qed.

(** The candidates of the CSS strategy for the broken selector of the
    scenario, in the order in which they are probed. *)
Example css_scenario_candidates :
  map (fun c => (CssHierarchyAnalysisStrategy.cand_selector c,
                 CssHierarchyAnalysisStrategy.cand_reason c))
      (CssHierarchyAnalysisStrategy.generateAlternatives
         (CssHierarchyAnalysisStrategy.analyzeSelector Scenario.css_broken))
  = [ ("div#app > main.content > section > button#submit", "removed-nth-child");
      ("div > main.content > section:nth-child(3) > button", "removed-ids");
      ("button.content", "element-with-classes");
      ("> button#submit", "simplified-hierarchy");
      ("div.content", "first-element-first-class");
      (".content", "class-only");
      ("div#app > > > main.content > > > section:nth-child(3) > > > button#submit",
       "direct-child");
      ("button", "last-element-only");
      ("div#app > main.content > section:nth-child(3) >", "parent-element") ].
Proof. vm_compute. reflexivity. Qed.

Section CssScenario.
Variable w : World.

(** On the page of the scenario the broken selector and its rewritings that
    still name [div], [main], [.content] or [#submit] do not resolve, and
    [button] does. *)
Hypothesis absent :
  forall t sel,
    In sel [ Scenario.css_broken;
             "div#app > main.content > section > button#submit";
             "div > main.content > section:nth-child(3) > button";
             "button.content"; "> button#submit"; "div.content"; ".content";
             "div#app > > > main.content > > > section:nth-child(3) > > > button#submit" ] ->
    resolves_at w t sel = false.
Hypothesis present : forall t, resolves_at w t "button" = true.

Ltac listed := cbn [In]; repeat first [left; reflexivity | right].

Lemma css_scenario_strategy (log : Log) :
  fst (CssHierarchyAnalysisStrategy.heal w Scenario.css_broken log)
  = {| success := true; selector := "button"; confidence := (5 # 10)%Q;
       strategy := css_hierarchy_analysis;
       alternatives :=
         [ "div#app > main.content > section > button#submit";
           "div > main.content > section:nth-child(3) > button";
           "button.content"; "> button#submit"; "div.content"; ".content";
           "div#app > > > main.content > > > section:nth-child(3) > > > button#submit";
           "div#app > main.content > section:nth-child(3) >" ];
       error := None;
       metadata := Some (MdCss Scenario.css_broken "last-element-only") |}.
Proof.
  unfold CssHierarchyAnalysisStrategy.heal.
  match goal with
  | |- context [CssHierarchyAnalysisStrategy.generateAlternatives ?a] =>
      let candidates :=
        eval vm_compute in (CssHierarchyAnalysisStrategy.generateAlternatives a) in
      replace (CssHierarchyAnalysisStrategy.generateAlternatives a) with candidates
        by (vm_compute; reflexivity)
  end.
  unfold bind.
  do 7 (rewrite test_candidates_absent by (apply absent; listed)).
  rewrite test_candidates_present by apply present.
  vm_compute. reflexivity.
Qed.

Lemma attempts_first_success (sel : string) (options : HealingStrategyOptions)
      (remaining attempt : nat) (last : option HealingResult) (e : HealingEngine)
      (log : Log) (r : HealingResult) :
  fst (try_strategies w sel options (cfg_strategies (config e)) last (e, log)) = inl r ->
  fst (attempts w sel options (S remaining) attempt last (e, log)) = inl r.
Proof.
  intros H. cbn [attempts]. unfold bind at 1, get_engine. cbn [fst].
  unfold bind at 1. destruct (try_strategies _ _ _ _ _ _) as [tried st].
  cbn [fst] in H. now rewrite H.
Qed.

Lemma heal_after_miss (sel : string) (options : HealingStrategyOptions)
      (e : HealingEngine) (log : Log) (r : HealingResult) :
  cfg_enabled (config e) = true ->
  cache e !! sel = None ->
  resolves_at w (length log) sel = false ->
  fst (attempts w sel options (cfg_maxAttempts (config e)) 0 None
                (e, EvProbe sel false :: log)) = inl r ->
  fst (heal w sel options (e, log)) = r.
Proof.
  intros Henabled Hlookup Hprobe H.
  unfold heal. rewrite (bind_eq get_engine _ (e, log) e (e, log)) by reflexivity.
  rewrite Henabled. cbn [negb].
  rewrite (bind_eq _ _ _ _ _ (check_cache_miss w sel e log Hlookup)).
  assert (with_log (checkSelectorExists w sel) (e, log)
          = (false, (e, EvProbe sel false :: log))) as Hcheck.
  { unfold with_log, checkSelectorExists, clock. cbn [fst snd]. now rewrite Hprobe. }
  rewrite (bind_eq _ _ _ _ _ Hcheck). unfold bind at 1.
  destruct (attempts _ _ _ _ _ _ _) as [healed st]. cbn [fst] in H. now rewrite H.
Qed.

(** C6, as amended: for the broken selector of the scenario, on a page
    where that selector and its rewritings that still name [div], [main],
    [.content] or [#submit] do not resolve and [button] does, a freshly
    constructed engine heals through the CSS Hierarchy strategy with the
    last-element-only transform, and returns the selector [button] with
    confidence 0.5. *)
Theorem css_scenario_heals_to_button (e : HealingEngine) (log : Log) :
  new_HealingEngine w empty_config = Ok e ->
  fst (heal w Scenario.css_broken no_options (e, log))
  = {| success := true; selector := "button"; confidence := (5 # 10)%Q;
       strategy := css_hierarchy_analysis;
       alternatives :=
         [ "div#app > main.content > section > button#submit";
           "div > main.content > section:nth-child(3) > button";
           "button.content"; "> button#submit"; "div.content"; ".content";
           "div#app > > > main.content > > > section:nth-child(3) > > > button#submit";
           "div#app > main.content > section:nth-child(3) >" ];
       error := None;
       metadata := Some (MdCss Scenario.css_broken "last-element-only") |}.
Proof.
  intros Hnew.
  apply new_HealingEngine_registry in Hnew as (ai & Hregistry & Hconfig & Hcache & _).
  apply heal_after_miss.
  - now rewrite Hconfig.
  - rewrite Hcache. apply lookup_empty.
  - apply absent. listed.
  - rewrite Hconfig. cbn [mergeWithDefaults cfg_maxAttempts empty_config default maxAttempts].
    apply attempts_first_success.
    rewrite Hconfig. cbn [mergeWithDefaults cfg_strategies empty_config default strategies].
    erewrite try_strategies_next;
      [|rewrite Hregistry; reflexivity|vm_compute; reflexivity|reflexivity].
    erewrite try_strategies_next;
      [|rewrite Hregistry; reflexivity|vm_compute; reflexivity|reflexivity].
    destruct (strategy_heal w CssStrategy Scenario.css_broken no_options
                (EvStrategy css_hierarchy_analysis
                   :: EvStrategy text_content_matching
                   :: EvStrategy data_testid_recovery
                   :: EvProbe Scenario.css_broken false :: log)) as [r log'] eqn:Hcss.
    pose proof (css_scenario_strategy
                  (EvStrategy css_hierarchy_analysis
                     :: EvStrategy text_content_matching
                     :: EvStrategy data_testid_recovery
                     :: EvProbe Scenario.css_broken false :: log)) as Hr.
    cbn [strategy_heal] in Hcss. rewrite Hcss in Hr. cbn [fst] in Hr. subst r.
    eapply try_strategies_done; [rewrite Hregistry; reflexivity|exact Hcss|reflexivity].
Qed.
End CssScenario.

(** The theorem on the page of the scenario. *)
Lemma css_scenario_heals_to_button_witness :
  fst (heal Scenario.button_page Scenario.css_broken no_options
            (Scenario.engine Scenario.button_page empty_config, []))
  = {| success := true; selector := "button"; confidence := (5 # 10)%Q;
       strategy := css_hierarchy_analysis;
       alternatives :=
         [ "div#app > main.content > section > button#submit";
           "div > main.content > section:nth-child(3) > button";
           "button.content"; "> button#submit"; "div.content"; ".content";
           "div#app > > > main.content > > > section:nth-child(3) > > > button#submit";
           "div#app > main.content > section:nth-child(3) >" ];
       error := None;
       metadata := Some (MdCss Scenario.css_broken "last-element-only") |}.
Proof.
  apply (css_scenario_heals_to_button Scenario.button_page).
  - intros t sel Hin. cbn [In] in Hin.
    repeat (destruct Hin as [<-|Hin]; [reflexivity|]). destruct Hin.
  - intros t. reflexivity.
  - reflexivity.
Defined.

(** C6, as stated, fails: on a page whose only element is a button of class
    [submit-btn], where [button.submit-btn] and [.submit-btn] would resolve,
    the engine returns [button]; the class [submit-btn] does not occur in the
    broken selector, and no candidate of the strategy names it. *)
Lemma css_scenario_never_proposes_submit_btn :
  let r := fst Scenario.first_heal in
  resolves_at Scenario.button_page 0 Scenario.css_broken = false /\
  resolves_at Scenario.button_page 0 "button.submit-btn" = true /\
  resolves_at Scenario.button_page 0 ".submit-btn" = true /\
  success r = true /\ strategy r = css_hierarchy_analysis /\
  selector r = "button" /\
  selector r <> "button.submit-btn" /\ selector r <> ".submit-btn" /\
  metadata r = Some (MdCss Scenario.css_broken "last-element-only") /\
  ~ In "button.submit-btn"
       (map CssHierarchyAnalysisStrategy.cand_selector
            (CssHierarchyAnalysisStrategy.generateAlternatives
               (CssHierarchyAnalysisStrategy.analyzeSelector Scenario.css_broken))) /\
  ~ In ".submit-btn"
       (map CssHierarchyAnalysisStrategy.cand_selector
            (CssHierarchyAnalysisStrategy.generateAlternatives
               (CssHierarchyAnalysisStrategy.analyzeSelector Scenario.css_broken))).
Proof.
  cbv zeta.
  assert (selector (fst Scenario.first_heal) = "button") as Hsel
      by (vm_compute; reflexivity).
  rewrite Hsel.
  repeat apply conj; try (vm_compute; reflexivity); try discriminate.
  - vm_compute. intuition discriminate.
  - vm_compute. intuition discriminate.
Qed.

(** ** Confidence of the strategies without LLM

    The three strategies that do not ask the LLM keep every candidate
    within the unit interval: their confidences are constants, similarities
    above a threshold, and sums clamped by [Math.min]. *)

Lemma Qnat_nonneg (n : nat) : (0 <= Qnat n)%Q.
Proof. unfold Qnat, Qle. simpl. lia. Qed.

Lemma Qnat_ratio_unit (a b : nat) : a <= b -> in_unit (Qnat a / Qnat b).
Proof.
  intros Hab. unfold in_unit, Qnat, Qdiv, Qmult, Qinv, Qle. simpl.
  destruct b as [|b]; simpl; [lia|].
  split; [lia|]. rewrite Z.mul_1_r, Pos.mul_1_l. lia.
Qed.

Lemma Qnat_ratio_nonneg (a b : nat) : (0 <= Qnat a / Qnat b)%Q.
Proof.
  unfold Qnat, Qdiv, Qmult, Qinv, Qle. simpl.
  destruct b as [|b]; simpl; lia.
Qed.

Lemma Qlt_bool_true (a b : Q) : Qlt_bool a b = true -> (a < b)%Q.
Proof.
  unfold Qlt_bool. intros H. apply negb_true_iff in H.
  apply Qnot_le_lt. intros Hle. apply Qle_bool_iff in Hle. congruence.
Qed.

Lemma Math_min_unit (a : Q) : (0 <= a)%Q -> in_unit (Math_min a 1).
Proof.
  intros Ha. unfold Math_min, in_unit.
  destruct (Qle_bool a 1) eqn:Hle.
  - apply Qle_bool_iff in Hle. auto.
  - split; [discriminate|apply Qle_refl].
Qed.

Lemma bonus_unit (b : bool) (c bonus : Q) :
  in_unit c -> (0 <= bonus)%Q -> in_unit (if b then Math_min (c + bonus) 1 else c).
Proof.
  intros Hc Hbonus. destruct b; [|exact Hc].
  apply Math_min_unit. destruct Hc as [Hc _]. lra.
Qed.

Lemma one_minus_ratio_le (d m : nat) : (1 - Qnat d / Qnat m <= 1)%Q.
Proof.
  pose proof (Qnat_ratio_nonneg d m) as H. lra.
Qed.

Lemma testid_similarity_le (s1 s2 : string) :
  (DataTestIdRecoveryStrategy.calculateSimilarity s1 s2 <= 1)%Q.
Proof.
  unfold DataTestIdRecoveryStrategy.calculateSimilarity.
  destruct (String.eqb _ _); [apply Qle_refl|].
  destruct (_ =? 0); [discriminate|].
  destruct (_ =? 0); [discriminate|].
  apply one_minus_ratio_le.
Qed.

(** Every candidate of the test-ID strategy has a confidence in [[0, 1]]. *)
Lemma testid_candidates_in_unit (originalTestId : string) (elements : list ElementInfo)
      (expectedType : option string) (c : DataTestIdRecoveryStrategy.candidate) :
  In c (DataTestIdRecoveryStrategy.findCandidates originalTestId elements expectedType) ->
  in_unit (DataTestIdRecoveryStrategy.cand_confidence c).
Proof.
  unfold DataTestIdRecoveryStrategy.findCandidates. intros H.
  apply sort_desc_In, in_concat in H as (cs & Hcs & Hc).
  apply in_map_iff in Hcs as (element & <- & _).
  unfold DataTestIdRecoveryStrategy.element_candidates in Hc.
  destruct (el_testId element) as [testId|]; [|destruct Hc].
  destruct (negb _); [destruct Hc|].
  destruct (Qlt_bool _ _) eqn:Hsim; [|destruct Hc].
  apply Qlt_bool_true in Hsim.
  pose proof (testid_similarity_le originalTestId testId) as Hle.
  destruct (DataTestIdRecoveryStrategy.classify _ _ _) as [confidence0 matchType] eqn:Hclass.
  assert (in_unit confidence0) as Hunit.
  { unfold DataTestIdRecoveryStrategy.classify in Hclass.
    repeat (destruct (_ : bool) in Hclass;
            [injection Hclass as <- _; split; discriminate|]).
    injection Hclass as <- _. split; [|exact Hle].
    apply Qlt_le_weak. eapply Qle_lt_trans; [|exact Hsim]. discriminate. }
  apply in_map_iff in Hc as (attr & <- & _). cbn.
  apply bonus_unit; [exact Hunit|discriminate].
Qed.

(** Every candidate of the CSS strategy has a confidence in [[0, 1]]. *)
Lemma css_candidates_in_unit (a : CssHierarchyAnalysisStrategy.analysis)
      (c : CssHierarchyAnalysisStrategy.candidate) :
  In c (CssHierarchyAnalysisStrategy.generateAlternatives a) ->
  in_unit (CssHierarchyAnalysisStrategy.cand_confidence c).
Proof.
  unfold CssHierarchyAnalysisStrategy.generateAlternatives. intros H.
  apply sort_desc_In, dedupe_by_In in H.
  unfold CssHierarchyAnalysisStrategy.pushed in H.
  repeat (apply in_app_or in H as [H|H]);
    repeat match type of H with
           | In _ (if ?b then _ else _) => destruct b
           | In _ (match ?l with [] => _ | _ :: _ => _ end) => destruct l
           end;
    cbn [In] in H;
    repeat match type of H with
           | _ \/ _ => destruct H as [H|H]
           | In _ (map _ _) => apply in_map_iff in H as (? & H & _)
           end;
    try contradiction; subst c; split; discriminate.
Qed.

Lemma remove_dups_length_le (l : list string) : length (remove_dups l) <= length l.
Proof.
  induction l as [|x l IH]; simpl; [lia|].
  destruct (decide_rel elem_of x l); simpl; lia.
Qed.

Lemma text_similarity_le (text1 text2 : string) :
  (TextContentMatchingStrategy.calculateTextSimilarity text1 text2 <= 1)%Q.
Proof.
  unfold TextContentMatchingStrategy.calculateTextSimilarity.
  set (s1 := JsString.trim (JsString.toLowerCase text1)).
  set (s2 := JsString.trim (JsString.toLowerCase text2)).
  destruct (String.eqb s1 s2); [apply Qle_refl|].
  assert (forall shorter longer : string,
            String.length shorter <= String.length longer ->
            ((85 # 100) + Qnat (String.length shorter) / Qnat (String.length longer)
                          * (15 # 100) <= 1)%Q) as Hcontains.
  { intros shorter longer Hlen.
    destruct (Qnat_ratio_unit _ _ Hlen) as [_ Hr]. lra. }
  assert (TextContentMatchingStrategy.levenshteinSimilarity s1 s2 <= 1)%Q as Hlev.
  { unfold TextContentMatchingStrategy.levenshteinSimilarity.
    destruct (_ || _); [discriminate|apply one_minus_ratio_le]. }
  assert (TextContentMatchingStrategy.wordOverlapSimilarity s1 s2 <= 1)%Q as Hwords.
  { unfold TextContentMatchingStrategy.wordOverlapSimilarity.
    destruct (_ || _); [discriminate|].
    apply Qnat_ratio_unit.
    etransitivity; [apply length_filter|].
    etransitivity; [apply remove_dups_length_le|]. lia. }
  destruct (String.length s1 <? String.length s2) eqn:Hlt.
  - apply Nat.ltb_lt in Hlt.
    destruct (JsString.includes s2 s1); [apply Hcontains; lia|].
    destruct (_ && _); assumption.
  - apply Nat.ltb_ge in Hlt.
    destruct (JsString.includes s1 s2); [apply Hcontains; lia|].
    destruct (_ && _); assumption.
Qed.

(** Every candidate of the text strategy has a confidence in [[0, 1]]. *)
Lemma text_candidates_in_unit (originalText : string) (elements : list ElementInfo)
      (expectedType : option string) (c : TextContentMatchingStrategy.candidate) :
  In c (TextContentMatchingStrategy.findCandidates originalText elements expectedType) ->
  in_unit (TextContentMatchingStrategy.cand_confidence c).
Proof.
  unfold TextContentMatchingStrategy.findCandidates. intros H.
  apply firstn_In, sort_desc_In, in_concat in H as (cs & Hcs & Hc).
  apply in_map_iff in Hcs as (element & <- & _).
  unfold TextContentMatchingStrategy.element_candidates in Hc.
  destruct (el_text element) as [text|]; [|destruct Hc].
  destruct (negb _); [destruct Hc|].
  destruct (Qle_bool _ _) eqn:Hsim; [|destruct Hc].
  apply Qle_bool_iff in Hsim.
  unfold TextContentMatchingStrategy.SIMILARITY_THRESHOLD in Hsim.
  pose proof (text_similarity_le originalText text) as Hle.
  apply in_map_iff in Hc as (sel & <- & _). cbn.
  apply bonus_unit; [|discriminate].
  destruct (String.eqb _ _); [split; discriminate|].
  destruct (String.eqb _ _); [split; discriminate|].
  split; [lra|exact Hle].
Qed.

(** The strategies without LLM return results whose confidence is in
    [[0, 1]]: that of a validated candidate, or 0. *)
Lemma testid_result_in_unit (w : World) (sel : string) (options : HealingStrategyOptions)
      (log : Log) :
  in_unit (confidence (fst (DataTestIdRecoveryStrategy.heal w sel options log))).
Proof.
  unfold DataTestIdRecoveryStrategy.heal, DataTestIdRecoveryStrategy.getAllTestIdElements.
  destruct (DataTestIdRecoveryStrategy.extractTestId sel) as [extracted|];
    [|split; discriminate].
  unfold bind, clock.
  destruct (evaluate_testIdElements w (length log)) as [elements|msg];
    [|split; discriminate].
  destruct (first_existing _ _ _ _) as [hit log'] eqn:Hloop.
  apply first_existing_inv in Hloop as [_ Hhit].
  destruct hit as [candidate|]; [|split; discriminate].
  destruct (Hhit candidate eq_refl) as [Hin _].
  now apply testid_candidates_in_unit in Hin.
Qed.

Lemma text_result_in_unit (w : World) (sel : string) (options : HealingStrategyOptions)
      (log : Log) :
  in_unit (confidence (fst (TextContentMatchingStrategy.heal w sel options log))).
Proof.
  unfold TextContentMatchingStrategy.heal, TextContentMatchingStrategy.getAllTextElements.
  destruct (TextContentMatchingStrategy.extractTextContent sel) as [extracted|];
    [|split; discriminate].
  destruct (negb _); [split; discriminate|].
  unfold bind, clock.
  destruct (evaluate_textElements w (length log) _) as [elements|msg];
    [|split; discriminate].
  destruct (first_existing _ _ _ _) as [hit log'] eqn:Hloop.
  apply first_existing_inv in Hloop as [_ Hhit].
  destruct hit as [candidate|]; [|split; discriminate].
  destruct (Hhit candidate eq_refl) as [Hin _].
  now apply text_candidates_in_unit in Hin.
Qed.

Lemma test_candidates_from_list (w : World) (P : CssHierarchyAnalysisStrategy.candidate -> Prop)
      (rest valid : list CssHierarchyAnalysisStrategy.candidate) (log : Log) :
  Forall P rest -> Forall P valid ->
  match fst (CssHierarchyAnalysisStrategy.test_candidates w rest valid log) with
  | inl c => P c
  | inr valid' => Forall P valid'
  end.
Proof.
  revert valid log. induction rest as [|c rest IH]; intros valid log Hrest Hvalid;
    cbn [CssHierarchyAnalysisStrategy.test_candidates].
  - exact Hvalid.
  - inversion Hrest as [|? ? Hc Hrest']; subst.
    unfold bind, checkSelectorExists, clock.
    destruct (resolves_at w (length log) _).
    + destruct (length (valid ++ [c]) =? 1); [exact Hc|].
      apply IH; [exact Hrest'|]. apply Forall_app. split; [exact Hvalid|].
      constructor; [exact Hc|constructor].
    + now apply IH.
Qed.

Lemma css_result_in_unit (w : World) (sel : string) (log : Log) :
  in_unit (confidence (fst (CssHierarchyAnalysisStrategy.heal w sel log))).
Proof.
  unfold CssHierarchyAnalysisStrategy.heal, bind.
  pose proof (test_candidates_from_list w
                (fun c => in_unit (CssHierarchyAnalysisStrategy.cand_confidence c))
                (CssHierarchyAnalysisStrategy.generateAlternatives
                   (CssHierarchyAnalysisStrategy.analyzeSelector sel)) [] log) as H.
  destruct (CssHierarchyAnalysisStrategy.test_candidates _ _ _ _) as [tested log'].
  cbn [fst] in H.
  assert (Forall (fun c => in_unit (CssHierarchyAnalysisStrategy.cand_confidence c))
                 (CssHierarchyAnalysisStrategy.generateAlternatives
                    (CssHierarchyAnalysisStrategy.analyzeSelector sel))) as Hall.
  { apply List.Forall_forall. intros c. apply css_candidates_in_unit. }
  specialize (H Hall (List.Forall_nil _)).
  destruct tested as [c|[|best others]]; cbn.
  - exact H.
  - split; discriminate.
  - now inversion H.
Qed.

(** ** Confidence out of range (claim C1) *)

(** C1 fails on the LLM path: a suggestion whose declared confidence is 5
    is validated and returned with that confidence, which is above 1. *)
Theorem llm_confidence_is_not_clamped :
  let r := fst Scenario.llm_heal in
  map AiPoweredAnalysisStrategy.sug_confidence
      (AiPoweredAnalysisStrategy.parseAiSuggestions Scenario.llm_world Scenario.llm_reply)
  = [5%Q] /\
  success r = true /\ selector r = "#new" /\ strategy r = ai_powered_analysis /\
  confidence r = 5%Q /\ ~ (confidence r <= 1)%Q.
Proof.
  cbv zeta. split; [vm_compute; reflexivity|]. split; [vm_compute; reflexivity|].
  split; [vm_compute; reflexivity|]. split; [vm_compute; reflexivity|].
  assert (confidence (fst Scenario.llm_heal) = 5%Q) as -> by (vm_compute; reflexivity).
  split; [reflexivity|]. intros H. vm_compute in H. now apply H.
Qed.

(** * Further properties *)

(** ** The order of the candidates *)

Section SortOrder.
Context {A : Type} (key : A -> Q).

Lemma insert_desc_descending (x : A) (l : list A) :
  descending key l -> descending key (insert_desc key x l).
Proof.
  unfold descending. induction l as [|y l IH]; simpl; intros Hl.
  - repeat constructor.
  - apply StronglySorted_inv in Hl as [Hl Hy].
    destruct (Qlt_bool (key x) (key y)) eqn:Hlt.
    + apply Qlt_bool_true in Hlt. constructor; [now apply IH|].
      apply List.Forall_forall. intros z Hz.
      apply (Permutation_in _ (insert_desc_perm key x l)) in Hz.
      destruct Hz as [<-|Hz]; [now apply Qlt_le_weak|].
      rewrite List.Forall_forall in Hy. now apply Hy.
    + unfold Qlt_bool in Hlt. apply negb_false_iff, Qle_bool_iff in Hlt.
      constructor; [now constructor|].
      constructor; [exact Hlt|].
      eapply List.Forall_impl; [|exact Hy]. intros z Hz. cbv beta in *.
      eapply Qle_trans; eauto.
Qed.

Lemma sort_desc_descending (l : list A) : descending key (sort_desc key l).
Proof.
  induction l as [|x l IH]; simpl; [constructor|]. now apply insert_desc_descending.
Qed.

Lemma descending_firstn (n : nat) (l : list A) :
  descending key l -> descending key (firstn n l).
Proof.
  unfold descending. revert n. induction l as [|x l IH]; intros [|n] Hl; simpl;
    try constructor.
  - apply IH. now apply StronglySorted_inv in Hl.
  - apply StronglySorted_inv in Hl as [_ Hx].
    rewrite List.Forall_forall in *. intros z Hz. apply Hx. eapply firstn_In, Hz.
Qed.

(** The sort is stable: elements with the same key keep their order. *)
Lemma insert_desc_with_key (q : Q) (x : A) (l : list A) :
  with_key key q (insert_desc key x l) = with_key key q (x :: l).
Proof.
  unfold with_key. induction l as [|y l IH]; [reflexivity|].
  cbn [insert_desc]. destruct (Qlt_bool (key x) (key y)) eqn:Hlt; [|reflexivity].
  apply Qlt_bool_true in Hlt. cbn [List.filter] in *. rewrite IH.
  destruct (Qeq_bool (key x) q) eqn:Hx; [|reflexivity].
  destruct (Qeq_bool (key y) q) eqn:Hy; [|reflexivity].
  apply Qeq_bool_iff in Hx, Hy. exfalso.
  rewrite Hx, Hy in Hlt. now apply Qlt_irrefl in Hlt.
Qed.

Lemma sort_desc_with_key (q : Q) (l : list A) :
  with_key key q (sort_desc key l) = with_key key q l.
Proof.
  induction l as [|x l IH]; [reflexivity|].
  cbn [sort_desc]. rewrite insert_desc_with_key. unfold with_key in *.
  cbn [List.filter]. now rewrite IH.
Qed.
End SortOrder.

(** The three strategies that compute their confidences themselves (test
    ID, text and CSS) hand their candidates to the validation loop in
    descending order of confidence.  Nothing is stated of the AI strategy,
    whose confidences are whatever the reply of the LLM holds. *)
Theorem candidates_descending :
  (forall originalTestId elements expectedType,
     descending DataTestIdRecoveryStrategy.cand_confidence
       (DataTestIdRecoveryStrategy.findCandidates originalTestId elements expectedType)) /\
  (forall originalText elements expectedType,
     descending TextContentMatchingStrategy.cand_confidence
       (TextContentMatchingStrategy.findCandidates originalText elements expectedType)) /\
  (forall analysis,
     descending CssHierarchyAnalysisStrategy.cand_confidence
       (CssHierarchyAnalysisStrategy.generateAlternatives analysis)).
Proof.
  repeat split; intros.
  - apply sort_desc_descending.
  - apply descending_firstn, sort_desc_descending.
  - apply sort_desc_descending.
Qed.

(** Candidates of equal confidence are tried in the order in which they
    were generated: for the test-ID strategy element by element of the page
    and attribute by attribute, for the CSS strategy transform by transform. *)
Theorem equal_confidence_keeps_generation_order (q : Q) :
  (forall originalTestId elements expectedType,
     with_key DataTestIdRecoveryStrategy.cand_confidence q
       (DataTestIdRecoveryStrategy.findCandidates originalTestId elements expectedType)
     = with_key DataTestIdRecoveryStrategy.cand_confidence q
         (concat (map (DataTestIdRecoveryStrategy.element_candidates
                         originalTestId expectedType) elements))) /\
  (forall analysis,
     with_key CssHierarchyAnalysisStrategy.cand_confidence q
       (CssHierarchyAnalysisStrategy.generateAlternatives analysis)
     = with_key CssHierarchyAnalysisStrategy.cand_confidence q
         (dedupe_by CssHierarchyAnalysisStrategy.cand_selector []
                    (CssHierarchyAnalysisStrategy.pushed analysis))).
Proof.
  split; intros; apply sort_desc_with_key.
Qed.

(** ** De-duplication and limits *)

Lemma dedupe_by_distinct {A : Type} (k : A -> string) (seen : list string) (l : list A) :
  List.NoDup (map k (dedupe_by k seen l)) /\
  (forall x, In x (dedupe_by k seen l) -> ~ In (k x) seen).
Proof.
  revert seen. induction l as [|x l IH]; intros seen; cbn [dedupe_by].
  - split; [constructor|intros x []].
  - destruct (bool_decide (k x ∈ seen)) eqn:Hseen; [apply IH|].
    apply bool_decide_eq_false in Hseen. rewrite list_elem_of_In in Hseen.
    destruct (IH (k x :: seen)) as [Hnodup Hfresh]. split.
    + cbn [map]. apply List.NoDup_cons; [|exact Hnodup].
      rewrite in_map_iff. intros (y & Hk & Hy).
      apply Hfresh in Hy. apply Hy. rewrite Hk. now left.
    + intros y [<-|Hy]; [exact Hseen|].
      apply Hfresh in Hy. intros Hin. apply Hy. now right.
Qed.

Lemma NoDup_firstn {A : Type} (n : nat) (l : list A) :
  List.NoDup l -> List.NoDup (firstn n l).
Proof.
  intros H. rewrite <- (firstn_skipn n l) in H. now apply NoDup_app_remove_r in H.
Qed.

(** The alternatives of the CSS strategy name pairwise distinct selectors,
    and so do the suggestions read from an LLM reply, of which at most five
    are kept; the text strategy keeps at most ten candidates. *)
Theorem candidate_lists_are_bounded_and_distinct :
  (forall analysis,
     List.NoDup (map CssHierarchyAnalysisStrategy.cand_selector
                     (CssHierarchyAnalysisStrategy.generateAlternatives analysis))) /\
  (forall w response,
     List.NoDup (map AiPoweredAnalysisStrategy.sug_selector
                     (AiPoweredAnalysisStrategy.parseAiSuggestions w response)) /\
     length (AiPoweredAnalysisStrategy.parseAiSuggestions w response) <= 5) /\
  (forall originalText elements expectedType,
     length (TextContentMatchingStrategy.findCandidates originalText elements expectedType)
     <= 10).
Proof.
  split; [|split].
  - intros analysis. unfold CssHierarchyAnalysisStrategy.generateAlternatives.
    eapply Permutation_NoDup.
    + apply Permutation_map. symmetry. apply sort_desc_perm.
    + apply dedupe_by_distinct.
  - intros w response. unfold AiPoweredAnalysisStrategy.parseAiSuggestions. split.
    + rewrite <- firstn_map. apply NoDup_firstn.
      eapply Permutation_NoDup.
      * apply Permutation_map. symmetry. apply sort_desc_perm.
      * apply dedupe_by_distinct.
    + apply firstn_le_length.
  - intros. unfold TextContentMatchingStrategy.findCandidates. apply firstn_le_length.
Qed.

(** ** Where the test-ID candidates come from *)

(** Every candidate of the test-ID strategy is built from the ID of an
    element of the page whose similarity to the extracted ID exceeds 0.5,
    under one of the five recognized attributes: the strategy proposes no
    ID that the page does not carry. *)
Theorem testid_candidates_come_from_the_page
        (originalTestId : string) (elements : list ElementInfo)
        (expectedType : option string) (c : DataTestIdRecoveryStrategy.candidate) :
  In c (DataTestIdRecoveryStrategy.findCandidates originalTestId elements expectedType) ->
  exists element attr,
    In element elements /\
    In attr DataTestIdRecoveryStrategy.TEST_ID_ATTRIBUTES /\
    el_testId element = Some (DataTestIdRecoveryStrategy.cand_testId c) /\
    DataTestIdRecoveryStrategy.cand_testId c <> EmptyString /\
    DataTestIdRecoveryStrategy.cand_selector c
    = "[" +:+ attr +:+ "=" +:+ quoted (DataTestIdRecoveryStrategy.cand_testId c) +:+ "]" /\
    (1 # 2 < DataTestIdRecoveryStrategy.calculateSimilarity
               originalTestId (DataTestIdRecoveryStrategy.cand_testId c))%Q.
Proof.
  unfold DataTestIdRecoveryStrategy.findCandidates. intros H.
  apply sort_desc_In, in_concat in H as (cs & Hcs & Hc).
  apply in_map_iff in Hcs as (element & <- & Hel).
  unfold DataTestIdRecoveryStrategy.element_candidates in Hc.
  destruct (el_testId element) as [testId|] eqn:Hid; [|destruct Hc].
  destruct (JsString.nonempty testId) eqn:Hne; cbn [negb] in Hc; [|destruct Hc].
  destruct (Qlt_bool _ _) eqn:Hsim; [|destruct Hc].
  apply Qlt_bool_true in Hsim.
  destruct (DataTestIdRecoveryStrategy.classify _ _ _) as [confidence0 matchType].
  apply in_map_iff in Hc as (attr & <- & Hattr).
  exists element, attr. cbn. repeat split; auto.
  intros ->. discriminate.
Qed.

Lemma testid_candidates_come_from_the_page_witness :
  exists element attr,
    In element [Scenario.element_with_testId "button" "submit-btn"] /\
    In attr DataTestIdRecoveryStrategy.TEST_ID_ATTRIBUTES /\
    el_testId element = Some "submit-btn" /\
    "submit-btn" <> EmptyString /\
    "[data-cy=" +:+ quoted "submit-btn" +:+ "]"
    = "[" +:+ attr +:+ "=" +:+ quoted "submit-btn" +:+ "]" /\
    (1 # 2 < DataTestIdRecoveryStrategy.calculateSimilarity "submit" "submit-btn")%Q.
Proof.
  apply (testid_candidates_come_from_the_page
           "submit" [Scenario.element_with_testId "button" "submit-btn"] None
           (contains_candidate None (Scenario.element_with_testId "button" "submit-btn")
                               "submit-btn" "data-cy")).
  vm_compute. auto 10.
Defined.

(** ** The first candidate that resolves wins *)

Lemma first_existing_trace (w : World) {C : Type} (sel : C -> string)
      (candidates : list C) (log log' : Log) (hit : option C) :
  first_existing w sel candidates log = (hit, log') ->
  match hit with
  | Some c =>
      exists pre post,
        candidates = pre ++ c :: post /\
        log' = EvProbe (sel c) true :: absent_probes sel pre ++ log
  | None => log' = absent_probes sel candidates ++ log
  end.
Proof.
  revert log. induction candidates as [|c0 rest IH]; intros log; cbn [first_existing].
  - intros H. apply ret_inv in H as [<- <-]. reflexivity.
  - intros H. apply bind_inv in H as (b & log1 & Hcheck & H).
    apply checkSelectorExists_inv in Hcheck as [-> _].
    destruct b.
    + apply ret_inv in H as [<- <-]. now exists [], rest.
    + apply IH in H. destruct hit as [c|].
      * destruct H as (pre & post & -> & ->). exists (c0 :: pre), post.
        split; [reflexivity|]. unfold absent_probes. cbn [map rev].
        now rewrite <- app_assoc.
      * rewrite H. unfold absent_probes. cbn [map rev]. now rewrite <- app_assoc.
Qed.

(** When the test-ID strategy succeeds, it returns the first of its
    candidates, in descending order of confidence, whose probe found an
    element, with the confidence of that candidate: every candidate before
    it was probed, in order, and did not resolve, and none after it was
    probed. *)
Theorem testid_first_resolving_candidate_wins
        (w : World) (sel : string) (options : HealingStrategyOptions)
        (log log' : Log) (r : HealingResult) :
  DataTestIdRecoveryStrategy.heal w sel options log = (r, log') ->
  success r = true ->
  exists extracted elements pre c post,
    DataTestIdRecoveryStrategy.extractTestId sel = Some extracted /\
    evaluate_testIdElements w (length log) = Ok elements /\
    DataTestIdRecoveryStrategy.findCandidates extracted elements (expectedType options)
    = pre ++ c :: post /\
    selector r = DataTestIdRecoveryStrategy.cand_selector c /\
    confidence r = DataTestIdRecoveryStrategy.cand_confidence c /\
    log' = EvProbe (DataTestIdRecoveryStrategy.cand_selector c) true
             :: absent_probes DataTestIdRecoveryStrategy.cand_selector pre
             ++ EvEvaluate :: log.
Proof.
  unfold DataTestIdRecoveryStrategy.heal, DataTestIdRecoveryStrategy.getAllTestIdElements.
  destruct (DataTestIdRecoveryStrategy.extractTestId sel) as [extracted|]; intros H Hok.
  2:{ apply ret_inv in H as [<- _]. discriminate. }
  apply bind_inv in H as (elements & log1 & Heval & H).
  apply clock_inv in Heval as [-> ->].
  destruct (evaluate_testIdElements w (length log)) as [elements|msg] eqn:Hel.
  2:{ apply ret_inv in H as [<- _]. discriminate. }
  apply bind_inv in H as (hit & log2 & Hloop & H).
  apply first_existing_trace in Hloop.
  destruct hit as [c|]; apply ret_inv in H as [<- <-]; [|discriminate].
  destruct Hloop as (pre & post & Hcands & ->).
  exists extracted, elements, pre, c, post. auto 7.
Qed.

Lemma testid_first_resolving_candidate_wins_witness :
  exists extracted elements pre c post,
    DataTestIdRecoveryStrategy.extractTestId Scenario.testid_broken = Some extracted /\
    evaluate_testIdElements Scenario.testid_page (length (@nil Event)) = Ok elements /\
    DataTestIdRecoveryStrategy.findCandidates extracted elements (expectedType no_options)
    = pre ++ c :: post /\
    selector (fst (DataTestIdRecoveryStrategy.heal
                     Scenario.testid_page Scenario.testid_broken no_options []))
    = DataTestIdRecoveryStrategy.cand_selector c /\
    confidence (fst (DataTestIdRecoveryStrategy.heal
                       Scenario.testid_page Scenario.testid_broken no_options []))
    = DataTestIdRecoveryStrategy.cand_confidence c /\
    snd (DataTestIdRecoveryStrategy.heal
           Scenario.testid_page Scenario.testid_broken no_options [])
    = EvProbe (DataTestIdRecoveryStrategy.cand_selector c) true
        :: absent_probes DataTestIdRecoveryStrategy.cand_selector pre
        ++ EvEvaluate :: [].
Proof.
  apply (testid_first_resolving_candidate_wins
           Scenario.testid_page Scenario.testid_broken no_options []).
  - vm_compute. reflexivity.
  - vm_compute. reflexivity.
Defined.

(** ** The dispatch of strategies *)

Lemma dispatch_events_app (a b : Log) :
  dispatch_events (a ++ b) = dispatch_events b ++ dispatch_events a.
Proof. unfold dispatch_events. now rewrite rev_app_distr, List.filter_app. Qed.

Lemma dispatch_events_cons (ev : Event) (a : Log) :
  dispatch_events (ev :: a) = dispatch_events a ++ (if is_dispatch ev then [ev] else []).
Proof.
  change (ev :: a) with ([ev] ++ a). rewrite dispatch_events_app.
  unfold dispatch_events at 2. cbn. now destruct (is_dispatch ev).
Qed.

Lemma quiet_ret {A : Type} (a : A) : quiet (ret a).
Proof. intros log. now exists []. Qed.

Lemma quiet_bind {A B : Type} (m : M Log A) (f : A -> M Log B) :
  quiet m -> (forall a, quiet (f a)) -> quiet (bind m f).
Proof.
  intros Hm Hf log. unfold bind. destruct (m log) as [a log1] eqn:E.
  destruct (Hm log) as (evs1 & H1 & Hq1). rewrite E in H1. cbn in H1. subst log1.
  destruct (Hf a (evs1 ++ log)) as (evs2 & H2 & Hq2).
  exists (evs2 ++ evs1). rewrite H2, app_assoc, dispatch_events_app, Hq1, Hq2. auto.
Qed.

Lemma quiet_clock {A : Type} (f : nat -> A) (ev : A -> Event) :
  (forall a, is_dispatch (ev a) = false) -> quiet (clock f ev).
Proof.
  intros H log. exists [ev (f (length log))]. split; [reflexivity|].
  rewrite dispatch_events_cons, H. reflexivity.
Qed.

Lemma quiet_checkSelectorExists (w : World) (sel : string) :
  quiet (checkSelectorExists w sel).
Proof. apply quiet_clock. reflexivity. Qed.

Ltac quiet_steps :=
  repeat first
    [ apply quiet_ret
    | apply quiet_checkSelectorExists
    | apply quiet_clock; reflexivity
    | apply quiet_bind; [|intros ?]
    | match goal with
      | |- quiet (match ?x with _ => _ end) => destruct x
      end ].

Lemma quiet_first_existing (w : World) {C : Type} (sel : C -> string) (candidates : list C) :
  quiet (first_existing w sel candidates).
Proof.
  induction candidates as [|c rest IH]; cbn [first_existing]; quiet_steps. exact IH.
Qed.

Lemma quiet_test_candidates (w : World)
      (rest valid : list CssHierarchyAnalysisStrategy.candidate) :
  quiet (CssHierarchyAnalysisStrategy.test_candidates w rest valid).
Proof.
  revert valid. induction rest as [|c rest IH]; intros valid;
    cbn [CssHierarchyAnalysisStrategy.test_candidates]; quiet_steps; apply IH.
Qed.

Lemma quiet_strategy_heal (w : World) (s : Strategy) (sel : string)
      (options : HealingStrategyOptions) :
  quiet (strategy_heal w s sel options).
Proof.
  destruct s; cbn [strategy_heal].
  - unfold DataTestIdRecoveryStrategy.heal, DataTestIdRecoveryStrategy.getAllTestIdElements.
    quiet_steps. apply quiet_first_existing.
  - unfold TextContentMatchingStrategy.heal, TextContentMatchingStrategy.getAllTextElements.
    quiet_steps. apply quiet_first_existing.
  - unfold CssHierarchyAnalysisStrategy.heal.
    apply quiet_bind; [apply quiet_test_candidates|]. intros [c|[|best others]]; apply quiet_ret.
  - unfold AiPoweredAnalysisStrategy.heal, AiPoweredAnalysisStrategy.checkOllamaAvailability,
      AiPoweredAnalysisStrategy.extractPageContext, AiPoweredAnalysisStrategy.callOllama.
    quiet_steps. apply quiet_first_existing.
Qed.

(** A failure of a strategy names the broken selector with confidence 0. *)
Lemma strategy_failure_shape (w : World) (s : Strategy) (sel : string)
      (options : HealingStrategyOptions) (log log' : Log) (r : HealingResult) :
  strategy_heal w s sel options log = (r, log') ->
  success r = false -> failure_of sel r.
Proof.
  intros H Hfail. pose proof (strategy_heal_post _ _ _ _ _ _ _ H) as (_ & Hmd & _).
  enough (selector r = sel /\ confidence r = 0%Q) by (unfold failure_of; tauto).
  revert H. destruct s; cbn [strategy_heal].
  - unfold DataTestIdRecoveryStrategy.heal.
    destruct (DataTestIdRecoveryStrategy.extractTestId sel); intros H.
    2:{ apply ret_inv in H as [<- _]. auto. }
    apply bind_inv in H as ([elements|msg] & log1 & _ & H).
    2:{ apply ret_inv in H as [<- _]. auto. }
    apply bind_inv in H as ([c|] & log2 & _ & H); apply ret_inv in H as [<- _]; auto.
    discriminate.
  - unfold TextContentMatchingStrategy.heal.
    destruct (TextContentMatchingStrategy.extractTextContent sel) as [text|]; intros H.
    2:{ apply ret_inv in H as [<- _]. auto. }
    destruct (negb (JsString.nonempty text)).
    { apply ret_inv in H as [<- _]. auto. }
    apply bind_inv in H as ([elements|msg] & log1 & _ & H).
    2:{ apply ret_inv in H as [<- _]. auto. }
    apply bind_inv in H as ([c|] & log2 & _ & H); apply ret_inv in H as [<- _]; auto.
    discriminate.
  - unfold CssHierarchyAnalysisStrategy.heal. intros H.
    apply bind_inv in H as ([c|[|best others]] & log1 & _ & H);
      apply ret_inv in H as [<- _]; auto; discriminate.
  - unfold AiPoweredAnalysisStrategy.heal. intros H.
    apply bind_inv in H as ([|] & log1 & _ & H); cbn [negb] in H.
    2:{ apply ret_inv in H as [<- _]. auto. }
    apply bind_inv in H as ([pageContext|msg] & log2 & _ & H).
    2:{ apply ret_inv in H as [<- _]. auto. }
    apply bind_inv in H as ([aiResponse|msg] & log3 & _ & H).
    2:{ apply ret_inv in H as [<- _]. auto. }
    destruct (length _ =? 0).
    { apply ret_inv in H as [<- _]. auto. }
    apply bind_inv in H as ([c|] & log4 & _ & H); apply ret_inv in H as [<- _]; auto.
    discriminate.
Qed.

Lemma quiet_run {A : Type} (m : M Log A) (log log' : Log) (a : A) :
  quiet m -> m log = (a, log') -> exists evs, log' = evs ++ log /\ dispatch_events evs = [].
Proof. intros Hq H. destruct (Hq log) as (evs & Hevs & Hd). rewrite H in Hevs. eauto. Qed.

Lemma commit_run (sel : string) (strategyName : HealingStrategy) (r : HealingResult)
      (e e' : HealingEngine) (log log' : Log) (u : unit) :
  commit sel strategyName r (e, log) = (u, (e', log')) ->
  log' = log /\
  e' = with_tracker
         (with_cache e (if cfg_cacheHealing (config e)
                        then <[sel := fresh_entry sel strategyName r (length log)]> (cache e)
                        else cache e))
         (count_success (selector r) (flakinessTracker e)).
Proof.
  unfold commit, bind, get_engine, now, trackSuccess, set_tracker, set_cache,
    update_engine, ret. cbn [fst snd].
  destruct (cfg_cacheHealing (config e)); intros [= <- <- <-]; auto.
Qed.

(** One round of the inner loop of [heal]. *)
Lemma try_strategies_run (w : World) (sel : string) (options : HealingStrategyOptions)
      (names : list HealingStrategy) (last : option HealingResult)
      (e e' : HealingEngine) (log log' : Log)
      (res : HealingResult + option HealingResult) :
  (forall r, last = Some r -> failure_of sel r) ->
  try_strategies w sel options names last (e, log) = (res, (e', log')) ->
  exists evs, log' = evs ++ log /\
    match res with
    | inl r =>
        success r = true /\ metadata_cached r = false /\
        exists pre name post t,
          registered e names = pre ++ name :: post /\
          dispatch_events evs = map EvStrategy (pre ++ [name]) /\
          e' = with_tracker
                 (with_cache e (if cfg_cacheHealing (config e)
                                then <[sel := fresh_entry sel name r t]> (cache e)
                                else cache e))
                 (count_success (selector r) (flakinessTracker e))
    | inr last' =>
        e' = e /\ dispatch_events evs = map EvStrategy (registered e names) /\
        (forall r, last' = Some r -> failure_of sel r)
    end.
Proof.
  revert last log. induction names as [|strategyName rest IH]; intros last log Hlast;
    cbn [try_strategies]; intros H.
  - apply ret_inv in H as [<- [= <- <-]]. exists []. auto.
  - unfold bind at 1, get_engine in H. cbn [fst] in H.
    cbn [registered List.filter]. fold (registered e rest).
    destruct (assoc_get strategyName (registry e)) as [strategy_|]; [|eauto].
    apply bind_inv in H as ([] & [e1 log1] & Hev & H).
    apply with_log_inv in Hev as [-> [= <-]].
    apply bind_inv in H as (result & [e2 log2] & Hheal & H).
    apply with_log_inv in Hheal as [-> Hheal].
    pose proof (strategy_heal_post _ _ _ _ _ _ _ Hheal) as (_ & Hmd & _).
    pose proof (strategy_failure_shape _ _ _ _ _ _ _ Hheal) as Hshape.
    apply (quiet_run _ _ _ _ (quiet_strategy_heal w strategy_ sel options)) in Hheal
      as (evs1 & -> & Hq1).
    destruct (success result) eqn:Hsuccess.
    + apply bind_inv in H as ([] & [e3 log3] & Hcommit & H).
      apply ret_inv in H as [<- [= <- <-]].
      apply commit_run in Hcommit as (-> & ->).
      exists (evs1 ++ [EvStrategy strategyName]). split; [now rewrite <- app_assoc|].
      repeat apply conj; auto.
      exists [], strategyName,
        (registered e rest), (length (evs1 ++ EvStrategy strategyName :: log)).
      repeat apply conj; auto.
      rewrite dispatch_events_app, Hq1. reflexivity.
    + apply IH in H; [|intros r [= <-]; auto].
      destruct H as (evs2 & -> & Hres).
      exists (evs2 ++ evs1 ++ [EvStrategy strategyName]).
      split; [now rewrite <- !app_assoc|].
      assert (dispatch_events (evs2 ++ evs1 ++ [EvStrategy strategyName])
              = EvStrategy strategyName :: dispatch_events evs2) as Hd.
      { rewrite !dispatch_events_app, Hq1. reflexivity. }
      rewrite Hd.
      destruct res as [r|last'].
      * destruct Hres as (Hs & Hm & pre & name & post & t & Hreg & Hdisp & He).
        repeat apply conj; auto.
        exists (strategyName :: pre), name, post, t.
        rewrite Hreg, Hdisp. auto.
      * destruct Hres as (He & Hdisp & Hlast'). rewrite Hdisp. auto.
Qed.

(** The outer loop of [heal]: [k] rounds fail before a strategy heals, or
    all [remaining] rounds fail. *)
Lemma attempts_run (w : World) (sel : string) (options : HealingStrategyOptions)
      (remaining attempt : nat) (last : option HealingResult)
      (e e' : HealingEngine) (log log' : Log)
      (res : HealingResult + option HealingResult) :
  (forall r, last = Some r -> failure_of sel r) ->
  attempts w sel options remaining attempt last (e, log) = (res, (e', log')) ->
  exists evs, log' = evs ++ log /\
    match res with
    | inl r =>
        success r = true /\ metadata_cached r = false /\
        exists k pre name post t,
          k < remaining /\
          registered e (cfg_strategies (config e)) = pre ++ name :: post /\
          dispatch_events evs
          = failed_rounds (registered e (cfg_strategies (config e)))
                          (cfg_maxAttempts (config e)) attempt k
            ++ map EvStrategy (pre ++ [name]) /\
          e' = with_tracker
                 (with_cache e (if cfg_cacheHealing (config e)
                                then <[sel := fresh_entry sel name r t]> (cache e)
                                else cache e))
                 (count_success (selector r) (flakinessTracker e))
    | inr last' =>
        e' = e /\
        dispatch_events evs
        = failed_rounds (registered e (cfg_strategies (config e)))
                        (cfg_maxAttempts (config e)) attempt remaining /\
        (forall r, last' = Some r -> failure_of sel r)
    end.
Proof.
  revert attempt last log.
  induction remaining as [|remaining IH]; intros attempt last log Hlast;
    cbn [attempts]; intros H.
  - apply ret_inv in H as [<- [= <- <-]]. exists []. auto.
  - unfold bind at 1, get_engine in H. cbn [fst] in H.
    apply bind_inv in H as (tried & [e1 log1] & Htry & H).
    apply try_strategies_run in Htry as (evs1 & -> & Htried); [|exact Hlast].
    destruct tried as [result|last1].
    + apply ret_inv in H as [<- [= <- <-]]. exists evs1. split; [reflexivity|].
      destruct Htried as (Hs & Hm & pre & name & post & t & Hreg & Hdisp & He).
      repeat apply conj; auto.
      exists 0, pre, name, post, t. repeat apply conj; auto. lia.
    + destruct Htried as (-> & Hdisp1 & Hlast1).
      apply bind_inv in H as ([] & [e2 log2] & Hdelay & H).
      set (pause := if attempt + 1 <? cfg_maxAttempts (config e)
                    then [EvDelay (1000 * (Z.of_nat attempt + 1))] else []).
      assert (e2 = e /\ log2 = pause ++ evs1 ++ log) as [-> ->].
      { subst pause. destruct (attempt + 1 <? cfg_maxAttempts (config e)).
        - apply delay_inv in Hdelay as [-> ->]. auto.
        - apply ret_inv in Hdelay as [_ [= <- <-]]. auto. }
      assert (dispatch_events pause = pause) as Hpause.
      { subst pause. now destruct (attempt + 1 <? cfg_maxAttempts (config e)). }
      apply IH in H; [|exact Hlast1].
      destruct H as (evs3 & -> & Hres).
      exists (evs3 ++ pause ++ evs1). split; [now rewrite <- !app_assoc|].
      assert (dispatch_events (evs3 ++ pause ++ evs1)
              = map EvStrategy (registered e (cfg_strategies (config e)))
                ++ pause ++ dispatch_events evs3) as Hd.
      { rewrite !dispatch_events_app, Hdisp1, Hpause. now rewrite <- app_assoc. }
      rewrite Hd. cbn [failed_rounds]. fold pause.
      destruct res as [r|last'].
      * destruct Hres as (Hs & Hm & k & pre & name & post & t & Hk & Hreg & Hdisp & He).
        repeat apply conj; auto.
        exists (S k), pre, name, post, t. repeat apply conj; auto; [lia|].
        cbn [failed_rounds]. fold pause. rewrite Hdisp. now rewrite <- !app_assoc.
      * destruct Hres as (He & Hdisp & Hlast'). rewrite Hdisp. auto.
Qed.

Lemma heal_traces (w : World) (sel : string) (options : HealingStrategyOptions)
      (e e' : HealingEngine) (log log' : Log) (r : HealingResult) :
  heal w sel options (e, log) = (r, (e', log')) ->
  heal_trace w sel e log r e' log'.
Proof.
  unfold heal. unfold bind at 1, get_engine. cbn [fst].
  destruct (cfg_enabled (config e)) eqn:Henabled; cbn [negb].
  2:{ intros H. apply ret_inv in H as [<- [= <- <-]]. now apply trace_disabled. }
  intros H. apply bind_inv in H as (from_cache & [e1 log1] & Hcheck & H).
  pose proof (check_cache_inv _ _ _ _ _ _ _ Hcheck) as (Hc1 & Hr1 & Ht1 & Hcases).
  destruct from_cache as [result|].
  { apply ret_inv in H as [<- [= <- <-]].
    destruct Hcases as (cached & Hcaching & Hlookup & -> & Hcache & -> & Hb & Hp).
    eapply trace_cached; eauto.
    destruct e, e1. cbn in *. unfold with_cache. cbn. congruence. }
  apply bind_inv in H as (b & [e2 log2] & Hprobe & H).
  apply with_log_inv in Hprobe as [-> Hprobe].
  unfold checkSelectorExists, clock in Hprobe. injection Hprobe as Hb Hlog.
  rewrite Hb in Hlog. subst log2.
  destruct b.
  { apply bind_inv in H as ([] & [e3 log3] & Htrack & H).
    apply ret_inv in H as [<- [= <- <-]].
    unfold trackSuccess, set_tracker, update_engine in Htrack. cbn [fst snd] in Htrack.
    injection Htrack as <- <-.
    eapply trace_resolves; eauto. }
  apply bind_inv in H as (healed & [e3 log3] & Hloop & H).
  apply attempts_run in Hloop as (evs & -> & Hres); [|intros r0; discriminate].
  rewrite Hc1 in Hres.
  assert (registered e1 (cfg_strategies (config e)) = registered e (cfg_strategies (config e)))
    as Hreg1 by (unfold registered; now rewrite Hr1).
  rewrite Hreg1 in Hres.
  destruct healed as [result|last].
  - apply ret_inv in H as [<- [= <- <-]].
    destruct Hres as (Hs & Hm & k & pre & name & post & t & Hk & Hreg & Hdisp & He).
    eapply (trace_healed _ _ _ _ _ _ _ e1 log1 evs k pre name post t); eauto.
  - apply bind_inv in H as ([] & [e4 log4] & Htrack & H).
    apply ret_inv in H as [<- [= <- <-]].
    unfold trackFailure, set_tracker, update_engine in Htrack. cbn [fst snd] in Htrack.
    injection Htrack as <- <-.
    destruct Hres as (-> & Hdisp & Hlast).
    eapply (trace_failed _ _ _ _ _ _ _ e1 log1 evs); eauto.
    destruct last as [r0|]; cbn [default]; [auto|].
    unfold failure_of. auto.
Qed.

(** ** The cache of healed selectors *)

Lemma check_cache_none_lookup (w : World) (sel : string) (e e1 : HealingEngine)
      (log log1 : Log) :
  check_cache w sel (e, log) = (None, (e1, log1)) ->
  cfg_cacheHealing (config e) = true ->
  cache e1 !! sel = None.
Proof.
  intros H Hcaching. apply check_cache_inv in H as (_ & _ & _ & Hcases).
  destruct Hcases as [([Hoff|Hnone] & -> & _)|(cached & _ & _ & -> & _)].
  - congruence.
  - exact Hnone.
  - apply lookup_delete_eq.
Qed.

Lemma heal_cache_hit (w : World) (sel : string) (options : HealingStrategyOptions)
      (e : HealingEngine) (log : Log) (cached : HealingCacheEntry) :
  cfg_enabled (config e) = true ->
  cfg_cacheHealing (config e) = true ->
  cache e !! sel = Some cached ->
  resolves_at w (length log) (entry_healed cached) = true ->
  heal w sel options (e, log)
  = (cached_result (used cached),
     (with_cache e (<[sel := used cached]> (cache e)),
      EvProbe (entry_healed cached) true :: log)).
Proof.
  intros Henabled Hcaching Hlookup Hresolves.
  unfold heal. rewrite (bind_eq get_engine _ (e, log) e (e, log)) by reflexivity.
  rewrite Henabled. cbn [negb].
  assert (check_cache w sel (e, log)
          = (Some (cached_result (used cached)),
             (with_cache e (<[sel := used cached]> (cache e)),
              EvProbe (entry_healed cached) true :: log))) as Hcheck.
  { unfold check_cache.
    rewrite (bind_eq get_engine _ (e, log) e (e, log)) by reflexivity.
    rewrite Hcaching, Hlookup.
    unfold bind, set_cache, update_engine, with_log, checkSelectorExists, clock.
    cbn [fst snd used entry_healed]. rewrite Hresolves. reflexivity. }
  rewrite (bind_eq _ _ _ _ _ Hcheck). reflexivity.
Qed.

(** A cache hit: with healing and caching enabled, when the cache holds an
    entry for the selector and the healed selector of that entry resolves,
    [heal] returns that selector with the confidence and strategy of the
    entry and the incremented use count as [cached] metadata; it writes the
    incremented count back to the entry, leaves the flakiness counters
    alone, and asks the page exactly once, for the healed selector: no
    strategy is invoked and the broken selector itself is not probed. *)
Theorem cache_hit_is_revalidated_and_counted
        (w : World) (sel : string) (options : HealingStrategyOptions)
        (e : HealingEngine) (log : Log) (cached : HealingCacheEntry) :
  cfg_enabled (config e) = true ->
  cfg_cacheHealing (config e) = true ->
  cache e !! sel = Some cached ->
  resolves_at w (length log) (entry_healed cached) = true ->
  exists e',
    heal w sel options (e, log)
    = ({| success := true; selector := entry_healed cached;
          confidence := entry_confidence cached; strategy := entry_strategy cached;
          alternatives := []; error := None;
          metadata := Some (MdCached (S (entry_useCount cached))) |},
       (e', [EvProbe (entry_healed cached) true] ++ log)) /\
    cache e' !! sel = Some (used cached) /\
    entry_useCount (used cached) = S (entry_useCount cached) /\
    (forall other, other <> sel -> cache e' !! other = cache e !! other) /\
    flakinessTracker e' = flakinessTracker e /\
    config e' = config e /\ registry e' = registry e.
Proof.
  intros Henabled Hcaching Hlookup Hresolves.
  exists (with_cache e (<[sel := used cached]> (cache e))).
  split; [now apply heal_cache_hit|].
  cbn [with_cache cache flakinessTracker config registry].
  repeat apply conj; auto.
  - apply lookup_insert_eq.
  - intros other Hother. now apply lookup_insert_ne.
Qed.

Lemma cache_hit_is_revalidated_and_counted_witness :
  exists e',
    heal Scenario.button_page Scenario.css_broken no_options (snd Scenario.first_heal)
    = ({| success := true; selector := "button";
          confidence := (5 # 10)%Q; strategy := css_hierarchy_analysis;
          alternatives := []; error := None;
          metadata := Some (MdCached 2) |},
       (e', [EvProbe "button" true] ++ snd (snd Scenario.first_heal))) /\
    cache e' !! Scenario.css_broken
    = Some (used {| entry_original := Scenario.css_broken; entry_healed := "button";
                    entry_confidence := (5 # 10)%Q;
                    entry_strategy := css_hierarchy_analysis;
                    entry_timestamp := 12; entry_useCount := 1 |}) /\
    2 = 2 /\
    (forall other, other <> Scenario.css_broken ->
                   cache e' !! other = cache (fst (snd Scenario.first_heal)) !! other) /\
    flakinessTracker e' = flakinessTracker (fst (snd Scenario.first_heal)) /\
    config e' = config (fst (snd Scenario.first_heal)) /\
    registry e' = registry (fst (snd Scenario.first_heal)).
Proof.
  apply (cache_hit_is_revalidated_and_counted
           Scenario.button_page Scenario.css_broken no_options
           (fst (snd Scenario.first_heal)) (snd (snd Scenario.first_heal))
           {| entry_original := Scenario.css_broken; entry_healed := "button";
              entry_confidence := (5 # 10)%Q; entry_strategy := css_hierarchy_analysis;
              entry_timestamp := 12; entry_useCount := 1 |}).
  - reflexivity.
  - reflexivity.
  - vm_compute. reflexivity.
  - reflexivity.
Defined.

(** Round trip through the cache: when a call of [heal] with healing and
    caching enabled succeeds through a strategy or through the cache (its
    result is not [noHealingNeeded]), then the next call for the same
    broken selector, on whatever the page has become and with whatever
    options, returns the same healed selector with the same confidence as
    long as that selector still resolves, marked as served from the cache
    with a use count of at least 2, after a single probe. *)
Theorem healed_selector_is_served_from_cache
        (w : World) (sel : string) (options : HealingStrategyOptions)
        (e e1 : HealingEngine) (log log1 : Log) (r : HealingResult)
        (w2 : World) (options2 : HealingStrategyOptions) :
  heal w sel options (e, log) = (r, (e1, log1)) ->
  cfg_enabled (config e) = true ->
  cfg_cacheHealing (config e) = true ->
  success r = true ->
  metadata_noHealingNeeded r = false ->
  resolves_at w2 (length log1) (selector r) = true ->
  exists r2 e2 n,
    heal w2 sel options2 (e1, log1) = (r2, (e2, EvProbe (selector r) true :: log1)) /\
    success r2 = true /\ selector r2 = selector r /\
    confidence r2 = confidence r /\
    metadata r2 = Some (MdCached n) /\ 2 <= n.
Proof.
  intros H Henabled Hcaching Hsuccess Hmd Hresolves.
  apply heal_traces in H.
  destruct H as [Hoff|cached _ _ Hlookup _ -> -> ->
                 |e0 log0 _ _ _ -> _ _
                 |e0 log0 evs k pre name post t _ Hcheck _ _ _ -> _ _ _ ->
                 |e0 log0 evs _ _ _ (Hfail & _) _ _ _]; try congruence; try discriminate.
  - pose proof (heal_cache_hit w2 sel options2
                  (with_cache e (<[sel := used cached]> (cache e)))
                  (EvProbe (entry_healed cached) true :: log) (used cached)) as Hhit.
    cbn [with_cache config cache] in Hhit.
    specialize (Hhit Henabled Hcaching (lookup_insert_eq _ _ _) Hresolves).
    rewrite Hhit.
    eexists _, _, (S (S (entry_useCount cached))).
    split; [reflexivity|]. cbn. repeat apply conj; auto. lia.
  - apply check_cache_inv in Hcheck as (Hc & _).
    rewrite Hcaching.
    pose proof (heal_cache_hit w2 sel options2
                  (with_tracker
                     (with_cache e0 (<[sel := fresh_entry sel name r t]> (cache e0)))
                     (count_success (selector r) (flakinessTracker e0)))
                  (evs ++ EvProbe sel false :: log0) (fresh_entry sel name r t)) as Hhit.
    cbn [with_tracker with_cache config cache] in Hhit.
    rewrite Hc in Hhit.
    specialize (Hhit Henabled Hcaching (lookup_insert_eq _ _ _) Hresolves).
    rewrite Hhit.
    eexists _, _, 2. split; [reflexivity|]. cbn. auto.
Qed.

Lemma healed_selector_is_served_from_cache_witness :
  exists r2 e2 n,
    heal Scenario.button_page Scenario.css_broken no_options (snd Scenario.first_heal)
    = (r2, (e2, EvProbe (selector (fst Scenario.first_heal)) true
                  :: snd (snd Scenario.first_heal))) /\
    success r2 = true /\ selector r2 = selector (fst Scenario.first_heal) /\
    confidence r2 = confidence (fst Scenario.first_heal) /\
    metadata r2 = Some (MdCached n) /\ 2 <= n.
Proof.
  apply (healed_selector_is_served_from_cache
           Scenario.button_page Scenario.css_broken no_options
           (Scenario.engine Scenario.button_page empty_config)
           (fst (snd Scenario.first_heal)) [] (snd (snd Scenario.first_heal))
           (fst Scenario.first_heal) Scenario.button_page no_options).
  - vm_compute. reflexivity.
  - reflexivity.
  - reflexivity.
  - reflexivity.
  - reflexivity.
  - reflexivity.
Defined.

(** ** Flakiness counters *)

Lemma assoc_get_set_eq {V : Type} (key : string) (value : V) (m : list (string * V)) :
  assoc_get key (assoc_set key value m) = Some value.
Proof.
  induction m as [|[k v] rest IH]; cbn [assoc_set assoc_get].
  - now rewrite decide_True.
  - destruct (decide (k = key)) as [->|Hne]; cbn [assoc_get].
    + now rewrite decide_True.
    + now rewrite decide_False.
Qed.

Lemma assoc_get_set_ne {V : Type} (key other : string) (value : V) (m : list (string * V)) :
  other <> key -> assoc_get other (assoc_set key value m) = assoc_get other m.
Proof.
  intros Hne. induction m as [|[k v] rest IH]; cbn [assoc_set assoc_get].
  - now rewrite decide_False by congruence.
  - destruct (decide (k = key)) as [->|Hk]; cbn [assoc_get].
    + now rewrite !decide_False by congruence.
    + destruct (decide (k = other)); auto.
Qed.

Lemma count_success_counted (sel : string) (tracker : list (string * FlakinessCounters)) :
  counted tracker (count_success sel tracker) sel 1 0.
Proof.
  unfold counted, count_success, counters. split.
  - rewrite assoc_get_set_eq. f_equal. f_equal; lia.
  - intros other Hother. now apply assoc_get_set_ne.
Qed.

Lemma count_failure_counted (sel : string) (tracker : list (string * FlakinessCounters)) :
  counted tracker (count_failure sel tracker) sel 0 1.
Proof.
  unfold counted, count_failure, counters. split.
  - rewrite assoc_get_set_eq. f_equal. f_equal; lia.
  - intros other Hother. now apply assoc_get_set_ne.
Qed.

(** Every call of [heal] counts at most one outcome.  A disabled engine
    and a cache hit count nothing.  Any other success adds one success to
    the counters of the selector that is returned (the healed one, not
    the broken one), and a failure adds one failure to the counters of the
    broken selector; the counters of all other selectors stay as they
    were. *)
Theorem heal_counts_one_outcome
        (w : World) (sel : string) (options : HealingStrategyOptions)
        (e e' : HealingEngine) (log log' : Log) (r : HealingResult) :
  heal w sel options (e, log) = (r, (e', log')) ->
  (cfg_enabled (config e) = false \/ metadata_cached r = true ->
   flakinessTracker e' = flakinessTracker e) /\
  (cfg_enabled (config e) = true -> metadata_cached r = false -> success r = true ->
   counted (flakinessTracker e) (flakinessTracker e') (selector r) 1 0) /\
  (cfg_enabled (config e) = true -> success r = false ->
   counted (flakinessTracker e) (flakinessTracker e') sel 0 1).
Proof.
  intros H. apply heal_traces in H.
  destruct H as [Hoff -> -> ->
                |cached Hon _ _ _ -> -> ->
                |e1 log1 Hon Hcheck _ -> -> ->
                |e1 log1 evs k pre name post t Hon Hcheck _ Hs Hmd -> _ _ _ ->
                |e1 log1 evs Hon Hcheck _ (Hs & _ & _ & Hmd) -> _ ->];
    try (apply check_cache_inv in Hcheck as (_ & _ & Ht & _));
    cbn [with_tracker with_cache flakinessTracker];
    repeat apply conj; try congruence; try discriminate;
      try (intros [Hx|Hx]; first [congruence | discriminate Hx]).
  - intros _ _ _. rewrite Ht. apply count_success_counted.
  - intros _ _ _. rewrite Ht. apply count_success_counted.
  - intros _ _. rewrite Ht. apply count_failure_counted.
Qed.

Lemma heal_counts_one_outcome_witness :
  (cfg_enabled (config (Scenario.engine Scenario.blank_world empty_config)) = false \/
   metadata_cached (fst Scenario.failed_heal) = true ->
   flakinessTracker (fst (snd Scenario.failed_heal))
   = flakinessTracker (Scenario.engine Scenario.blank_world empty_config)) /\
  (cfg_enabled (config (Scenario.engine Scenario.blank_world empty_config)) = true ->
   metadata_cached (fst Scenario.failed_heal) = false ->
   success (fst Scenario.failed_heal) = true ->
   counted (flakinessTracker (Scenario.engine Scenario.blank_world empty_config))
           (flakinessTracker (fst (snd Scenario.failed_heal)))
           (selector (fst Scenario.failed_heal)) 1 0) /\
  (cfg_enabled (config (Scenario.engine Scenario.blank_world empty_config)) = true ->
   success (fst Scenario.failed_heal) = false ->
   counted (flakinessTracker (Scenario.engine Scenario.blank_world empty_config))
           (flakinessTracker (fst (snd Scenario.failed_heal))) "#missing" 0 1).
Proof.
  apply (heal_counts_one_outcome Scenario.blank_world "#missing" no_options
           (Scenario.engine Scenario.blank_world empty_config)
           (fst (snd Scenario.failed_heal)) [] (snd (snd Scenario.failed_heal))
           (fst Scenario.failed_heal)).
  vm_compute. reflexivity.
Defined.

(** ** Rounds, strategies and delays *)

Lemma check_cache_none_run (w : World) (sel : string) (e e1 : HealingEngine)
      (log log1 : Log) :
  check_cache w sel (e, log) = (None, (e1, log1)) ->
  (exists evs, log1 = evs ++ log /\ dispatch_events evs = []) /\
  (forall other, other <> sel -> cache e1 !! other = cache e !! other).
Proof.
  intros H. apply check_cache_inv in H as (_ & _ & _ & Hcases).
  destruct Hcases as [(_ & -> & ->)|(cached & _ & _ & Hcache & _ & ->)].
  - split; [now exists []|auto].
  - split; [now exists [EvProbe (entry_healed cached) false]|].
    intros other Hother. rewrite Hcache. now apply lookup_delete_ne.
Qed.

Lemma invocations_of_app (a b : list Event) :
  invocations_of (a ++ b) = invocations_of a ++ invocations_of b.
Proof. apply flat_map_app. Qed.

Lemma delays_of_app (a b : list Event) : delays_of (a ++ b) = delays_of a ++ delays_of b.
Proof. apply flat_map_app. Qed.

Lemma invocations_of_dispatch (evs : list Event) :
  invocations_of (List.filter is_dispatch evs) = invocations_of evs.
Proof.
  unfold invocations_of. induction evs as [|ev evs IH]; [reflexivity|].
  destruct ev; cbn; congruence.
Qed.

Lemma delays_of_dispatch (evs : list Event) :
  delays_of (List.filter is_dispatch evs) = delays_of evs.
Proof.
  unfold delays_of. induction evs as [|ev evs IH]; [reflexivity|].
  destruct ev; cbn; congruence.
Qed.

Lemma invocations_of_strategies (names : list HealingStrategy) :
  invocations_of (map EvStrategy names) = names.
Proof. induction names as [|n names IH]; cbn; [reflexivity|]. now f_equal. Qed.

Lemma delays_of_strategies (names : list HealingStrategy) :
  delays_of (map EvStrategy names) = [].
Proof. induction names as [|n names IH]; cbn; auto. Qed.

Lemma failed_rounds_invocations (names : list HealingStrategy)
      (maxAttempts attempt remaining : nat) :
  invocations_of (failed_rounds names maxAttempts attempt remaining)
  = concat (repeat names remaining).
Proof.
  revert attempt. induction remaining as [|n IH]; intros attempt; [reflexivity|].
  cbn [failed_rounds repeat concat].
  rewrite !invocations_of_app, invocations_of_strategies, IH.
  now destruct (attempt + 1 <? maxAttempts).
Qed.

Lemma failed_rounds_delays (names : list HealingStrategy)
      (maxAttempts attempt remaining : nat) :
  delays_of (failed_rounds names maxAttempts attempt remaining)
  = map (fun i => (1000 * (Z.of_nat i + 1))%Z)
        (List.filter (fun i => i + 1 <? maxAttempts) (seq attempt remaining)).
Proof.
  revert attempt. induction remaining as [|n IH]; intros attempt; [reflexivity|].
  cbn [failed_rounds seq List.filter].
  rewrite !delays_of_app, delays_of_strategies, IH.
  now destruct (attempt + 1 <? maxAttempts).
Qed.

Lemma rounds_with_a_successor (maxAttempts : nat) :
  List.filter (fun i => i + 1 <? maxAttempts) (seq 0 maxAttempts) = seq 0 (maxAttempts - 1).
Proof.
  destruct maxAttempts as [|n]; [reflexivity|].
  replace (S n - 1) with n by lia.
  rewrite seq_S, List.filter_app. cbn [List.filter plus].
  assert ((n + 1 <? S n) = false) as -> by (apply Nat.ltb_ge; lia).
  rewrite app_nil_r. apply forallb_filter_id. apply forallb_forall.
  intros i Hi. apply in_seq in Hi. apply Nat.ltb_lt. lia.
Qed.

(** When an enabled engine fails to heal, it has run all [maxAttempts]
    rounds: in every round it invoked each configured strategy that is
    registered, in the configured order, and after every round but the
    last it waited, 1000 ms after the first round, 2000 ms after the
    second, and so on. *)
Theorem failed_heal_ran_every_round
        (w : World) (sel : string) (options : HealingStrategyOptions)
        (e e' : HealingEngine) (log log' : Log) (r : HealingResult) :
  heal w sel options (e, log) = (r, (e', log')) ->
  cfg_enabled (config e) = true ->
  success r = false ->
  let names := registered e (cfg_strategies (config e)) in
  let maxAttempts := cfg_maxAttempts (config e) in
  exists evs,
    log' = evs ++ log /\
    dispatch_events evs = failed_rounds names maxAttempts 0 maxAttempts /\
    invocations_of (rev evs) = concat (repeat names maxAttempts) /\
    delays_of (rev evs)
    = map (fun i => (1000 * (Z.of_nat i + 1))%Z) (seq 0 (maxAttempts - 1)).
Proof.
  intros H Henabled Hfail names maxAttempts. apply heal_traces in H.
  destruct H as [Hoff _ _ _
                |cached _ _ _ _ -> _ _
                |e1 log1 _ _ _ -> _ _
                |e1 log1 evs k pre name post t _ _ _ Hs _ _ _ _ _ _
                |e1 log1 evs _ Hcheck _ _ -> Hdisp _]; try congruence; try discriminate.
  apply check_cache_none_run in Hcheck as [(evs0 & -> & Hq0) _].
  exists (evs ++ EvProbe sel false :: evs0).
  assert (dispatch_events (evs ++ EvProbe sel false :: evs0)
          = failed_rounds names maxAttempts 0 maxAttempts) as Hd.
  { rewrite dispatch_events_app, dispatch_events_cons, Hq0. exact Hdisp. }
  split; [now rewrite <- app_assoc|]. split; [exact Hd|].
  rewrite <- invocations_of_dispatch, <- delays_of_dispatch.
  fold (dispatch_events (evs ++ EvProbe sel false :: evs0)). rewrite Hd.
  rewrite failed_rounds_invocations, failed_rounds_delays, rounds_with_a_successor.
  auto.
Qed.

Lemma failed_heal_ran_every_round_witness :
  let names := registered (Scenario.engine Scenario.blank_world empty_config)
                 (cfg_strategies
                    (config (Scenario.engine Scenario.blank_world empty_config))) in
  let maxAttempts :=
    cfg_maxAttempts (config (Scenario.engine Scenario.blank_world empty_config)) in
  exists evs,
    snd (snd Scenario.failed_heal) = evs ++ [] /\
    dispatch_events evs = failed_rounds names maxAttempts 0 maxAttempts /\
    invocations_of (rev evs) = concat (repeat names maxAttempts) /\
    delays_of (rev evs)
    = map (fun i => (1000 * (Z.of_nat i + 1))%Z) (seq 0 (maxAttempts - 1)).
Proof.
  apply (failed_heal_ran_every_round Scenario.blank_world "#missing" no_options
           (Scenario.engine Scenario.blank_world empty_config)
           (fst (snd Scenario.failed_heal)) [] (snd (snd Scenario.failed_heal))
           (fst Scenario.failed_heal)).
  - vm_compute. reflexivity.
  - reflexivity.
  - reflexivity.
Defined.

(** The rounds of the failing scenario: four strategies, three times, with
    delays of one and two seconds in between. *)
Example failed_heal_rounds :
  invocations_of (rev (snd (snd Scenario.failed_heal)))
  = [data_testid_recovery; text_content_matching; css_hierarchy_analysis;
     ai_powered_analysis;
     data_testid_recovery; text_content_matching; css_hierarchy_analysis;
     ai_powered_analysis;
     data_testid_recovery; text_content_matching; css_hierarchy_analysis;
     ai_powered_analysis] /\
  delays_of (rev (snd (snd Scenario.failed_heal))) = [1000%Z; 2000%Z].
Proof. vm_compute. split; reflexivity. Qed.

(** When [heal] succeeds through a strategy, the strategies were invoked
    in the configured order, round after round with the delays between
    rounds, up to the strategy that healed and no further; with caching
    enabled the cache then holds an entry for the broken selector that
    names this strategy, the returned selector and its confidence, with a
    use count of 1. *)
Theorem healing_stops_at_the_first_success
        (w : World) (sel : string) (options : HealingStrategyOptions)
        (e e' : HealingEngine) (log log' : Log) (r : HealingResult) :
  heal w sel options (e, log) = (r, (e', log')) ->
  success r = true ->
  metadata_cached r = false ->
  metadata_noHealingNeeded r = false ->
  let names := registered e (cfg_strategies (config e)) in
  let maxAttempts := cfg_maxAttempts (config e) in
  exists evs k pre name post,
    log' = evs ++ log /\
    k < maxAttempts /\
    names = pre ++ name :: post /\
    dispatch_events evs
    = failed_rounds names maxAttempts 0 k ++ map EvStrategy (pre ++ [name]) /\
    (cfg_cacheHealing (config e) = true ->
     exists t,
       cache e' !! sel
       = Some {| entry_original := sel; entry_healed := selector r;
                 entry_confidence := confidence r; entry_strategy := name;
                 entry_timestamp := t; entry_useCount := 1 |}).
Proof.
  intros H Hsuccess Hmd Hnh names maxAttempts. apply heal_traces in H.
  destruct H as [_ -> _ _
                |cached _ _ _ _ -> _ _
                |e1 log1 _ _ _ -> _ _
                |e1 log1 evs k pre name post t _ Hcheck _ _ _ -> Hk Hnames Hdisp ->
                |e1 log1 evs _ _ _ (Hs & _) _ _ _]; try congruence; try discriminate.
  apply check_cache_none_run in Hcheck as [(evs0 & -> & Hq0) _].
  exists (evs ++ EvProbe sel false :: evs0), k, pre, name, post.
  split; [now rewrite <- app_assoc|].
  repeat apply conj; auto.
  - rewrite dispatch_events_app, dispatch_events_cons, Hq0. exact Hdisp.
  - intros Hcaching. exists t. rewrite Hcaching.
    cbn [with_tracker with_cache cache]. apply lookup_insert_eq.
Qed.

Lemma healing_stops_at_the_first_success_witness :
  let e := Scenario.engine Scenario.button_page empty_config in
  let r := fst Scenario.first_heal in
  let names := registered e (cfg_strategies (config e)) in
  let maxAttempts := cfg_maxAttempts (config e) in
  exists evs k pre name post,
    snd (snd Scenario.first_heal) = evs ++ [] /\
    k < maxAttempts /\
    names = pre ++ name :: post /\
    dispatch_events evs
    = failed_rounds names maxAttempts 0 k ++ map EvStrategy (pre ++ [name]) /\
    (cfg_cacheHealing (config e) = true ->
     exists t,
       cache (fst (snd Scenario.first_heal)) !! Scenario.css_broken
       = Some {| entry_original := Scenario.css_broken; entry_healed := selector r;
                 entry_confidence := confidence r; entry_strategy := name;
                 entry_timestamp := t; entry_useCount := 1 |}).
Proof.
  apply (healing_stops_at_the_first_success
           Scenario.button_page Scenario.css_broken no_options
           (Scenario.engine Scenario.button_page empty_config)
           (fst (snd Scenario.first_heal)) [] (snd (snd Scenario.first_heal))
           (fst Scenario.first_heal)).
  - vm_compute. reflexivity.
  - reflexivity.
  - reflexivity.
  - reflexivity.
Defined.

(** A failed call of [heal] reports the broken selector itself with
    confidence 0, never as a cached result.  With healing and caching
    enabled it leaves no cache entry for the broken selector, and it never
    touches the entries of other selectors. *)
Theorem failed_heal_returns_the_broken_selector
        (w : World) (sel : string) (options : HealingStrategyOptions)
        (e e' : HealingEngine) (log log' : Log) (r : HealingResult) :
  heal w sel options (e, log) = (r, (e', log')) ->
  success r = false ->
  selector r = sel /\ confidence r = 0%Q /\ metadata_cached r = false /\
  (cfg_enabled (config e) = true -> cfg_cacheHealing (config e) = true ->
   cache e' !! sel = None) /\
  (forall other, other <> sel -> cache e' !! other = cache e !! other).
Proof.
  intros H Hfail. apply heal_traces in H.
  destruct H as [Hoff -> -> _
                |cached _ _ _ _ -> _ _
                |e1 log1 _ _ _ -> _ _
                |e1 log1 evs k pre name post t _ _ _ Hs _ _ _ _ _ _
                |e1 log1 evs _ Hcheck _ (_ & Hsel & Hconf & Hmd) _ _ ->];
    try congruence; try discriminate.
  - repeat apply conj; auto. congruence.
  - cbn [with_tracker cache]. repeat apply conj; auto.
    + intros _ Hcaching. eapply check_cache_none_lookup; eauto.
    + now apply check_cache_none_run in Hcheck as [_ Hothers].
Qed.

Lemma failed_heal_returns_the_broken_selector_witness :
  selector (fst Scenario.heal_after_drift) = Scenario.css_broken /\
  confidence (fst Scenario.heal_after_drift) = 0%Q /\
  metadata_cached (fst Scenario.heal_after_drift) = false /\
  (cfg_enabled (config (fst (snd Scenario.first_heal))) = true ->
   cfg_cacheHealing (config (fst (snd Scenario.first_heal))) = true ->
   cache (fst (snd Scenario.heal_after_drift)) !! Scenario.css_broken = None) /\
  (forall other, other <> Scenario.css_broken ->
     cache (fst (snd Scenario.heal_after_drift)) !! other
     = cache (fst (snd Scenario.first_heal)) !! other).
Proof.
  apply (failed_heal_returns_the_broken_selector
           Scenario.blank_world Scenario.css_broken no_options
           (fst (snd Scenario.first_heal)) (fst (snd Scenario.heal_after_drift))
           (snd (snd Scenario.first_heal)) (snd (snd Scenario.heal_after_drift))
           (fst Scenario.heal_after_drift)).
  - vm_compute. reflexivity.
  - reflexivity.
Defined.

(** ** Flakiness statistics *)

Lemma stat_of_spec (entry : string * FlakinessCounters) (st : FlakinessStat) :
  In st (stat_of entry) <->
  0 < failures (snd entry) /\
  st = {| stat_selector := fst entry;
          stat_successes := successes (snd entry);
          stat_failures := failures (snd entry);
          flakinessScore :=
            (Qnat (failures (snd entry))
             / Qnat (successes (snd entry) + failures (snd entry)))%Q |}.
Proof.
  destruct entry as [sel [s f]]. cbn [stat_of fst snd successes failures].
  destruct f as [|f].
  - replace (0 <? s + 0) with (0 <? s) by (f_equal; lia).
    assert (Qlt_bool 0 (if 0 <? s then Qnat 0 / Qnat (s + 0) else 0) = false) as ->.
    { destruct (0 <? s); reflexivity. }
    cbn [In]. split; [tauto|]. intros [H _]. lia.
  - assert ((0 <? s + S f) = true) as -> by (apply Nat.ltb_lt; lia).
    assert (Qlt_bool 0 (Qnat (S f) / Qnat (s + S f)) = true) as ->.
    { unfold Qlt_bool. apply negb_true_iff. apply not_true_is_false.
      intros Hle. apply Qle_bool_iff in Hle. revert Hle.
      apply Qlt_not_le. apply Qlt_shift_div_l.
      - unfold Qnat, Qlt. simpl. lia.
      - unfold Qnat, Qlt. simpl. lia. }
    cbn [In]. split.
    + intros [<-|[]]. split; [lia|reflexivity].
    + intros [_ ->]. now left.
Qed.

(** [getFlakinessStats] lists exactly the tracked selectors that have
    failed at least once, each with its two counters and the share of
    failures among them as score.  The scores lie in (0, 1] and the list is
    in descending order of score; a selector that has only ever succeeded
    is not listed. *)
Theorem flakiness_stats_list_the_failing_selectors (e : HealingEngine) :
  (forall st,
     In st (getFlakinessStats e) <->
     exists sel data,
       In (sel, data) (flakinessTracker e) /\ 0 < failures data /\
       st = {| stat_selector := sel; stat_successes := successes data;
               stat_failures := failures data;
               flakinessScore :=
                 (Qnat (failures data) / Qnat (successes data + failures data))%Q |}) /\
  (forall st, In st (getFlakinessStats e) ->
              (0 < flakinessScore st)%Q /\ (flakinessScore st <= 1)%Q) /\
  descending flakinessScore (getFlakinessStats e).
Proof.
  assert (forall st,
     In st (getFlakinessStats e) <->
     exists sel data,
       In (sel, data) (flakinessTracker e) /\ 0 < failures data /\
       st = {| stat_selector := sel; stat_successes := successes data;
               stat_failures := failures data;
               flakinessScore :=
                 (Qnat (failures data) / Qnat (successes data + failures data))%Q |})
    as Hiff.
  { intros st. unfold getFlakinessStats. rewrite sort_desc_In, in_concat. split.
    - intros (l & Hl & Hst). apply in_map_iff in Hl as ([sel data] & <- & Hentry).
      apply stat_of_spec in Hst as [Hf ->]. now exists sel, data.
    - intros (sel & data & Hentry & Hf & ->). exists (stat_of (sel, data)). split.
      + apply in_map_iff. now exists (sel, data).
      + apply stat_of_spec. auto. }
  split; [exact Hiff|]. split.
  - intros st Hst. apply Hiff in Hst as (sel & data & _ & Hf & ->).
    cbn [flakinessScore]. split.
    + apply Qlt_shift_div_l.
      * unfold Qnat, Qlt. simpl. lia.
      * unfold Qnat, Qlt. simpl. lia.
    + apply Qnat_ratio_unit. lia.
  - apply sort_desc_descending.
Qed.

(** ** The retry loop *)

Section RetryRuns.
Import RetryHandler.
Variable config : Config.
Context {T : Type}.
Variable action : nat -> outcome T.
Variables maxRetries maxBackoff : Z.

Lemma shouldRetry_in_budget (message : string) (attempt : nat) :
  shouldRetry config message attempt maxRetries = true -> (Z.of_nat attempt < maxRetries)%Z.
Proof.
  unfold shouldRetry. destruct (Z.leb_spec maxRetries (Z.of_nat attempt)); [discriminate|].
  intros _. assumption.
Qed.

(** A run of the loop that has exactly the iterations left that lead up to
    [attempt = maxRetries]: [n] calls fail and are retried, and the call
    after them decides. *)
Lemma retry_loop_run (iterations attempt : nat) (backoff : Z) (lastError : option string)
      (result : outcome T) (events : list RetryEvent) :
  (Z.of_nat attempt + Z.of_nat iterations = maxRetries + 1)%Z ->
  0 < iterations ->
  retry_loop config action maxRetries maxBackoff iterations attempt backoff lastError
  = (result, events) ->
  exists n,
    (Z.of_nat (attempt + n) <= maxRetries)%Z /\
    events = retries action maxBackoff attempt backoff n ++ [Called (attempt + n)] /\
    (forall j, attempt <= j < attempt + n ->
               exists message,
                 action j = Throw message /\
                 shouldRetry config message j maxRetries = true) /\
    result = action (attempt + n) /\
    (forall message, result = Throw message ->
                     shouldRetry config message (attempt + n) maxRetries = false).
Proof.
  revert attempt backoff lastError result events.
  induction iterations as [|iterations IH];
    intros attempt backoff lastError result events Hbudget Hpos; [lia|].
  rewrite retry_loop_step.
  destruct (action attempt) as [value|message] eqn:Haction.
  { intros [= <- <-]. exists 0. rewrite Nat.add_0_r.
    repeat apply conj; auto; [lia|intros j Hj; lia|discriminate]. }
  destruct (shouldRetry config message attempt maxRetries) eqn:Hshould; cbn [negb].
  2:{ intros [= <- <-]. exists 0. rewrite Nat.add_0_r.
      repeat apply conj; auto; [lia|intros j Hj; lia|].
      intros message' [= <-]. exact Hshould. }
  pose proof (shouldRetry_in_budget _ _ Hshould) as Hlt.
  assert ((Z.of_nat attempt <? maxRetries)%Z = true) as -> by lia.
  cbv zeta.
  destruct (retry_loop _ _ _ _ iterations (S attempt) _ (Some message))
    as [result' events'] eqn:Hrest.
  intros [= <- <-].
  apply IH in Hrest; [|lia|lia].
  destruct Hrest as (n & Hn & -> & Hretried & Hresult & Hlast).
  exists (S n). replace (attempt + S n) with (S attempt + n) by lia.
  repeat apply conj; auto.
  - cbn [retries app]. now rewrite Haction.
  - intros j Hj. destruct (decide (j = attempt)) as [->|Hne]; [eauto|].
    apply Hretried. lia.
Qed.

Lemma retries_calls (attempt : nat) (backoff : Z) (n : nat) :
  calls_of (retries action maxBackoff attempt backoff n) = seq attempt n.
Proof.
  revert attempt backoff. induction n as [|n IH]; intros attempt backoff; [reflexivity|].
  cbn [retries seq]. unfold calls_of in *. cbn. now rewrite IH.
Qed.

Lemma retries_sleeps (attempt : nat) (backoff : Z) (n : nat) :
  (0 <= maxBackoff)%Z ->
  sleeps_of (retries action maxBackoff attempt backoff n)
  = match n with
    | O => []
    | S n' =>
        backoff :: map (fun j => Z.min (backoff * 2 ^ Z.of_nat j) maxBackoff) (seq 1 n')
    end.
Proof.
  intros Hcap. revert attempt backoff.
  induction n as [|n IH]; intros attempt backoff; [reflexivity|].
  cbn [retries]. unfold sleeps_of in *. cbn [flat_map app]. f_equal.
  rewrite IH. destruct n as [|n]; [reflexivity|].
  cbn [seq map]. f_equal.
  rewrite <- (seq_shift n 1), map_map. apply map_ext. intros j.
  rewrite Nat2Z.inj_succ, Z.pow_succ_r by lia.
  assert (1 <= 2 ^ Z.of_nat j)%Z as Hpow by (pose proof (Z.pow_pos_nonneg 2 (Z.of_nat j)); lia).
  destruct (Z.min_spec (backoff * 2) maxBackoff) as [[Hlt ->]|[Hge ->]]; [f_equal; lia|].
  rewrite (Z.min_r (maxBackoff * _) maxBackoff) by nia.
  rewrite Z.min_r by nia. reflexivity.
Qed.
End RetryRuns.



(** A run with the default configuration: two timeouts are retried after
    1000 ms and 2000 ms, and the third call returns. *)
Example withRetry_two_timeouts :
  RetryHandler.withRetry (mergeWithDefaults empty_config)
    (fun k => if k <? 2 then @Throw nat "Timeout 30000ms exceeded" else Ok k)
    RetryHandler.no_retry_options
  = (Ok 2,
     [RetryHandler.Called 0; RetryHandler.OnRetry 1 "Timeout 30000ms exceeded";
      RetryHandler.Slept 1000;
      RetryHandler.Called 1; RetryHandler.OnRetry 2 "Timeout 30000ms exceeded";
      RetryHandler.Slept 2000;
      RetryHandler.Called 2]).
Proof. vm_compute. reflexivity. Qed.

(** The sleeps of [withRetry] back off exponentially up to the cap: with
    a cap that is not negative, the first sleep takes [initialBackoff] ms,
    whatever the cap, and the sleep after [j >= 1] retries takes
    [min (initialBackoff * 2^j) maxBackoff] ms.  There is a sleep after
    every failed call but the last, so at most [maxRetries] of them. *)
Theorem withRetry_backoff_doubles_up_to_the_cap
        {T : Type} (config : Config) (action : nat -> outcome T)
        (options : RetryHandler.RetryOptions) :
  let maxRetries :=
    default (cfg_retry_maxRetries config) (RetryHandler.opt_maxRetries options) in
  let initialBackoff :=
    default (cfg_retry_initialBackoff config) (RetryHandler.opt_initialBackoff options) in
  let maxBackoff := default 10000%Z (RetryHandler.opt_maxBackoff options) in
  let events := snd (RetryHandler.withRetry config action options) in
  (0 <= maxBackoff)%Z ->
  exists n,
    (Z.of_nat n <= Z.max maxRetries 0)%Z /\
    S n = length (calls_of events) + (if (maxRetries <? 0)%Z then 1 else 0) /\
    sleeps_of events
    = match n with
      | O => []
      | S n' =>
          initialBackoff
            :: map (fun j => Z.min (initialBackoff * 2 ^ Z.of_nat j) maxBackoff) (seq 1 n')
      end.
Proof.
  intros maxRetries initialBackoff maxBackoff events Hcap.
  destruct (RetryHandler.withRetry config action options) as [result events0] eqn:H.
  subst events. cbn [snd].
  unfold RetryHandler.withRetry in H. cbv zeta in H.
  fold maxRetries initialBackoff maxBackoff in H.
  destruct (Z.ltb_spec maxRetries 0) as [Hneg|Hnonneg].
  - replace (Z.to_nat (maxRetries + 1)) with 0 in H by lia.
    cbn in H. injection H as <- <-. exists 0. repeat apply conj; auto. lia.
  - apply retry_loop_run in H; [|lia|lia].
    destruct H as (n & Hn & -> & _). exists n. cbn [plus] in *.
    repeat apply conj.
    + lia.
    + unfold calls_of. rewrite flat_map_app.
      fold (calls_of (retries action maxBackoff 0 initialBackoff n)).
      rewrite retries_calls. cbn [flat_map app]. rewrite length_app, length_seq.
      cbn [length]. lia.
    + unfold sleeps_of. rewrite flat_map_app.
      fold (sleeps_of (retries action maxBackoff 0 initialBackoff n)).
      rewrite retries_sleeps by exact Hcap. cbn [flat_map app]. now rewrite app_nil_r.
Qed.

Lemma withRetry_backoff_doubles_up_to_the_cap_witness :
  let action := fun _ : nat => @Throw nat "net::ERR_CONNECTION_RESET" in
  let options :=
    {| RetryHandler.opt_maxRetries := Some 5%Z;
       RetryHandler.opt_initialBackoff := Some 1000%Z;
       RetryHandler.opt_maxBackoff := Some 6000%Z |} in
  let events :=
    snd (RetryHandler.withRetry (mergeWithDefaults empty_config) action options) in
  (0 <= 6000)%Z /\
  sleeps_of events = [1000; 2000; 4000; 6000; 6000]%Z /\
  exists n,
    (Z.of_nat n <= Z.max 5 0)%Z /\
    S n = length (calls_of events) + 0 /\
    sleeps_of events
    = match n with
      | O => []
      | S n' =>
          1000%Z :: map (fun j => Z.min (1000 * 2 ^ Z.of_nat j) 6000) (seq 1 n')
      end.
Proof.
  cbv zeta. split; [lia|]. split; [vm_compute; reflexivity|].
  apply (withRetry_backoff_doubles_up_to_the_cap (mergeWithDefaults empty_config)
           (fun _ : nat => @Throw nat "net::ERR_CONNECTION_RESET")
           {| RetryHandler.opt_maxRetries := Some 5%Z;
              RetryHandler.opt_initialBackoff := Some 1000%Z;
              RetryHandler.opt_maxBackoff := Some 6000%Z |}).
  simpl. lia.
Defined.

(** ** [updateConfig] *)

Lemma spread_nothing (c : Config) : mergeWithDefaults (spread c no_update) = c.
Proof. now destruct c. Qed.

(** [updateConfig] merges shallowly.  An update without properties gives
    the configuration back.  A top-level property that is present replaces
    the old value, by the default when it is [undefined].  A nested section
    that is present replaces the old section whole: the fields that the new
    section leaves out fall back to the defaults, not to the values the
    engine had. *)
Theorem updateConfig_replaces_sections_whole (c : Config) (u : ConfigUpdate) :
  let c' := mergeWithDefaults (spread c u) in
  mergeWithDefaults (spread c no_update) = c /\
  cfg_enabled c' = match upd_enabled u with
                   | None => cfg_enabled c
                   | Some v => default true v
                   end /\
  cfg_maxAttempts c' = match upd_maxAttempts u with
                       | None => cfg_maxAttempts c
                       | Some v => default 3 v
                       end /\
  cfg_cacheHealing c' = match upd_cacheHealing u with
                        | None => cfg_cacheHealing c
                        | Some v => default true v
                        end /\
  cfg_strategies c' = match upd_strategies u with
                      | None => cfg_strategies c
                      | Some v => default [data_testid_recovery; text_content_matching;
                                           css_hierarchy_analysis; ai_powered_analysis] v
                      end /\
  (cfg_ollama_url c', cfg_ollama_model c', cfg_ollama_timeout c')
  = match upd_ollama u with
    | None => (cfg_ollama_url c, cfg_ollama_model c, cfg_ollama_timeout c)
    | Some section =>
        (chain section url "http://localhost:11434",
         chain section model "qwen2.5-coder:3b",
         chain section timeout 30000%Z)
    end /\
  (cfg_retry_onTimeout c', cfg_retry_onFlakiness c',
   cfg_retry_maxRetries c', cfg_retry_initialBackoff c')
  = match upd_retry u with
    | None => (cfg_retry_onTimeout c, cfg_retry_onFlakiness c,
               cfg_retry_maxRetries c, cfg_retry_initialBackoff c)
    | Some section =>
        (chain section onTimeout true, chain section onFlakiness true,
         chain section maxRetries 2%Z, chain section initialBackoff 1000%Z)
    end /\
  (cfg_telemetry_enabled c', cfg_telemetry_logLevel c')
  = match upd_telemetry u with
    | None => (cfg_telemetry_enabled c, cfg_telemetry_logLevel c)
    | Some section => (chain section telemetry_enabled true, chain section logLevel info)
    end.
Proof.
  cbv zeta. split; [apply spread_nothing|].
  unfold mergeWithDefaults, spread.
  cbn [cfg_enabled cfg_maxAttempts cfg_cacheHealing cfg_strategies cfg_ollama_url
       cfg_ollama_model cfg_ollama_timeout cfg_retry_onTimeout cfg_retry_onFlakiness
       cfg_retry_maxRetries cfg_retry_initialBackoff cfg_telemetry_enabled
       cfg_telemetry_logLevel enabled maxAttempts cacheHealing strategies ollama retry
       telemetry].
  destruct (upd_enabled u), (upd_maxAttempts u), (upd_cacheHealing u), (upd_strategies u),
    (upd_ollama u), (upd_retry u), (upd_telemetry u); repeat apply conj; reflexivity.
Qed.

(** [updateConfig] never touches the cache or the flakiness counters, also
    when it throws.  It throws exactly when the new endpoint is rejected,
    and then it has already replaced the configuration and has left the
    engine with the three local strategies only; otherwise the engine has
    all four strategies again.  On an engine as constructed, an update
    without properties changes nothing. *)
Theorem updateConfig_keeps_cache_and_counters
        (w : World) (u : ConfigUpdate) (e : HealingEngine) :
  let res := fst (updateConfig w u e) in
  let e' := snd (updateConfig w u e) in
  cache e' = cache e /\ flakinessTracker e' = flakinessTracker e /\
  config e' = mergeWithDefaults (spread (config e) u) /\
  (is_Ok res <->
   validateUrl w (str_or (Some (cfg_ollama_url (config e'))) "http://localhost:11434")
               DEFAULT_ALLOWED_HOSTS = true) /\
  (is_Ok res ->
   map fst (registry e') = [data_testid_recovery; text_content_matching;
                            css_hierarchy_analysis; ai_powered_analysis]) /\
  (~ is_Ok res ->
   registry e' = [(data_testid_recovery, TestIdStrategy);
                  (text_content_matching, TextStrategy);
                  (css_hierarchy_analysis, CssStrategy)] /\
   registered e' (cfg_strategies (config e'))
   = List.filter (fun name => negb (bool_decide (name = ai_powered_analysis)))
                 (cfg_strategies (config e'))) /\
  (forall c0 e0, new_HealingEngine w c0 = Ok e0 ->
                 config e = config e0 -> registry e = registry e0 ->
                 updateConfig w no_update e = (Ok tt, e)).
Proof.
  cbv zeta. unfold updateConfig, AiPoweredAnalysisStrategy.constructor.
  cbn [AiPoweredAnalysisStrategy.opt_ollamaUrl AiPoweredAnalysisStrategy.opt_model
       AiPoweredAnalysisStrategy.opt_timeout].
  split; [now destruct (validateUrl w _ _)|].
  split; [now destruct (validateUrl w _ _)|].
  split; [now destruct (validateUrl w _ _)|].
  split; [|split; [|split]].
  - destruct (validateUrl w _ _) eqn:Hv; cbn [negb fst snd config is_Ok];
      rewrite Hv; intuition congruence.
  - destruct (validateUrl w _ _); cbn [negb fst snd registry is_Ok]; [|tauto].
    intros _. reflexivity.
  - destruct (validateUrl w _ _); cbn [negb fst snd registry config is_Ok]; [tauto|].
    intros _. split; [reflexivity|].
    unfold registered. cbn [registry]. apply filter_ext. intros name.
    now destruct name.
  - intros c0 e0 Hnew Hc Hr. rewrite spread_nothing.
    unfold new_HealingEngine, initializeStrategies, AiPoweredAnalysisStrategy.constructor in Hnew.
    cbn [AiPoweredAnalysisStrategy.opt_ollamaUrl AiPoweredAnalysisStrategy.opt_model
         AiPoweredAnalysisStrategy.opt_timeout] in Hnew.
    rewrite Hc.
    assert (config e0 = mergeWithDefaults c0) as Hc0.
    { destruct (validateUrl w _ _); [|discriminate]. cbn [negb] in Hnew.
      now injection Hnew as <-. }
    rewrite Hc0.
    destruct (validateUrl w _ _); [|discriminate]. cbn [negb] in *.
    injection Hnew as Hnew. f_equal.
    destruct e as [ce re cae fe]. cbn [config registry cache flakinessTracker] in *.
    subst e0. cbn [config registry] in *. subst. reflexivity.
Qed.

(** ** [executeWithHealing] *)

Section ExecuteWithHealingFacts.
Variable w : World.
Variable config : Config.
Context {T : Type}.
Variable act : nat -> string -> outcome T.
Variable sel : string.

(** One attempt.  Its outcome is that of the action on the selector, at the
    time of the attempt, unless that call throws a locator error and [heal]
    succeeds: then it is the outcome of the action on the healed selector,
    at the time after the healing. *)
Lemma healing_action_outcome (st : ActState) :
  let first := act (act_time st) sel in
  let healing := heal w sel no_options (fst st) in
  let o := fst (healing_action w act sel st) in
  let st' := snd (healing_action w act sel st) in
  ((o = first /\
    (is_Ok first \/ RetryHandler.isLocatorError (thrown first) = false \/
     success (fst healing) = false) /\
    snd st' = sel :: snd st) \/
   (~ is_Ok first /\
    RetryHandler.isLocatorError (thrown first) = true /\
    success (fst healing) = true /\
    o = act (act_time (snd healing, sel :: snd st)) (selector (fst healing)) /\
    fst st' = snd healing /\
    snd st' = selector (fst healing) :: sel :: snd st)) /\
  length (snd st) < length (snd st') <= length (snd st) + 2 /\
  (is_Ok first \/ RetryHandler.isLocatorError (thrown first) = false -> fst st' = fst st).
Proof.
  cbv zeta. unfold healing_action.
  destruct (act (act_time st) sel) as [value|message] eqn:Hact; cbn [thrown is_Ok].
  { cbn [fst snd length]. split; [left; auto|]. split; [lia|auto]. }
  destruct (RetryHandler.isLocatorError message) eqn:Hlocator.
  2:{ cbn [fst snd length]. split; [left; auto|]. split; [lia|auto]. }
  destruct (heal w sel no_options (fst st)) as [r engine'] eqn:Hheal.
  destruct (success r) eqn:Hsuccess; cbn [fst snd length].
  - split; [right; repeat apply conj; auto|]. split; [lia|].
    intros [[]|H]; discriminate.
  - split; [left; auto|]. split; [lia|].
    intros [[]|H]; discriminate.
Qed.


Lemma state_at_engine (k : nat) (st : ActState) :
  (forall t message, act t sel = Throw message ->
                     RetryHandler.isLocatorError message = false) ->
  fst (state_at w act sel k st) = fst st /\
  forall ran, In ran (snd (state_at w act sel k st)) -> In ran (snd st) \/ ran = sel.
Proof.
  intros Hother. induction k as [|k [IHe IHr]]; cbn [state_at]; [auto|].
  pose proof (healing_action_outcome (state_at w act sel k st)) as (Hcases & _ & Hengine).
  cbv zeta in *.
  assert (RetryHandler.isLocatorError
            (thrown (act (act_time (state_at w act sel k st)) sel)) = false) as Hno.
  { destruct (act _ sel) as [v|message] eqn:Hact; [reflexivity|]. cbn [thrown]. eauto. }
  split; [rewrite Hengine; auto|].
  destruct Hcases as [(_ & _ & Hran)|(_ & Hlocator & _)]; [|congruence].
  intros ran Hin. rewrite Hran in Hin. destruct Hin as [<-|Hin]; auto.
Qed.
End ExecuteWithHealingFacts.



(** [executeWithHealing] turns to the healing engine for locator errors
    only: when no error that the action throws on the selector is a locator
    error, the engine, its cache, its counters and its log are left exactly
    as they were, whatever the number of retries, and the action only ever
    ran on the given selector. *)
Theorem executeWithHealing_heals_locator_errors_only
        (w : World) (config : Config) {T : Type} (act : nat -> string -> outcome T)
        (sel : string) (options : RetryHandler.RetryOptions) (st : ActState) :
  (forall t message, act t sel = Throw message ->
                     RetryHandler.isLocatorError message = false) ->
  let st' := snd (executeWithHealing w config act sel options st) in
  fst st' = fst st /\
  forall ran, In ran (snd st') -> In ran (snd st) \/ ran = sel.
Proof.
  intros Hother. unfold executeWithHealing. cbv zeta. cbn [snd].
  now apply state_at_engine.
Qed.

Lemma executeWithHealing_heals_locator_errors_only_witness :
  let act := fun (_ : nat) (_ : string) => @Throw unit "Timeout 30000ms exceeded" in
  let st := ((Scenario.engine Scenario.blank_world empty_config, @nil Event),
             @nil string) in
  let st' := snd (executeWithHealing Scenario.blank_world (mergeWithDefaults empty_config)
                    act "#missing" RetryHandler.no_retry_options st) in
  length (snd st') = 3 /\
  fst st' = fst st /\
  forall ran, In ran (snd st') -> In ran (snd st) \/ ran = "#missing".
Proof.
  cbv zeta. split; [vm_compute; reflexivity|].
  apply (executeWithHealing_heals_locator_errors_only
           Scenario.blank_world (mergeWithDefaults empty_config)
           (fun (_ : nat) (_ : string) => @Throw unit "Timeout 30000ms exceeded")
           "#missing" RetryHandler.no_retry_options
           ((Scenario.engine Scenario.blank_world empty_config, @nil Event), @nil string)).
  intros t message [= <-]. vm_compute. reflexivity.
Defined.

(** ** The similarity kernels *)

Lemma within_seq (j n : nat) : within 0 j (seq j n).
Proof.
  revert j. induction n as [|n IH]; intros j; cbn [seq within]; [exact I|].
  split; [lia|apply IH].
Qed.

Lemma within_last (i j : nat) (row : list nat) :
  within i j row -> row <> [] ->
  let x := List.last row 0 in
  let col := j + length row - 1 in
  x <= Nat.max i col /\ i <= x + col /\ col <= x + i.
Proof.
  revert j. induction row as [|x row IH]; intros j Hrow Hne; [congruence|].
  destruct Hrow as [Hx Hrest]. destruct row as [|y row].
  - cbn [List.last length]. replace (j + 1 - 1) with j by lia. exact Hx.
  - specialize (IH (S j) Hrest ltac:(discriminate)).
    cbv zeta in *. cbn [length] in *.
    change (List.last (x :: y :: row) 0) with (List.last (y :: row) 0).
    replace (j + S (S (length row)) - 1) with (S j + S (length row) - 1) by lia.
    exact IH.
Qed.

Lemma testid_matrix_row_within (c2 : ascii) (s1 : string) (prev : list nat)
      (left i j : nat) :
  length prev = S (String.length s1) ->
  within i j prev ->
  (S i <= left + j /\ j <= left + S i) ->
  let row := DataTestIdRecoveryStrategy.matrix_row c2 s1 prev left in
  within (S i) (S j) row /\ length row = String.length s1.
Proof.
  revert prev left j. induction s1 as [|c1 s1 IH]; intros prev left j Hlen Hprev Hleft.
  - destruct prev as [|diag [|up rest]]; cbn; auto.
  - destruct prev as [|diag [|up rest]]; try discriminate.
    cbn [DataTestIdRecoveryStrategy.matrix_row]. cbv zeta.
    destruct Hprev as [Hdiag Hrest].
    pose proof Hrest as [Hup _].
    set (v := if Ascii.eqb c2 c1 then diag
              else Nat.min (diag + 1) (Nat.min (left + 1) (up + 1))).
    assert (v <= Nat.max (S i) (S j) /\ S i <= v + S j /\ S j <= v + S i) as Hv.
    { subst v. destruct (Ascii.eqb c2 c1); lia. }
    cbn [String.length] in Hlen. injection Hlen as Hlen.
    specialize (IH (up :: rest) v (S j) ltac:(cbn [length]; lia) Hrest ltac:(lia)).
    cbv zeta in IH. destruct IH as [IHw IHl].
    cbn [within length String.length]. auto.
Qed.

Lemma testid_matrix_rows_within (s1 s2 : string) (i : nat) (prev : list nat) :
  length prev = S (String.length s1) ->
  within i 0 prev ->
  let row := DataTestIdRecoveryStrategy.matrix_rows s1 s2 (S i) prev in
  within (i + String.length s2) 0 row /\ length row = S (String.length s1).
Proof.
  revert i prev. induction s2 as [|c2 s2 IH]; intros i prev Hlen Hprev.
  - cbn. rewrite Nat.add_0_r. auto.
  - cbn [DataTestIdRecoveryStrategy.matrix_rows String.length].
    pose proof (testid_matrix_row_within c2 s1 prev (S i) i 0 Hlen Hprev ltac:(lia))
      as [Hw Hl].
    cbv zeta in *.
    specialize (IH (S i) (S i :: DataTestIdRecoveryStrategy.matrix_row c2 s1 prev (S i))).
    replace (i + S (String.length s2)) with (S i + String.length s2) by lia.
    apply IH.
    + cbn [length]. now rewrite Hl.
    + cbn [within]. split; [lia|exact Hw].
Qed.

Lemma testid_distance_bounds (s1 s2 : string) :
  let d := DataTestIdRecoveryStrategy.distance s1 s2 in
  d <= Nat.max (String.length s1) (String.length s2) /\
  String.length s1 <= d + String.length s2 /\
  String.length s2 <= d + String.length s1.
Proof.
  unfold DataTestIdRecoveryStrategy.distance.
  pose proof (testid_matrix_rows_within s1 s2 0 (seq 0 (S (String.length s1)))
                ltac:(now rewrite length_seq) (within_seq 0 _)) as [Hw Hl].
  cbv zeta in *. cbn [plus] in Hw.
  apply within_last in Hw; [|intros Hnil; rewrite Hnil in Hl; discriminate].
  cbv zeta in Hw. rewrite Hl in Hw.
  replace (0 + S (String.length s1) - 1) with (String.length s1) in Hw by lia.
  lia.
Qed.

Lemma text_matrix_row_within (c2 : ascii) (s1 : string) (prev : list nat)
      (left i j : nat) :
  length prev = S (String.length s1) ->
  within i j prev ->
  (S i <= left + j /\ j <= left + S i) ->
  let row := TextContentMatchingStrategy.matrix_row c2 s1 prev left in
  within (S i) (S j) row /\ length row = String.length s1.
Proof.
  revert prev left j. induction s1 as [|c1 s1 IH]; intros prev left j Hlen Hprev Hleft.
  - destruct prev as [|diag [|up rest]]; cbn; auto.
  - destruct prev as [|diag [|up rest]]; try discriminate.
    cbn [TextContentMatchingStrategy.matrix_row]. cbv zeta.
    destruct Hprev as [Hdiag Hrest].
    pose proof Hrest as [Hup _].
    set (v := Nat.min (left + 1)
                (Nat.min (up + 1) (diag + (if Ascii.eqb c1 c2 then 0 else 1)))).
    assert (v <= Nat.max (S i) (S j) /\ S i <= v + S j /\ S j <= v + S i) as Hv.
    { subst v. destruct (Ascii.eqb c1 c2); lia. }
    cbn [String.length] in Hlen. injection Hlen as Hlen.
    specialize (IH (up :: rest) v (S j) ltac:(cbn [length]; lia) Hrest ltac:(lia)).
    cbv zeta in IH. destruct IH as [IHw IHl].
    cbn [within length String.length]. auto.
Qed.

Lemma text_matrix_rows_within (s1 s2 : string) (i : nat) (prev : list nat) :
  length prev = S (String.length s1) ->
  within i 0 prev ->
  let row := TextContentMatchingStrategy.matrix_rows s1 s2 (S i) prev in
  within (i + String.length s2) 0 row /\ length row = S (String.length s1).
Proof.
  revert i prev. induction s2 as [|c2 s2 IH]; intros i prev Hlen Hprev.
  - cbn. rewrite Nat.add_0_r. auto.
  - cbn [TextContentMatchingStrategy.matrix_rows String.length].
    pose proof (text_matrix_row_within c2 s1 prev (S i) i 0 Hlen Hprev ltac:(lia))
      as [Hw Hl].
    cbv zeta in *.
    specialize (IH (S i) (S i :: TextContentMatchingStrategy.matrix_row c2 s1 prev (S i))).
    replace (i + S (String.length s2)) with (S i + String.length s2) by lia.
    apply IH.
    + cbn [length]. now rewrite Hl.
    + cbn [within]. split; [lia|exact Hw].
Qed.

Lemma text_distance_bounds (s1 s2 : string) :
  let d := List.last (TextContentMatchingStrategy.matrix_rows
                        s1 s2 1 (seq 0 (S (String.length s1)))) 0 in
  d <= Nat.max (String.length s1) (String.length s2) /\
  String.length s1 <= d + String.length s2 /\
  String.length s2 <= d + String.length s1.
Proof.
  pose proof (text_matrix_rows_within s1 s2 0 (seq 0 (S (String.length s1)))
                ltac:(now rewrite length_seq) (within_seq 0 _)) as [Hw Hl].
  cbv zeta in *. cbn [plus] in Hw.
  apply within_last in Hw; [|intros Hnil; rewrite Hnil in Hl; discriminate].
  cbv zeta in Hw. rewrite Hl in Hw.
  replace (0 + S (String.length s1) - 1) with (String.length s1) in Hw by lia.
  lia.
Qed.

Lemma one_minus_ratio_bounds (d lo hi : nat) :
  0 < hi -> d <= hi -> hi <= d + lo ->
  (0 <= 1 - Qnat d / Qnat hi)%Q /\ (1 - Qnat d / Qnat hi <= Qnat lo / Qnat hi)%Q.
Proof.
  intros Hhi Hd Hlo.
  assert (0 < Qnat hi)%Q as Hpos by (unfold Qnat, Qlt; simpl; lia).
  assert (Qnat d / Qnat hi <= 1)%Q as H1.
  { apply Qle_shift_div_r; [exact Hpos|]. unfold Qnat, Qle. simpl. lia. }
  split; [lra|].
  apply Qle_shift_div_l; [exact Hpos|].
  assert ((1 - Qnat d / Qnat hi) * Qnat hi == Qnat hi - Qnat d)%Q as ->.
  { field. intros Hz. rewrite Hz in Hpos. now apply Qlt_irrefl in Hpos. }
  unfold Qnat, Qle, Qminus, Qplus, Qopp. simpl. lia.
Qed.

Lemma toLowerCase_nonempty (s : string) :
  s <> EmptyString -> 0 < String.length (JsString.toLowerCase s).
Proof. destruct s as [|c s]; [congruence|]. intros _. cbn. lia. Qed.

(** The similarity of the test-ID strategy lies in [[0, 1]] and, for IDs
    that differ after lower-casing, it is at most the ratio of the lengths
    of the lower-cased IDs, the shorter over the longer. *)
Lemma testid_similarity_bounds (str1 str2 : string) :
  let s1 := JsString.toLowerCase str1 in
  let s2 := JsString.toLowerCase str2 in
  in_unit (DataTestIdRecoveryStrategy.calculateSimilarity str1 str2) /\
  (s1 <> s2 ->
   (DataTestIdRecoveryStrategy.calculateSimilarity str1 str2
    <= Qnat (Nat.min (String.length s1) (String.length s2))
       / Qnat (Nat.max (String.length s1) (String.length s2)))%Q).
Proof.
  cbv zeta. unfold DataTestIdRecoveryStrategy.calculateSimilarity, in_unit.
  set (s1 := JsString.toLowerCase str1). set (s2 := JsString.toLowerCase str2).
  destruct (String.eqb_spec s1 s2) as [Heq|Hne].
  { split; [lra|]. intros H. contradiction. }
  pose proof (Qnat_ratio_nonneg (Nat.min (String.length s1) (String.length s2))
                (Nat.max (String.length s1) (String.length s2))) as Hratio.
  destruct (Nat.eqb_spec (String.length s1) 0) as [H1|H1]; [split; [lra|auto]|].
  destruct (Nat.eqb_spec (String.length s2) 0) as [H2|H2]; [split; [lra|auto]|].
  pose proof (testid_distance_bounds s1 s2) as Hd. cbv zeta in Hd.
  destruct (one_minus_ratio_bounds
              (DataTestIdRecoveryStrategy.distance s1 s2)
              (Nat.min (String.length s1) (String.length s2))
              (Nat.max (String.length s1) (String.length s2))) as [Hlo Hhi]; try lia.
  pose proof (one_minus_ratio_le
                (DataTestIdRecoveryStrategy.distance s1 s2)
                (Nat.max (String.length s1) (String.length s2))).
  auto.
Qed.

(** The similarity kernels stay in [[0, 1]]: the Levenshtein similarity of
    the test-ID strategy, and the Levenshtein, word-overlap and combined
    similarities of the text strategy.  The distance that the matrix
    computes never exceeds the length of the longer string. *)
Theorem similarity_kernels_in_unit :
  (forall str1 str2, in_unit (DataTestIdRecoveryStrategy.calculateSimilarity str1 str2)) /\
  (forall str1 str2, in_unit (TextContentMatchingStrategy.levenshteinSimilarity str1 str2)) /\
  (forall text1 text2,
     in_unit (TextContentMatchingStrategy.wordOverlapSimilarity text1 text2)) /\
  (forall text1 text2,
     in_unit (TextContentMatchingStrategy.calculateTextSimilarity text1 text2)).
Proof.
  assert (forall str1 str2,
             in_unit (TextContentMatchingStrategy.levenshteinSimilarity str1 str2)) as Hlev.
  { intros str1 str2. unfold TextContentMatchingStrategy.levenshteinSimilarity, in_unit.
    destruct (Nat.eqb_spec (String.length str1) 0) as [H1|H1]; cbn [orb]; [lra|].
    destruct (Nat.eqb_spec (String.length str2) 0) as [H2|H2]; [lra|].
    pose proof (text_distance_bounds str1 str2) as Hd. cbv zeta in Hd.
    destruct (one_minus_ratio_bounds
                (List.last (TextContentMatchingStrategy.matrix_rows
                              str1 str2 1 (seq 0 (S (String.length str1)))) 0)
                (Nat.min (String.length str1) (String.length str2))
                (Nat.max (String.length str1) (String.length str2))) as [Hlo _]; try lia.
    split; [exact Hlo|apply one_minus_ratio_le]. }
  assert (forall text1 text2,
             in_unit (TextContentMatchingStrategy.wordOverlapSimilarity text1 text2))
    as Hwords.
  { intros text1 text2. unfold TextContentMatchingStrategy.wordOverlapSimilarity.
    destruct (_ || _); [unfold in_unit; lra|].
    apply Qnat_ratio_unit.
    etransitivity; [apply length_filter|].
    etransitivity; [apply remove_dups_length_le|]. lia. }
  split; [intros str1 str2; apply testid_similarity_bounds|].
  split; [exact Hlev|]. split; [exact Hwords|].
  intros text1 text2. unfold TextContentMatchingStrategy.calculateTextSimilarity.
  set (s1 := JsString.trim (JsString.toLowerCase text1)).
  set (s2 := JsString.trim (JsString.toLowerCase text2)).
  destruct (String.eqb s1 s2); [unfold in_unit; lra|].
  assert (forall shorter longer,
             String.length shorter <= String.length longer ->
             in_unit ((85 # 100) + Qnat (String.length shorter)
                                   / Qnat (String.length longer) * (15 # 100))) as Hcontains.
  { intros shorter longer Hlen.
    destruct (Qnat_ratio_unit _ _ Hlen) as [Hr0 Hr1]. unfold in_unit. lra. }
  destruct (String.length s1 <? String.length s2) eqn:Hlt.
  - apply Nat.ltb_lt in Hlt.
    destruct (JsString.includes s2 s1); [apply Hcontains; lia|].
    destruct (_ && _); auto.
  - apply Nat.ltb_ge in Hlt.
    destruct (JsString.includes s1 s2); [apply Hcontains; lia|].
    destruct (_ && _); auto.
Qed.

(** The test-ID strategy only proposes IDs of comparable length: for every
    candidate, of the extracted ID and the candidate's ID, both lower-cased
    as the comparison reads them, the longer is less than twice as long as
    the shorter.  An element whose lower-cased ID is at least twice as long
    as the lower-cased extracted one, or at most half as long, is never
    proposed, whether or not one ID contains the other. *)
Theorem testid_candidates_have_comparable_length
        (originalTestId : string) (elements : list ElementInfo)
        (expectedType : option string) (c : DataTestIdRecoveryStrategy.candidate) :
  In c (DataTestIdRecoveryStrategy.findCandidates originalTestId elements expectedType) ->
  let a := String.length (JsString.toLowerCase originalTestId) in
  let b := String.length (JsString.toLowerCase (DataTestIdRecoveryStrategy.cand_testId c)) in
  Nat.max a b < 2 * Nat.min a b.
Proof.
  unfold DataTestIdRecoveryStrategy.findCandidates. intros H.
  apply sort_desc_In, in_concat in H as (cs & Hcs & Hc).
  apply in_map_iff in Hcs as (element & <- & Hel).
  unfold DataTestIdRecoveryStrategy.element_candidates in Hc.
  destruct (el_testId element) as [testId|] eqn:Hid; [|destruct Hc].
  destruct (JsString.nonempty testId) eqn:Hne; cbn [negb] in Hc; [|destruct Hc].
  destruct (Qlt_bool _ _) eqn:Hsim; [|destruct Hc].
  apply Qlt_bool_true in Hsim.
  destruct (DataTestIdRecoveryStrategy.classify _ _ _) as [confidence0 matchType].
  apply in_map_iff in Hc as (attr & <- & Hattr).
  cbn [DataTestIdRecoveryStrategy.cand_testId]. cbv zeta.
  assert (0 < String.length (JsString.toLowerCase testId)) as Hlen.
  { apply toLowerCase_nonempty. intros ->. discriminate. }
  destruct (String.eqb_spec (JsString.toLowerCase originalTestId)
                            (JsString.toLowerCase testId)) as [Heq|Hdiff].
  - rewrite Heq. lia.
  - destruct (testid_similarity_bounds originalTestId testId) as [_ Hhi].
    cbv zeta in Hhi. specialize (Hhi Hdiff).
    set (s1 := JsString.toLowerCase originalTestId) in *.
    set (s2 := JsString.toLowerCase testId) in *.
    assert (1 # 2 < Qnat (Nat.min (String.length s1) (String.length s2))
                    / Qnat (Nat.max (String.length s1) (String.length s2)))%Q
      as Hratio by (eapply Qlt_le_trans; eauto).
    revert Hratio. unfold Qnat, Qlt, Qdiv, Qmult, Qinv. simpl.
    destruct (Nat.max (String.length s1) (String.length s2)) eqn:Hmax; [lia|].
    simpl. lia.
Qed.

Lemma testid_candidates_have_comparable_length_witness :
  Nat.max (String.length (JsString.toLowerCase "Submit"))
          (String.length (JsString.toLowerCase "submit-btn"))
  < 2 * Nat.min (String.length (JsString.toLowerCase "Submit"))
                (String.length (JsString.toLowerCase "submit-btn")).
Proof.
  apply (testid_candidates_have_comparable_length
           "Submit" [Scenario.element_with_testId "button" "submit-btn"] None
           (contains_candidate None (Scenario.element_with_testId "button" "submit-btn")
                               "submit-btn" "data-cy")).
  vm_compute. auto 10.
Defined.

(** ** The page wrapper *)

Lemma trackHealing_counts (original healed : string) (attempts : list (string * nat)) :
  let key := original +:+ " -> " +:+ healed in
  assoc_get key (trackHealing original healed attempts)
  = Some (default 0 (assoc_get key attempts) + 1) /\
  forall other, other <> key ->
                assoc_get other (trackHealing original healed attempts)
                = assoc_get other attempts.
Proof.
  cbv zeta. unfold trackHealing. split.
  - apply assoc_get_set_eq.
  - intros other Hother. now apply assoc_get_set_ne.
Qed.

Lemma heal_success_probed (w : World) (sel : string) (options : HealingStrategyOptions)
      (e e' : HealingEngine) (log log' : Log) (r : HealingResult) :
  heal w sel options (e, log) = (r, (e', log')) ->
  success r = true -> probed w log log' (selector r).
Proof.
  intros H Hsuccess. apply heal_paths in H.
  destruct H as [_ -> _ _|cached _ _ _ _ _ _ _ Hp|e1 log1 _ _ -> _ _ Hp
                |e1 log1 name t _ _ _ _ Hp _|e1 log1 _ _ Hfail _ _];
    try discriminate; try congruence; auto.
Qed.

(** The locator that [HealingPage.locator] returns is bound to a selector
    that was seen on the page during the call: either the given selector,
    attached within the timeout (then the engine is not consulted and
    nothing is counted), or the selector of a successful [heal], probed with
    a count of at least 1, and then exactly that healing is counted once
    under the key [original -> healed].  When the wait fails and healing
    fails too, the error thrown is the one of the wait, not one of the
    engine, and no healing is counted. *)
Theorem locator_is_bound_to_a_selector_seen_on_the_page
        (w : World) (waitFor : nat -> string -> Z -> outcome unit)
        (sel : string) (timeout : option Z) (p p' : HealingPage)
        (result : outcome string) :
  locator w waitFor sel timeout p = (result, p') ->
  match result with
  | Ok bound =>
      (bound = sel /\
       waitFor (page_time p) sel (timeout_or timeout) = Ok tt /\
       page_engine p' = page_engine p /\ healingAttempts p' = healingAttempts p) \/
      (exists error r,
         waitFor (page_time p) sel (timeout_or timeout) = Throw error /\
         heal w sel no_options (page_engine p) = (r, page_engine p') /\
         success r = true /\ bound = selector r /\
         probed w (snd (page_engine p)) (snd (page_engine p')) bound /\
         let key := sel +:+ " -> " +:+ bound in
         assoc_get key (healingAttempts p')
         = Some (default 0 (assoc_get key (healingAttempts p)) + 1) /\
         forall other, other <> key ->
                       assoc_get other (healingAttempts p')
                       = assoc_get other (healingAttempts p))
  | Throw error =>
      waitFor (page_time p) sel (timeout_or timeout) = Throw error /\
      success (fst (heal w sel no_options (page_engine p))) = false /\
      healingAttempts p' = healingAttempts p
  end.
Proof.
  unfold locator.
  destruct (waitFor (page_time p) sel (timeout_or timeout)) as [[]|error] eqn:Hwait.
  { intros [= <- <-]. left. auto. }
  destruct (heal w sel no_options (page_engine p)) as [r [e' log']] eqn:Hheal.
  destruct (success r) eqn:Hsuccess; intros [= <- <-]; cbn [fst page_engine healingAttempts].
  - right. exists error, r. destruct (page_engine p) as [e log] eqn:Hengine.
    cbn [snd]. repeat apply conj; auto.
    + eapply heal_success_probed; eauto.
    + apply trackHealing_counts.
    + apply trackHealing_counts.
  - auto.
Qed.

Lemma locator_is_bound_to_a_selector_seen_on_the_page_witness :
  let waitFor := fun (_ : nat) (_ : string) (_ : Z) =>
                   @Throw unit "locator.waitFor: Timeout 5000ms exceeded." in
  let p := {| page_engine := (Scenario.engine Scenario.button_page empty_config, []);
              healingAttempts := []; waited := [] |} in
  let p' := snd (locator Scenario.button_page waitFor Scenario.css_broken None p) in
  match fst (locator Scenario.button_page waitFor Scenario.css_broken None p) with
  | Ok bound =>
      (bound = Scenario.css_broken /\
       waitFor (page_time p) Scenario.css_broken (timeout_or None) = Ok tt /\
       page_engine p' = page_engine p /\ healingAttempts p' = healingAttempts p) \/
      (exists error r,
         waitFor (page_time p) Scenario.css_broken (timeout_or None) = Throw error /\
         heal Scenario.button_page Scenario.css_broken no_options (page_engine p)
         = (r, page_engine p') /\
         success r = true /\ bound = selector r /\
         probed Scenario.button_page (snd (page_engine p)) (snd (page_engine p')) bound /\
         let key := Scenario.css_broken +:+ " -> " +:+ bound in
         assoc_get key (healingAttempts p')
         = Some (default 0 (assoc_get key (healingAttempts p)) + 1) /\
         forall other, other <> key ->
                       assoc_get other (healingAttempts p')
                       = assoc_get other (healingAttempts p))
  | Throw error =>
      waitFor (page_time p) Scenario.css_broken (timeout_or None) = Throw error /\
      success (fst (heal Scenario.button_page Scenario.css_broken no_options
                         (page_engine p))) = false /\
      healingAttempts p' = healingAttempts p
  end.
Proof.
  cbv zeta.
  apply (locator_is_bound_to_a_selector_seen_on_the_page
           Scenario.button_page
           (fun (_ : nat) (_ : string) (_ : Z) =>
              @Throw unit "locator.waitFor: Timeout 5000ms exceeded.")
           Scenario.css_broken None
           {| page_engine := (Scenario.engine Scenario.button_page empty_config, []);
              healingAttempts := []; waited := [] |}).
  vm_compute. reflexivity.
Defined.

(** On the page of the CSS scenario the wait times out, the engine heals the
    selector to [button], and one healing is counted. *)
Example locator_heals_the_css_scenario :
  let p := {| page_engine := (Scenario.engine Scenario.button_page empty_config, []);
              healingAttempts := []; waited := [] |} in
  let run := locator Scenario.button_page
               (fun (_ : nat) (_ : string) (_ : Z) =>
                  @Throw unit "locator.waitFor: Timeout 5000ms exceeded.")
               Scenario.css_broken None p in
  fst run = Ok "button" /\
  healingAttempts (snd run) = [(Scenario.css_broken +:+ " -> button", 1)].
Proof. vm_compute. split; reflexivity. Qed.

(** An element that turns up late counts as a healing: when the wait for
    the selector times out but the selector resolves once the engine probes
    it (healing enabled, nothing cached for it), [HealingPage.locator]
    returns the locator of the selector itself, and [healingAttempts]
    counts a healing of the selector to itself although no strategy ran. *)
Theorem late_element_counts_as_a_healing
        (w : World) (waitFor : nat -> string -> Z -> outcome unit)
        (sel : string) (timeout : option Z) (p : HealingPage) (error : string) :
  waitFor (page_time p) sel (timeout_or timeout) = Throw error ->
  cfg_enabled (config (fst (page_engine p))) = true ->
  cache (fst (page_engine p)) !! sel = None ->
  resolves_at w (length (snd (page_engine p))) sel = true ->
  let run := locator w waitFor sel timeout p in
  fst run = Ok sel /\
  assoc_get (sel +:+ " -> " +:+ sel) (healingAttempts (snd run))
  = Some (default 0 (assoc_get (sel +:+ " -> " +:+ sel) (healingAttempts p)) + 1) /\
  snd (page_engine (snd run)) = EvProbe sel true :: snd (page_engine p) /\
  cache (fst (page_engine (snd run))) = cache (fst (page_engine p)).
Proof.
  intros Hwait Henabled Hmiss Hresolves. cbv zeta. unfold locator. rewrite Hwait.
  destruct (page_engine p) as [e log] eqn:Hengine. cbn [fst snd] in *.
  destruct (heal w sel no_options (e, log)) as [r [e' log']] eqn:Hheal.
  pose proof (check_cache_miss w sel e log Hmiss) as Hcheck.
  apply heal_traces in Hheal.
  destruct Hheal as [Hoff _ _ _
                    |cached _ _ Hlookup _ _ _ _
                    |e1 log1 _ Hcheck1 _ -> -> ->
                    |e1 log1 evs k pre name post t _ Hcheck1 Hno _ _ _ _ _ _ _
                    |e1 log1 evs _ Hcheck1 Hno _ _ _ _]; try congruence.
  rewrite Hcheck in Hcheck1. injection Hcheck1 as <- <-.
  cbn [success no_healing_needed selector fst snd page_engine healingAttempts
       with_tracker cache].
  repeat apply conj; auto. apply trackHealing_counts.
Qed.

Lemma late_element_counts_as_a_healing_witness :
  let waitFor := fun (_ : nat) (_ : string) (_ : Z) =>
                   @Throw unit "locator.waitFor: Timeout 5000ms exceeded." in
  let p := {| page_engine := (Scenario.engine Scenario.button_page empty_config, []);
              healingAttempts := []; waited := [] |} in
  let run := locator Scenario.button_page waitFor "button" None p in
  fst run = Ok "button" /\
  assoc_get ("button" +:+ " -> " +:+ "button") (healingAttempts (snd run))
  = Some (default 0 (assoc_get ("button" +:+ " -> " +:+ "button") (healingAttempts p)) + 1) /\
  snd (page_engine (snd run)) = EvProbe "button" true :: snd (page_engine p) /\
  cache (fst (page_engine (snd run))) = cache (fst (page_engine p)).
Proof.
  cbv zeta.
  apply (late_element_counts_as_a_healing
           Scenario.button_page
           (fun (_ : nat) (_ : string) (_ : Z) =>
              @Throw unit "locator.waitFor: Timeout 5000ms exceeded.")
           "button" None
           {| page_engine := (Scenario.engine Scenario.button_page empty_config, []);
              healingAttempts := []; waited := [] |}
           "locator.waitFor: Timeout 5000ms exceeded.").
  - reflexivity.
  - reflexivity.
  - reflexivity.
  - reflexivity.
Defined.

(** [HealingPage.waitForSelector] waits once, or twice when the first
    wait throws and the engine heals the selector.  What it returns or
    throws then is what the second wait, for the healed selector, returned
    or threw, and the healing is counted either way; when healing fails it
    throws the error of the first wait and counts nothing. *)
Theorem waitForSelector_waits_again_for_the_healed_selector
        (w : World) {H : Type} (page_waitForSelector : nat -> string -> outcome H)
        (sel : string) (p p' : HealingPage) (result : outcome H) :
  waitForSelector w page_waitForSelector sel p = (result, p') ->
  (result = page_waitForSelector (page_time p) sel /\
   (is_Ok result \/ success (fst (heal w sel no_options (page_engine p))) = false) /\
   waited p' = sel :: waited p /\ healingAttempts p' = healingAttempts p) \/
  (exists error r,
     page_waitForSelector (page_time p) sel = Throw error /\
     heal w sel no_options (page_engine p) = (r, page_engine p') /\
     success r = true /\
     probed w (snd (page_engine p)) (snd (page_engine p')) (selector r) /\
     result = page_waitForSelector
                (length (snd (page_engine p')) + S (length (waited p))) (selector r) /\
     waited p' = selector r :: sel :: waited p /\
     healingAttempts p' = trackHealing sel (selector r) (healingAttempts p)).
Proof.
  unfold waitForSelector.
  destruct (page_waitForSelector (page_time p) sel) as [handle|error] eqn:Hwait.
  { intros [= <- <-]. left. cbn. auto. }
  destruct (heal w sel no_options (page_engine p)) as [r [e' log']] eqn:Hheal.
  destruct (success r) eqn:Hsuccess; intros [= <- <-];
    cbn [fst snd page_engine healingAttempts waited].
  - right. exists error, r. destruct (page_engine p) as [e log] eqn:Hengine.
    cbn [snd]. repeat apply conj; auto.
    eapply heal_success_probed; eauto.
  - left. auto.
Qed.

Lemma waitForSelector_waits_again_for_the_healed_selector_witness :
  let wait := fun (_ : nat) (target : string) =>
                if String.eqb target "button" then Ok target
                else @Throw string "page.waitForSelector: Timeout 30000ms exceeded." in
  let p := {| page_engine := (Scenario.engine Scenario.button_page empty_config, []);
              healingAttempts := []; waited := [] |} in
  let result := fst (waitForSelector Scenario.button_page wait Scenario.css_broken p) in
  let p' := snd (waitForSelector Scenario.button_page wait Scenario.css_broken p) in
  (result = wait (page_time p) Scenario.css_broken /\
   (is_Ok result \/
    success (fst (heal Scenario.button_page Scenario.css_broken no_options
                       (page_engine p))) = false) /\
   waited p' = Scenario.css_broken :: waited p /\
   healingAttempts p' = healingAttempts p) \/
  (exists error r,
     wait (page_time p) Scenario.css_broken = Throw error /\
     heal Scenario.button_page Scenario.css_broken no_options (page_engine p)
     = (r, page_engine p') /\
     success r = true /\
     probed Scenario.button_page (snd (page_engine p)) (snd (page_engine p'))
            (selector r) /\
     result = wait (length (snd (page_engine p')) + S (length (waited p))) (selector r) /\
     waited p' = selector r :: Scenario.css_broken :: waited p /\
     healingAttempts p'
     = trackHealing Scenario.css_broken (selector r) (healingAttempts p)).
Proof.
  cbv zeta.
  apply (waitForSelector_waits_again_for_the_healed_selector
           Scenario.button_page
           (fun (_ : nat) (target : string) =>
              if String.eqb target "button" then Ok target
              else @Throw string "page.waitForSelector: Timeout 30000ms exceeded.")
           Scenario.css_broken
           {| page_engine := (Scenario.engine Scenario.button_page empty_config, []);
              healingAttempts := []; waited := [] |}).
  vm_compute. reflexivity.
Defined.

(** ** The CSS and the AI strategy *)

Lemma test_candidates_trace (w : World)
      (rest : list CssHierarchyAnalysisStrategy.candidate) (log log' : Log)
      (tested : CssHierarchyAnalysisStrategy.candidate
                + list CssHierarchyAnalysisStrategy.candidate) :
  CssHierarchyAnalysisStrategy.test_candidates w rest [] log = (tested, log') ->
  match tested with
  | inl c =>
      exists pre post,
        rest = pre ++ c :: post /\
        log' = EvProbe (CssHierarchyAnalysisStrategy.cand_selector c) true
                 :: absent_probes CssHierarchyAnalysisStrategy.cand_selector pre ++ log
  | inr valid =>
      valid = [] /\
      log' = absent_probes CssHierarchyAnalysisStrategy.cand_selector rest ++ log
  end.
Proof.
  revert log. induction rest as [|c0 rest IH]; intros log;
    cbn [CssHierarchyAnalysisStrategy.test_candidates].
  - intros H. apply ret_inv in H as [<- <-]. auto.
  - intros H. apply bind_inv in H as (b & log1 & Hcheck & H).
    apply checkSelectorExists_inv in Hcheck as [-> _].
    destruct b.
    + cbn [app length Nat.eqb] in H. apply ret_inv in H as [<- <-]. now exists [], rest.
    + apply IH in H. destruct tested as [c|valid].
      * destruct H as (pre & post & -> & ->). exists (c0 :: pre), post.
        split; [reflexivity|]. unfold absent_probes. cbn [map rev].
        now rewrite <- app_assoc.
      * destruct H as [-> ->]. split; [reflexivity|].
        unfold absent_probes. cbn [map rev]. now rewrite <- app_assoc.
Qed.

(** The CSS strategy succeeds exactly through the return inside its loop:
    it returns the first of its alternatives (in descending order of
    confidence) that resolves, with that alternative's confidence and
    reason, after probing the alternatives before it, in order, and none
    after it; the other alternatives are listed as [alternatives].  It
    fails only after probing every alternative without a hit.  The branch
    for several valid candidates after the loop is never taken. *)
Theorem css_first_resolving_alternative_wins
        (w : World) (sel : string) (log log' : Log) (r : HealingResult) :
  CssHierarchyAnalysisStrategy.heal w sel log = (r, log') ->
  let candidates :=
    CssHierarchyAnalysisStrategy.generateAlternatives
      (CssHierarchyAnalysisStrategy.analyzeSelector sel) in
  (success r = true ->
   exists pre c post,
     candidates = pre ++ c :: post /\
     fst (CssHierarchyAnalysisStrategy.test_candidates w candidates [] log) = inl c /\
     r = {| success := true;
            selector := CssHierarchyAnalysisStrategy.cand_selector c;
            confidence := CssHierarchyAnalysisStrategy.cand_confidence c;
            strategy := css_hierarchy_analysis;
            alternatives :=
              map CssHierarchyAnalysisStrategy.cand_selector
                  (filter (fun c' => CssHierarchyAnalysisStrategy.cand_selector c'
                                     <> CssHierarchyAnalysisStrategy.cand_selector c)
                          candidates);
            error := None;
            metadata := Some (MdCss sel (CssHierarchyAnalysisStrategy.cand_reason c)) |} /\
     log' = EvProbe (CssHierarchyAnalysisStrategy.cand_selector c) true
              :: absent_probes CssHierarchyAnalysisStrategy.cand_selector pre ++ log) /\
  (success r = false ->
   fst (CssHierarchyAnalysisStrategy.test_candidates w candidates [] log) = inr [] /\
   alternatives r = map CssHierarchyAnalysisStrategy.cand_selector candidates /\
   log' = absent_probes CssHierarchyAnalysisStrategy.cand_selector candidates ++ log).
Proof.
  unfold CssHierarchyAnalysisStrategy.heal. cbv zeta. intros H.
  apply bind_inv in H as (tested & log1 & Hloop & H).
  rewrite Hloop. cbn [fst].
  apply test_candidates_trace in Hloop.
  destruct tested as [c|valid].
  - destruct Hloop as (pre & post & Hcands & ->).
    apply ret_inv in H as [<- <-]. split; [|discriminate].
    intros _. exists pre, c, post. auto.
  - destruct Hloop as [-> ->]. apply ret_inv in H as [<- <-].
    split; [discriminate|]. auto.
Qed.

Lemma css_first_resolving_alternative_wins_witness :
  let candidates :=
    CssHierarchyAnalysisStrategy.generateAlternatives
      (CssHierarchyAnalysisStrategy.analyzeSelector Scenario.css_broken) in
  let r := fst (CssHierarchyAnalysisStrategy.heal Scenario.button_page
                  Scenario.css_broken []) in
  let log' := snd (CssHierarchyAnalysisStrategy.heal Scenario.button_page
                     Scenario.css_broken []) in
  success r = true /\
  (success r = true ->
   exists pre c post,
     candidates = pre ++ c :: post /\
     fst (CssHierarchyAnalysisStrategy.test_candidates
            Scenario.button_page candidates [] []) = inl c /\
     r = {| success := true;
            selector := CssHierarchyAnalysisStrategy.cand_selector c;
            confidence := CssHierarchyAnalysisStrategy.cand_confidence c;
            strategy := css_hierarchy_analysis;
            alternatives :=
              map CssHierarchyAnalysisStrategy.cand_selector
                  (filter (fun c' => CssHierarchyAnalysisStrategy.cand_selector c'
                                     <> CssHierarchyAnalysisStrategy.cand_selector c)
                          candidates);
            error := None;
            metadata := Some (MdCss Scenario.css_broken
                                    (CssHierarchyAnalysisStrategy.cand_reason c)) |} /\
     log' = EvProbe (CssHierarchyAnalysisStrategy.cand_selector c) true
              :: absent_probes CssHierarchyAnalysisStrategy.cand_selector pre ++ []) /\
  (success r = false ->
   fst (CssHierarchyAnalysisStrategy.test_candidates
          Scenario.button_page candidates [] []) = inr [] /\
   alternatives r = map CssHierarchyAnalysisStrategy.cand_selector candidates /\
   log' = absent_probes CssHierarchyAnalysisStrategy.cand_selector candidates ++ []).
Proof.
  cbv zeta. split; [vm_compute; reflexivity|].
  apply (css_first_resolving_alternative_wins Scenario.button_page Scenario.css_broken []).
  vm_compute. reflexivity.
Defined.

Lemma fetches_of_app (a b : list Event) : fetches_of (a ++ b) = fetches_of a ++ fetches_of b.
Proof. apply flat_map_app. Qed.

Lemma fetches_of_probes {C : Type} (sel : C -> string) (l : list C) :
  fetches_of (rev (absent_probes sel l)) = [].
Proof.
  unfold absent_probes. rewrite List.rev_involutive.
  induction l as [|x l IH]; cbn; auto.
Qed.

Lemma absent_probes_are_probes {C : Type} (sel : C -> string) (l : list C) (ev : Event) :
  In ev (absent_probes sel l) -> exists s b, ev = EvProbe s b.
Proof.
  unfold absent_probes. rewrite <- in_rev, in_map_iff. intros (c & <- & _). eauto.
Qed.

(** The AI strategy goes through its stages in one order, whatever the
    outcome: the availability check at the backend, then the reading of the
    page context, then the generation request, then the probes of the
    suggestions.  It stops after the availability check when that fails and
    after the reading of the page when that throws, so it asks the backend
    at most twice ([/api/tags], then [/api/generate]) and probes selectors
    only after both requests.  The probes are those of the suggestions
    parsed from the reply, in order, up to the first that resolves, which is
    the selector returned, with the confidence of that suggestion. *)
Theorem ai_strategy_asks_the_backend_at_most_twice
        (w : World) (self : AiPoweredAnalysisStrategy.t) (sel : string)
        (options : HealingStrategyOptions) (log log' : Log) (r : HealingResult) :
  AiPoweredAnalysisStrategy.heal w self sel options log = (r, log') ->
  let tags := AiPoweredAnalysisStrategy.ollamaUrl self +:+ "/api/tags" in
  let generate := AiPoweredAnalysisStrategy.ollamaUrl self +:+ "/api/generate" in
  let available := fetch_tags w (length log) (AiPoweredAnalysisStrategy.ollamaUrl self) in
  let context :=
    evaluate_pageContext w (S (length log)) (nat_or (maxElements options) 50) in
  exists probes stages,
    log' = probes ++ stages ++ log /\
    (forall ev, In ev probes -> exists s b, ev = EvProbe s b) /\
    (fetches_of (rev (probes ++ stages)) = [tags] \/
     fetches_of (rev (probes ++ stages)) = [tags; generate]) /\
    (available <> Ok true ->
     stages = [EvFetch tags] /\ probes = [] /\ success r = false /\
     error r = Some "Ollama is not available. Please ensure Ollama is running.") /\
    (available = Ok true ->
     forall msg, context = Throw msg ->
       stages = [EvEvaluate; EvFetch tags] /\ probes = [] /\ success r = false) /\
    (available = Ok true ->
     forall pageContext, context = Ok pageContext ->
       stages = [EvFetch generate; EvEvaluate; EvFetch tags] /\
       match fetch_generate w (S (S (length log))) (AiPoweredAnalysisStrategy.ollamaUrl self)
                            (AiPoweredAnalysisStrategy.model self)
                            (AiPoweredAnalysisStrategy.timeout self)
                            (AiPoweredAnalysisStrategy.buildPrompt
                               sel pageContext (expectedType options)) with
       | Throw _ => probes = [] /\ success r = false
       | Ok aiResponse =>
           let suggestions := AiPoweredAnalysisStrategy.parseAiSuggestions w aiResponse in
           (success r = true /\
            exists pre suggestion post,
              suggestions = pre ++ suggestion :: post /\
              selector r = AiPoweredAnalysisStrategy.sug_selector suggestion /\
              confidence r = AiPoweredAnalysisStrategy.sug_confidence suggestion /\
              probes = EvProbe (AiPoweredAnalysisStrategy.sug_selector suggestion) true
                         :: absent_probes AiPoweredAnalysisStrategy.sug_selector pre) \/
           (success r = false /\
            probes = absent_probes AiPoweredAnalysisStrategy.sug_selector suggestions)
       end).
Proof.
  unfold AiPoweredAnalysisStrategy.heal, AiPoweredAnalysisStrategy.checkOllamaAvailability,
    AiPoweredAnalysisStrategy.extractPageContext, AiPoweredAnalysisStrategy.callOllama.
  cbv zeta. intros H.
  apply bind_inv in H as (isAvailable & log1 & Htags & H).
  apply clock_inv in Htags as [-> ->].
  destruct (fetch_tags w (length log) (AiPoweredAnalysisStrategy.ollamaUrl self))
    as [[|]|msg0] eqn:Havailable; cbn [negb] in H.
  2,3: apply ret_inv in H as [<- <-]; exists [], [EvFetch (AiPoweredAnalysisStrategy.ollamaUrl self +:+ "/api/tags")];
       split; [reflexivity|]; split; [intros ev []|];
       split; [left; reflexivity|];
       split; [auto|]; split; intros; discriminate.
  apply bind_inv in H as (pageContext & log2 & Hctx & H).
  apply clock_inv in Hctx as [-> ->]. cbn [length] in *.
  destruct (evaluate_pageContext w _ _) as [pageContext|msg] eqn:Hcontext.
  2:{ apply ret_inv in H as [<- <-]. exists [], [EvEvaluate; EvFetch (AiPoweredAnalysisStrategy.ollamaUrl self +:+ "/api/tags")].
      split; [reflexivity|]. split; [intros ev []|].
      split; [left; reflexivity|].
      split; [congruence|]. split; [auto|]. intros; discriminate. }
  apply bind_inv in H as (aiResponse & log3 & Hgen & H).
  apply clock_inv in Hgen as [-> ->]. cbn [length] in *.
  destruct (fetch_generate w _ _ _ _ _) as [aiResponse|msg] eqn:Hgenerate.
  2:{ apply ret_inv in H as [<- <-]. exists [], [EvFetch (AiPoweredAnalysisStrategy.ollamaUrl self +:+ "/api/generate"); EvEvaluate; EvFetch (AiPoweredAnalysisStrategy.ollamaUrl self +:+ "/api/tags")].
      split; [reflexivity|]. split; [intros ev []|].
      split; [right; reflexivity|].
      split; [congruence|]. split; [intros; discriminate|].
      intros _ pageContext' [= <-]. rewrite Hgenerate. auto. }
  destruct (length _ =? 0) eqn:Hempty.
  { apply ret_inv in H as [<- <-]. exists [], [EvFetch (AiPoweredAnalysisStrategy.ollamaUrl self +:+ "/api/generate"); EvEvaluate; EvFetch (AiPoweredAnalysisStrategy.ollamaUrl self +:+ "/api/tags")].
    split; [reflexivity|]. split; [intros ev []|].
    split; [right; reflexivity|].
    split; [congruence|]. split; [intros; discriminate|].
    intros _ pageContext' [= <-]. rewrite Hgenerate. split; [reflexivity|].
    right. split; [reflexivity|]. apply Nat.eqb_eq in Hempty.
    destruct (AiPoweredAnalysisStrategy.parseAiSuggestions w aiResponse);
      [reflexivity|discriminate]. }
  apply bind_inv in H as (hit & log4 & Hloop & H).
  apply first_existing_trace in Hloop.
  destruct hit as [suggestion|]; apply ret_inv in H as [<- <-].
  - destruct Hloop as (pre & post & Hparsed & ->).
    exists (EvProbe (AiPoweredAnalysisStrategy.sug_selector suggestion) true
              :: absent_probes AiPoweredAnalysisStrategy.sug_selector pre),
      [EvFetch (AiPoweredAnalysisStrategy.ollamaUrl self +:+ "/api/generate");
       EvEvaluate;
       EvFetch (AiPoweredAnalysisStrategy.ollamaUrl self +:+ "/api/tags")].
    split; [reflexivity|].
    split.
    { intros ev [<-|Hin]; [eauto|]. eapply absent_probes_are_probes, Hin. }
    split.
    { right. cbn [app rev]. rewrite rev_app_distr, !fetches_of_app, fetches_of_probes.
      reflexivity. }
    split; [congruence|]. split; [intros; discriminate|].
    intros _ pageContext' [= <-]. rewrite Hgenerate. split; [reflexivity|].
    left. split; [reflexivity|]. exists pre, suggestion, post. auto.
  - rewrite Hloop.
    exists (absent_probes AiPoweredAnalysisStrategy.sug_selector
              (AiPoweredAnalysisStrategy.parseAiSuggestions w aiResponse)),
      [EvFetch (AiPoweredAnalysisStrategy.ollamaUrl self +:+ "/api/generate");
       EvEvaluate;
       EvFetch (AiPoweredAnalysisStrategy.ollamaUrl self +:+ "/api/tags")].
    split; [reflexivity|].
    split; [intros ev Hin; eapply absent_probes_are_probes, Hin|].
    split.
    { right. rewrite rev_app_distr, !fetches_of_app, fetches_of_probes. reflexivity. }
    split; [congruence|]. split; [intros; discriminate|].
    intros _ pageContext' [= <-]. rewrite Hgenerate. split; [reflexivity|].
    right. auto.
Qed.

Lemma ai_strategy_asks_the_backend_at_most_twice_witness :
  let self := {| AiPoweredAnalysisStrategy.ollamaUrl := "http://localhost:11434";
                 AiPoweredAnalysisStrategy.model := "qwen2.5-coder:3b";
                 AiPoweredAnalysisStrategy.timeout := 30000%Z |} in
  let run := AiPoweredAnalysisStrategy.heal Scenario.llm_world self "#old" no_options [] in
  let r := fst run in
  let tags := "http://localhost:11434" +:+ "/api/tags" in
  let generate := "http://localhost:11434" +:+ "/api/generate" in
  let available := fetch_tags Scenario.llm_world 0 "http://localhost:11434" in
  let context := evaluate_pageContext Scenario.llm_world 1 (nat_or (maxElements no_options) 50) in
  exists probes stages,
    snd run = probes ++ stages ++ [] /\
    (forall ev, In ev probes -> exists s b, ev = EvProbe s b) /\
    (fetches_of (rev (probes ++ stages)) = [tags] \/
     fetches_of (rev (probes ++ stages)) = [tags; generate]) /\
    (available <> Ok true ->
     stages = [EvFetch tags] /\ probes = [] /\ success r = false /\
     error r = Some "Ollama is not available. Please ensure Ollama is running.") /\
    (available = Ok true ->
     forall msg, context = Throw msg ->
       stages = [EvEvaluate; EvFetch tags] /\ probes = [] /\ success r = false) /\
    (available = Ok true ->
     forall pageContext, context = Ok pageContext ->
       stages = [EvFetch generate; EvEvaluate; EvFetch tags] /\
       match fetch_generate Scenario.llm_world 2 "http://localhost:11434"
                            "qwen2.5-coder:3b" 30000%Z
                            (AiPoweredAnalysisStrategy.buildPrompt
                               "#old" pageContext (expectedType no_options)) with
       | Throw _ => probes = [] /\ success r = false
       | Ok aiResponse =>
           let suggestions :=
             AiPoweredAnalysisStrategy.parseAiSuggestions Scenario.llm_world aiResponse in
           (success r = true /\
            exists pre suggestion post,
              suggestions = pre ++ suggestion :: post /\
              selector r = AiPoweredAnalysisStrategy.sug_selector suggestion /\
              confidence r = AiPoweredAnalysisStrategy.sug_confidence suggestion /\
              probes = EvProbe (AiPoweredAnalysisStrategy.sug_selector suggestion) true
                         :: absent_probes AiPoweredAnalysisStrategy.sug_selector pre) \/
           (success r = false /\
            probes = absent_probes AiPoweredAnalysisStrategy.sug_selector suggestions)
       end).
Proof.
  cbv zeta.
  apply (ai_strategy_asks_the_backend_at_most_twice
           Scenario.llm_world
           {| AiPoweredAnalysisStrategy.ollamaUrl := "http://localhost:11434";
              AiPoweredAnalysisStrategy.model := "qwen2.5-coder:3b";
              AiPoweredAnalysisStrategy.timeout := 30000%Z |}
           "#old" no_options []).
  vm_compute. reflexivity.
Defined.

(** The stages on a page where [#new] resolves and the backend suggests it:
    check, page context, generation, one probe. *)
Example ai_strategy_stages :
  snd (AiPoweredAnalysisStrategy.heal Scenario.llm_world
         {| AiPoweredAnalysisStrategy.ollamaUrl := "http://localhost:11434";
            AiPoweredAnalysisStrategy.model := "qwen2.5-coder:3b";
            AiPoweredAnalysisStrategy.timeout := 30000%Z |}
         "#old" no_options [])
  = [EvProbe "#new" true; EvFetch "http://localhost:11434/api/generate"; EvEvaluate;
     EvFetch "http://localhost:11434/api/tags"].
Proof. vm_compute. reflexivity. Qed.

(** A [null] entry ends the reading of the reply: the suggestions before
    it are kept, the ones after it are lost, and the fallbacks that read the
    text of the reply do not run. *)
Example null_suggestion_ends_the_reading :
  map AiPoweredAnalysisStrategy.sug_selector
      (AiPoweredAnalysisStrategy.parseAiSuggestions null_item_world null_item_reply)
  = ["#a"] /\
  map fst (Regex.all AiPoweredAnalysisStrategy.selectorPattern null_item_reply)
  <> [].
Proof. split; vm_compute; [reflexivity|discriminate]. Qed.

(** ** The candidates of the text strategy *)

(** Every candidate of the text strategy comes from the page: it carries
    the non-empty text of one of the elements that the page returned, its
    selector is one of the selectors generated for that element, the
    similarity of that text to the extracted text is at least 0.8, and its
    confidence lies between 0.8 and 1. *)
Theorem text_candidates_come_from_the_page
        (originalText : string) (elements : list ElementInfo)
        (expectedType : option string) (c : TextContentMatchingStrategy.candidate) :
  In c (TextContentMatchingStrategy.findCandidates originalText elements expectedType) ->
  exists element,
    In element elements /\
    el_text element = Some (TextContentMatchingStrategy.cand_text c) /\
    TextContentMatchingStrategy.cand_text c <> EmptyString /\
    In (TextContentMatchingStrategy.cand_selector c)
       (TextContentMatchingStrategy.generateTextSelectors element originalText) /\
    (8 # 10 <= TextContentMatchingStrategy.calculateTextSimilarity
                 originalText (TextContentMatchingStrategy.cand_text c))%Q /\
    (8 # 10 <= TextContentMatchingStrategy.cand_confidence c)%Q /\
    (TextContentMatchingStrategy.cand_confidence c <= 1)%Q.
Proof.
  unfold TextContentMatchingStrategy.findCandidates. intros H.
  apply firstn_In, sort_desc_In, in_concat in H as (cs & Hcs & Hc).
  apply in_map_iff in Hcs as (element & <- & Hel).
  unfold TextContentMatchingStrategy.element_candidates in Hc.
  destruct (el_text element) as [text|] eqn:Htext; [|destruct Hc].
  destruct (JsString.nonempty text) eqn:Hne; cbn [negb] in Hc; [|destruct Hc].
  destruct (Qle_bool _ _) eqn:Hsim; [|destruct Hc].
  apply Qle_bool_iff in Hsim.
  unfold TextContentMatchingStrategy.SIMILARITY_THRESHOLD in Hsim.
  apply in_map_iff in Hc as (selector_ & <- & Hselector).
  exists element.
  cbn [TextContentMatchingStrategy.cand_text TextContentMatchingStrategy.cand_selector
       TextContentMatchingStrategy.cand_confidence].
  pose proof (text_similarity_le originalText text) as Hle.
  set (confidence0 :=
         if String.eqb (JsString.toLowerCase text) (JsString.toLowerCase originalText)
         then (95 # 100)%Q
         else if String.eqb (JsString.toLowerCase (JsString.trim text))
                            (JsString.toLowerCase (JsString.trim originalText))
              then (92 # 100)%Q
              else TextContentMatchingStrategy.calculateTextSimilarity originalText text).
  assert (8 # 10 <= confidence0 /\ confidence0 <= 1)%Q as [Hlo Hhi].
  { subst confidence0. destruct (String.eqb _ _); [split; lra|].
    destruct (String.eqb _ _); [split; lra|]. auto. }
  repeat apply conj; auto.
  - intros ->. discriminate.
  - destruct (DataTestIdRecoveryStrategy.type_matches _ _); [|exact Hlo].
    unfold Math_min. destruct (Qle_bool _ 1) eqn:Hmin; lra.
  - destruct (DataTestIdRecoveryStrategy.type_matches _ _); [|exact Hhi].
    unfold Math_min. destruct (Qle_bool _ 1) eqn:Hmin; [|lra].
    now apply Qle_bool_iff in Hmin.
Qed.

Lemma text_candidates_come_from_the_page_witness :
  let element :=
    {| el_tag := "button"; el_id := None; el_classes := []; el_text := Some "Save changes";
       el_testId := None; el_role := None; el_ariaLabel := None; el_type := None;
       el_name := None; el_parent := None |} in
  exists element',
    In element' [element] /\
    el_text element' = Some "Save changes" /\
    "Save changes" <> EmptyString /\
    In ("button:has-text(" +:+ quoted "Save changes" +:+ ")")
       (TextContentMatchingStrategy.generateTextSelectors element' "save") /\
    (8 # 10 <= TextContentMatchingStrategy.calculateTextSimilarity "save" "Save changes")%Q /\
    (8 # 10 <= (108000 # 120000))%Q /\ ((108000 # 120000) <= 1)%Q.
Proof.
  cbv zeta.
  apply (text_candidates_come_from_the_page
           "save"
           [ {| el_tag := "button"; el_id := None; el_classes := [];
                el_text := Some "Save changes"; el_testId := None; el_role := None;
                el_ariaLabel := None; el_type := None; el_name := None;
                el_parent := None |} ]
           None
           {| TextContentMatchingStrategy.cand_selector :=
                "button:has-text(" +:+ quoted "Save changes" +:+ ")";
              TextContentMatchingStrategy.cand_text := "Save changes";
              TextContentMatchingStrategy.cand_confidence := (108000 # 120000)%Q |}).
  vm_compute. auto 10.
Defined.

(** ** The entries of the cache *)

Lemma check_cache_none_well_formed (w : World) (sel : string) (e e1 : HealingEngine)
      (log log1 : Log) :
  check_cache w sel (e, log) = (None, (e1, log1)) ->
  cache_well_formed e -> cache_well_formed e1.
Proof.
  intros H Hwf. apply check_cache_inv in H as (_ & _ & _ & Hcases).
  destruct Hcases as [(_ & -> & _)|(cached & _ & _ & Hcache & _)]; [exact Hwf|].
  intros key entry Hlookup. rewrite Hcache in Hlookup.
  apply lookup_delete_Some in Hlookup as [_ Hlookup]. now apply Hwf.
Qed.

Lemma insert_well_formed (e : HealingEngine) (sel : string) (entry : HealingCacheEntry)
      (c : gmap string HealingCacheEntry) :
  (forall key entry', c !! key = Some entry' ->
                      entry_original entry' = key /\ 1 <= entry_useCount entry') ->
  entry_original entry = sel -> 1 <= entry_useCount entry ->
  forall key entry', <[sel := entry]> c !! key = Some entry' ->
                     entry_original entry' = key /\ 1 <= entry_useCount entry'.
Proof.
  intros Hwf Horiginal Hcount key entry' Hlookup.
  apply lookup_insert_Some in Hlookup as [[<- <-]|[_ Hlookup]]; auto.
Qed.

(** The cache stays well formed: in an engine as constructed, and after
    any number of calls of [heal], [clearCache] and [updateConfig], every
    entry is filed under the broken selector that it records as [original]
    and has a use count of at least 1. *)
Theorem cache_entries_stay_well_formed :
  (forall w c e, new_HealingEngine w c = Ok e -> cache_well_formed e) /\
  (forall w sel options e log,
     cache_well_formed e ->
     cache_well_formed (fst (snd (heal w sel options (e, log))))) /\
  (forall st, cache_well_formed (fst (snd (clearCache st)))) /\
  (forall w u e, cache_well_formed e -> cache_well_formed (snd (updateConfig w u e))).
Proof.
  split; [|split; [|split]].
  - intros w c e Hnew. apply new_HealingEngine_registry in Hnew as (ai & _ & _ & Hcache & _).
    intros key entry Hlookup. rewrite Hcache, lookup_empty in Hlookup. discriminate.
  - intros w sel options e log Hwf.
    destruct (heal w sel options (e, log)) as [r [e' log']] eqn:H. cbn [fst snd].
    apply heal_traces in H.
    destruct H as [_ _ -> _
                  |cached _ _ Hlookup _ _ -> _
                  |e1 log1 _ Hcheck _ _ -> _
                  |e1 log1 evs k pre name post t _ Hcheck _ _ _ _ _ _ _ ->
                  |e1 log1 evs _ Hcheck _ _ _ _ ->]; auto.
    + unfold cache_well_formed. cbn [with_cache cache].
      destruct (Hwf sel cached Hlookup) as [Horiginal Hcount].
      apply (insert_well_formed e); auto. cbn. lia.
    + eapply check_cache_none_well_formed in Hcheck; eauto.
    + eapply check_cache_none_well_formed in Hcheck; eauto.
      unfold cache_well_formed. cbn [with_tracker with_cache cache].
      destruct (cfg_cacheHealing (config e)); [|exact Hcheck].
      apply (insert_well_formed e1); auto.
    + eapply check_cache_none_well_formed in Hcheck; eauto.
  - intros [e log] key entry Hlookup. cbn in Hlookup.
    rewrite lookup_empty in Hlookup. discriminate.
  - intros w u e Hwf. unfold updateConfig.
    destruct (AiPoweredAnalysisStrategy.constructor w _); exact Hwf.
Qed.

Lemma total_uses_cover_the_entries (c : gmap string HealingCacheEntry) :
  (forall key entry, c !! key = Some entry -> 1 <= entry_useCount entry) ->
  size c <= map_fold (fun _ entry sum => sum + entry_useCount entry) 0 c.
Proof.
  apply (map_fold_weak_ind
           (fun (r : nat) (m : gmap string HealingCacheEntry) =>
              (forall key entry, m !! key = Some entry -> 1 <= entry_useCount entry) ->
              size m <= r)).
  - intros _. rewrite map_size_empty. lia.
  - intros key entry m r Hfresh IH Hall.
    rewrite map_size_insert_None by exact Hfresh.
    pose proof (Hall key entry (lookup_insert_eq _ _ _)) as Hentry.
    assert (size m <= r); [|lia].
    apply IH. intros key' entry' Hlookup. apply (Hall key').
    rewrite lookup_insert_ne; [exact Hlookup|]. intros ->. congruence.
Qed.

(** [healthCheck] only reads: it leaves the engine as it is, never asks
    the page, and contacts the backend at most once, with a request for
    [/api/tags] at the configured endpoint, and only when the AI strategy
    is registered.  The cache size it reports is the number of entries, and
    on a well-formed cache the total of uses it reports is at least that
    number. *)
Theorem healthCheck_only_reads (w : World) (e : HealingEngine) (log : Log) :
  let h := fst (healthCheck w (e, log)) in
  let st' := snd (healthCheck w (e, log)) in
  fst st' = e /\
  snd st' = match assoc_get ai_powered_analysis (registry e) with
            | Some _ =>
                EvFetch (str_or (Some (cfg_ollama_url (config e))) "http://localhost:11434"
                         +:+ "/api/tags") :: log
            | None => log
            end /\
  cache_size h = size (cache e) /\
  (cache_well_formed e -> cache_size h <= cache_entries h).
Proof.
  cbv zeta. unfold healthCheck, bind, get_engine, with_log, clock, ret. cbn [fst snd].
  destruct (assoc_get ai_powered_analysis (registry e)); cbn [fst snd cache_size cache_entries];
    (repeat apply conj; auto; intros Hwf; apply total_uses_cover_the_entries;
     intros key entry Hlookup; now apply (Hwf key entry)).
Qed.

(** ** Nothing to run *)

Lemma try_strategies_unregistered (w : World) (sel : string)
      (options : HealingStrategyOptions) (names : list HealingStrategy)
      (last : option HealingResult) (e : HealingEngine) (log : Log) :
  registered e names = [] ->
  try_strategies w sel options names last (e, log) = (inr last, (e, log)).
Proof.
  induction names as [|name rest IH]; intros Hnone; cbn [try_strategies]; [reflexivity|].
  rewrite (bind_eq get_engine _ (e, log) e (e, log)) by reflexivity.
  cbn [registered List.filter] in Hnone.
  destruct (assoc_get name (registry e)); [discriminate|]. now apply IH.
Qed.

Lemma attempts_unregistered (w : World) (sel : string) (options : HealingStrategyOptions)
      (remaining attempt : nat) (last : option HealingResult)
      (e : HealingEngine) (log : Log) :
  registered e (cfg_strategies (config e)) = [] ->
  fst (attempts w sel options remaining attempt last (e, log)) = inr last /\
  fst (snd (attempts w sel options remaining attempt last (e, log))) = e.
Proof.
  intros Hnone. revert attempt log.
  induction remaining as [|remaining IH]; intros attempt log; cbn [attempts]; [auto|].
  rewrite (bind_eq get_engine _ (e, log) e (e, log)) by reflexivity.
  rewrite (bind_eq _ _ _ _ _ (try_strategies_unregistered w sel options _ last e log Hnone)).
  destruct (attempt + 1 <? cfg_maxAttempts (config e)).
  - rewrite (bind_eq (delay _) _ (e, log) tt (e, EvDelay (1000 * (Z.of_nat attempt + 1)) :: log))
      by reflexivity.
    apply IH.
  - rewrite (bind_eq (ret tt) _ (e, log) tt (e, log)) by reflexivity. apply IH.
Qed.

(** With nothing to run, an enabled engine reports the synthetic failure:
    when none of the configured strategies is registered, or [maxAttempts]
    is 0, a call of [heal] that is not answered by the cache or by the
    selector itself returns [All healing strategies failed] for the broken
    selector with confidence 0, and counts a failure.  With [maxAttempts]
    rounds to go through it still waits between the empty rounds. *)
Theorem heal_without_strategies_reports_the_synthetic_failure
        (w : World) (sel : string) (options : HealingStrategyOptions)
        (e e' : HealingEngine) (log log' : Log) (r : HealingResult) :
  heal w sel options (e, log) = (r, (e', log')) ->
  cfg_enabled (config e) = true ->
  registered e (cfg_strategies (config e)) = [] \/ cfg_maxAttempts (config e) = 0 ->
  success r = false ->
  r = {| success := false; selector := sel; confidence := 0%Q;
         strategy := data_testid_recovery; alternatives := [];
         error := Some "All healing strategies failed"; metadata := None |} /\
  counted (flakinessTracker e) (flakinessTracker e') sel 0 1 /\
  exists evs,
    log' = evs ++ log /\
    invocations_of (rev evs) = [] /\
    delays_of (rev evs)
    = match registered e (cfg_strategies (config e)) with
      | [] => map (fun i => (1000 * (Z.of_nat i + 1))%Z)
                  (seq 0 (cfg_maxAttempts (config e) - 1))
      | _ => []
      end.
Proof.
  intros H Henabled Hnothing Hfail.
  pose proof H as Htrace. apply heal_traces in Htrace.
  revert H. unfold heal.
  rewrite (bind_eq get_engine _ (e, log) e (e, log)) by reflexivity.
  rewrite Henabled. cbn [negb]. intros H.
  apply bind_inv in H as (from_cache & [e1 log1] & Hcheck & H).
  pose proof (check_cache_inv _ _ _ _ _ _ _ Hcheck) as (Hc1 & Hr1 & Ht1 & Hcases).
  destruct from_cache as [result|].
  { apply ret_inv in H as [<- _].
    destruct Hcases as (cached & _ & _ & -> & _). discriminate. }
  apply bind_inv in H as (b & [e2 log2] & Hprobe & H).
  apply with_log_inv in Hprobe as [-> Hprobe].
  destruct b.
  { apply bind_inv in H as ([] & st3 & _ & H). apply ret_inv in H as [<- _]. discriminate. }
  assert (registered e1 (cfg_strategies (config e1)) = registered e (cfg_strategies (config e)))
    as Hreg by (unfold registered; now rewrite Hr1, Hc1).
  assert (fst (attempts w sel options (cfg_maxAttempts (config e)) 0 None (e1, log2))
          = inr None) as Hnone.
  { destruct Hnothing as [Hunregistered | Hzero]; [|rewrite Hzero; reflexivity].
    apply attempts_unregistered. now rewrite Hreg. }
  apply bind_inv in H as (healed & [e3 log3] & Hloop & H).
  rewrite Hloop in Hnone. cbn [fst] in Hnone. subst healed.
  apply bind_inv in H as ([] & [e4 log4] & Htrack & H).
  apply ret_inv in H as [<- [= <- <-]]. cbn [default].
  split; [reflexivity|].
  destruct Htrace as [Hoff _ _ _
                     |cached _ _ _ _ Hr _ _
                     |e0 log0 _ _ _ Hr _ _
                     |e0 log0 evs k pre name post t _ _ _ Hs _ _ _ _ _ _
                     |e0 log0 evs _ Hcheck0 _ _ Hlog Hdisp He];
    try congruence; try discriminate.
  rewrite Hcheck in Hcheck0. injection Hcheck0 as <- <-.
  split.
  { rewrite He. cbn [with_tracker flakinessTracker]. rewrite Ht1.
    apply count_failure_counted. }
  apply check_cache_none_run in Hcheck as [(evs0 & -> & Hq0) _].
  exists (evs ++ EvProbe sel false :: evs0).
  split; [rewrite Hlog; now rewrite <- app_assoc|].
  assert (dispatch_events (evs ++ EvProbe sel false :: evs0)
          = failed_rounds (registered e (cfg_strategies (config e)))
                          (cfg_maxAttempts (config e)) 0 (cfg_maxAttempts (config e))) as Hd.
  { rewrite dispatch_events_app, dispatch_events_cons, Hq0. exact Hdisp. }
  rewrite <- invocations_of_dispatch, <- delays_of_dispatch.
  fold (dispatch_events (evs ++ EvProbe sel false :: evs0)). rewrite Hd.
  rewrite failed_rounds_invocations, failed_rounds_delays, rounds_with_a_successor.
  destruct Hnothing as [Hunregistered | Hzero].
  - rewrite Hunregistered. split; [|reflexivity]. clear. induction (cfg_maxAttempts (config e)); cbn; auto.
  - rewrite Hzero. cbn. split; [reflexivity|].
    now destruct (registered e (cfg_strategies (config e))).
Qed.

Lemma heal_without_strategies_reports_the_synthetic_failure_witness :
  let c := {| enabled := None; strategies := Some []; maxAttempts := Some 2;
              cacheHealing := None; ollama := None; retry := None; telemetry := None |} in
  let e := Scenario.engine Scenario.blank_world c in
  let run := heal Scenario.blank_world "#missing" no_options (e, []) in
  fst run = {| success := false; selector := "#missing"; confidence := 0%Q;
               strategy := data_testid_recovery; alternatives := [];
               error := Some "All healing strategies failed"; metadata := None |} /\
  counted (flakinessTracker e) (flakinessTracker (fst (snd run))) "#missing" 0 1 /\
  exists evs,
    snd (snd run) = evs ++ [] /\
    invocations_of (rev evs) = [] /\
    delays_of (rev evs)
    = match registered e (cfg_strategies (config e)) with
      | [] => map (fun i => (1000 * (Z.of_nat i + 1))%Z)
                  (seq 0 (cfg_maxAttempts (config e) - 1))
      | _ => []
      end.
Proof.
  cbv zeta.
  apply (heal_without_strategies_reports_the_synthetic_failure
           Scenario.blank_world "#missing" no_options
           (Scenario.engine Scenario.blank_world
              {| enabled := None; strategies := Some []; maxAttempts := Some 2;
                 cacheHealing := None; ollama := None; retry := None;
                 telemetry := None |})).
  - vm_compute. reflexivity.
  - reflexivity.
  - left. reflexivity.
  - reflexivity.
Defined.

(** With an empty list of strategies and two rounds: no probe but the one
    of the selector, and one wait of a second between the two empty rounds. *)
Example heal_with_no_strategies :
  snd (snd (heal Scenario.blank_world "#missing" no_options
              (Scenario.engine Scenario.blank_world
                 {| enabled := None; strategies := Some []; maxAttempts := Some 2;
                    cacheHealing := None; ollama := None; retry := None;
                    telemetry := None |}, [])))
  = [EvDelay 1000; EvProbe "#missing" false].
Proof. vm_compute. reflexivity. Qed.

(** ** Configuration loading *)

Ltac first_defined :=
  cbn [loadHealingConfig mergeConfigs getDefaultConfig or_else first_of default mbind
       option_bind enabled strategies maxAttempts cacheHealing ollama retry telemetry
       url model timeout onTimeout onFlakiness maxRetries initialBackoff
       telemetry_enabled logLevel];
  repeat match goal with
         | |- context [match ?x with _ => _ end] => destruct x
         end;
  reflexivity.

(** [loadHealingConfig] layers its sources field by field, also inside
    the nested sections: every field of the result is defined, and its value
    is the one of the programmatic overrides when they define it, else the
    one from the environment, else the one from the configuration file, else
    the default.  The environment takes precedence over the file. *)
Theorem loadHealingConfig_layers_field_by_field
        (fileConfig : option HealingConfig) (envConfig overrides : HealingConfig) :
  let loaded := loadHealingConfig fileConfig envConfig overrides in
  let layers {A : Type} (field : HealingConfig -> option A) : list (option A) :=
    [field overrides; field envConfig; fileConfig ≫= field] in
  enabled loaded = Some (first_of (layers enabled) true) /\
  strategies loaded
  = Some (first_of (layers strategies)
                   [data_testid_recovery; text_content_matching;
                    css_hierarchy_analysis; ai_powered_analysis]) /\
  maxAttempts loaded = Some (first_of (layers maxAttempts) 3) /\
  cacheHealing loaded = Some (first_of (layers cacheHealing) true) /\
  (ollama loaded ≫= url)
  = Some (first_of (layers (fun c => ollama c ≫= url)) "http://localhost:11434") /\
  (ollama loaded ≫= model)
  = Some (first_of (layers (fun c => ollama c ≫= model)) "qwen2.5-coder:3b") /\
  (ollama loaded ≫= timeout)
  = Some (first_of (layers (fun c => ollama c ≫= timeout)) 30000%Z) /\
  (retry loaded ≫= onTimeout)
  = Some (first_of (layers (fun c => retry c ≫= onTimeout)) true) /\
  (retry loaded ≫= onFlakiness)
  = Some (first_of (layers (fun c => retry c ≫= onFlakiness)) true) /\
  (retry loaded ≫= maxRetries)
  = Some (first_of (layers (fun c => retry c ≫= maxRetries)) 2%Z) /\
  (retry loaded ≫= initialBackoff)
  = Some (first_of (layers (fun c => retry c ≫= initialBackoff)) 1000%Z) /\
  (telemetry loaded ≫= telemetry_enabled)
  = Some (first_of (layers (fun c => telemetry c ≫= telemetry_enabled)) true) /\
  (telemetry loaded ≫= logLevel)
  = Some (first_of (layers (fun c => telemetry c ≫= logLevel)) info).
Proof.
  cbv zeta. destruct fileConfig as [fileConfig|].
  - repeat apply conj; first_defined.
  - repeat apply conj; first_defined.
Qed.

(** ** The statistics of the page wrapper *)

(** [clearHealingCache] empties the cache of the engine and the map of
    healing attempts; the flakiness half of [getHealingStats] is the one
    from before. *)
Lemma clearHealingCache_keeps_flakiness (p : HealingPage) :
  let p' := clearHealingCache p in
  cache (fst (page_engine p')) = ∅ /\
  fst (getHealingStats p') = [] /\
  snd (getHealingStats p') = snd (getHealingStats p).
Proof.
  destruct p as [[e log] attempts waits]. cbv zeta.
  unfold clearHealingCache, getHealingStats, clearCache, set_cache, update_engine,
    getFlakinessStats.
  cbn [fst snd page_engine healingAttempts cache flakinessTracker]. auto.
Qed.
